(** * cxx-easy-types: the schema front end of [s.py]

    A shallow embedding of the type-graph builder of [src/s.py]
    ([_camel_case], [_resolve_refpath], the classes of the type graph and
    [create_types]) together with the properties of the builder that the
    specification states.

    Conventions of the embedding.
    - A Python [str] is a [string]; the case functions are those of ASCII
      letters, every other character is uncased. They are those of Python on
      the strings of ASCII characters; what is stated of [str.lower] or
      [str.title] themselves is stated of such strings.
    - What [yaml.safe_load] hands back is a [node]: a string, another scalar
      ([atom]), a list or a dict.  A dict is an association list in insertion
      order; the keys of a schema mapping are strings, and so are the names
      of types and of namespaces. A document with a key that is not a string
      (an integer, a boolean, null) is not a [node], and nothing here is
      about it.
    - A raised exception is [Raise e]; a call that returns is [Return v].
    - [create_types] mutates [namespace.types]; the embedding passes the
      namespace through every call.
    - [copy.deepcopy] of a tree is that tree. A second embedding, in the
      module [Heap], keeps the store of lists and dicts and the copies that
      [copy.deepcopy] allocates in it; it is there for the property that the
      builder leaves its argument as it was, and for what two runs of the
      builder in two stores have in common. The builder over the store is
      shown to build what the builder over trees builds.
    The definitions come first, the properties after them. *)

From Stdlib Require Import String Ascii List Bool ZArith Arith Lia.
Import ListNotations.
Local Open Scope string_scope.
Local Open Scope list_scope.

Set Implicit Arguments.

(** ** Exceptions and results *)

Inductive exn : Type :=
| TypeError
| AssertionError
| IndexError
| AttributeError
| UnboundLocalError.

Inductive result (A : Type) : Type :=
| Return (v : A)
| Raise (e : exn).

Arguments Return {A} v.
Arguments Raise {A} e.

Definition succeeds {A} (r : result A) : bool :=
  match r with Return _ => true | Raise _ => false end.

(** ** Python strings *)

Module Str.

(** [pat in s], for two strings. *)
Fixpoint contains (pat s : string) : bool :=
  String.prefix pat s ||
  match s with
  | EmptyString => false
  | String _ rest => contains pat rest
  end.

(** [s.split(sep)] for a one-character separator: the pieces between the
    separators, empty pieces kept. *)
Fixpoint split (sep : ascii) (s : string) : list string :=
  match s with
  | EmptyString => [EmptyString]
  | String c rest =>
      if Ascii.eqb c sep then EmptyString :: split sep rest
      else match split sep rest with
           | [] => [String c EmptyString]
           | piece :: pieces => String c piece :: pieces
           end
  end.

(** [sep.join(pieces)]. *)
Fixpoint join (sep : string) (pieces : list string) : string :=
  match pieces with
  | [] => EmptyString
  | [piece] => piece
  | piece :: rest => piece ++ sep ++ join sep rest
  end.

(** [s[-1]], when [s] is not empty. *)
Fixpoint last_char (s : string) : option ascii :=
  match s with
  | EmptyString => None
  | String c EmptyString => Some c
  | String _ rest => last_char rest
  end.

(** [s[:-1]]. *)
Fixpoint drop_last (s : string) : string :=
  match s with
  | EmptyString => EmptyString
  | String _ EmptyString => EmptyString
  | String c rest => String c (drop_last rest)
  end.

Definition is_lower (c : ascii) : bool :=
  let n := nat_of_ascii c in ((97 <=? n) && (n <=? 122))%nat.

Definition is_upper (c : ascii) : bool :=
  let n := nat_of_ascii c in ((65 <=? n) && (n <=? 90))%nat.

Definition to_upper (c : ascii) : ascii :=
  if is_lower c then ascii_of_nat (nat_of_ascii c - 32) else c.

Definition to_lower (c : ascii) : ascii :=
  if is_upper c then ascii_of_nat (nat_of_ascii c + 32) else c.

(** [s.title()]: a cased character is upper-cased when the character
    before it is not cased, lower-cased otherwise. The cased characters are
    the ASCII letters: this is [str.title] on strings of ASCII characters. *)
Fixpoint title_from (previous_is_cased : bool) (s : string) : string :=
  match s with
  | EmptyString => EmptyString
  | String c rest =>
      if is_lower c || is_upper c then
        String (if previous_is_cased then to_lower c else to_upper c)
               (title_from true rest)
      else String c (title_from false rest)
  end.

Definition title (s : string) : string := title_from false s.

End Str.

(** [_camel_case(s)]: ["".join(map(lambda x: x.title(), s.split("_")))]. *)
Definition _camel_case (s : string) : string :=
  Str.join "" (map Str.title (Str.split "_" s)).

(** ** Python dicts: association lists in insertion order *)

Module Dict.

Definition t (V : Type) : Type := list (string * V).

(** [d.get(k)]. *)
Fixpoint get {V} (k : string) (d : t V) : option V :=
  match d with
  | [] => None
  | (k', v) :: rest => if String.eqb k k' then Some v else get k rest
  end.

(** [k in d]. *)
Definition mem {V} (k : string) (d : t V) : bool :=
  match get k d with Some _ => true | None => false end.

(** [d[k] = v]: an existing key keeps its place and takes the new value,
    a new key goes to the end. *)
Fixpoint set {V} (k : string) (v : V) (d : t V) : t V :=
  match d with
  | [] => [(k, v)]
  | (k', v') :: rest =>
      if String.eqb k k' then (k', v) :: rest else (k', v') :: set k v rest
  end.

Definition keys {V} (d : t V) : list string := map fst d.
Definition values {V} (d : t V) : list V := map snd d.

End Dict.

(** ** The tree handed back by the YAML loader *)

#[local] Set Warnings "-register-all".

(** Scalars that are not strings: integers, booleans, floats and null.
    (The loader can build a few other values, such as timestamps; they are
    left out.) *)
Inductive atom : Type :=
| AInt (z : Z)
| ABool (b : bool)
| AFloat (mantissa exponent : Z)
| ANull.

Inductive node : Type :=
| NStr (s : string)
| NAtom (a : atom)
| NList (items : list node)
| NMap (entries : list (string * node)).

(** ** The type graph *)

(** The classes [Reference], [Optional], [Primitive], [Object], [Array] and
    [EnumClass]; the three last ones inherit [name] and [path] from
    [Reference].  [EnumClass.values] is whatever the document has under
    [enum]. *)
Inductive TypeDef : Type :=
| Reference (name path : string)
| Optional (under : TypeDef)
| Primitive (name : string)
| Object (name path : string) (fields : list (string * TypeDef))
| Array (name path : string) (item : TypeDef)
| EnumClass (name path : string) (values : node).

(** [Optional.__init__]: [assert type(t) is not Optional]. *)
Definition Optional_init (t : TypeDef) : result TypeDef :=
  match t with
  | Optional _ => Raise AssertionError
  | _ => Return (Optional t)
  end.

(** [Primitive.map]. *)
Definition Primitive_map : Dict.t string :=
  [("str", "std::string"); ("bool", "bool"); ("int", "int32_t");
   ("float", "double")].

(** [res.name], for the classes that reach line 113. *)
Definition res_name (res : TypeDef) : result string :=
  match res with
  | Reference name _ | Primitive name | Object name _ _ | Array name _ _
  | EnumClass name _ _ => Return name
  | Optional _ => Raise TypeError
  end.

Module Namespace.
Record t : Type := make { name : string; types : Dict.t TypeDef }.
End Namespace.

(** [_resolve_refpath(namespace, path)]. *)
Definition _resolve_refpath (namespace : Namespace.t) (path : string)
  : string * string :=
  if Str.contains "." path then
    let path := Str.split "." path in
    (last path "", Str.join "." (removelast path))
  else (path, Namespace.name namespace).

(** ** The builder monad: the namespace is threaded, an exception aborts *)

Definition M (A : Type) : Type := Namespace.t -> result (A * Namespace.t).

Definition ret {A} (v : A) : M A := fun namespace => Return (v, namespace).

Definition raise {A} (e : exn) : M A := fun _ => Raise e.

Definition bind {A B} (c : M A) (k : A -> M B) : M B :=
  fun namespace =>
    match c namespace with
    | Return (v, namespace') => k v namespace'
    | Raise e => Raise e
    end.

Definition lift {A} (r : result A) : M A :=
  match r with Return v => ret v | Raise e => raise e end.

Notation "x <- c ;; k" := (bind c (fun x => k))
  (at level 61, c at next level, right associativity).

(** [namespace.types[res.name] = res]. *)
Definition register (res : TypeDef) : M unit :=
  fun namespace =>
    match res_name res with
    | Return key =>
        Return (tt, Namespace.make (Namespace.name namespace)
                      (Dict.set key res (Namespace.types namespace)))
    | Raise e => Raise e
    end.

Definition namespace_name : M string :=
  fun namespace => Return (Namespace.name namespace, namespace).

(** [x == "enum"], for an element [x] of a list. *)
Definition is_str (s : string) (x : node) : bool :=
  match x with NStr s' => String.eqb s s' | _ => false end.

(** ** [create_types], the call with a namespace (lines 87 to 114)

    [copy.deepcopy(desc)] gives a tree equal to [desc]. The two membership
    tests of lines 88 and 92 are those of the class of [struct]: a key of a
    dict, a substring of a string, an element of a list, and a [TypeError]
    for any other scalar. Subscripting a string or a list with ["enum"] or
    ["structure"] is a [TypeError] too. After line 93 [struct] is either the
    copy or what it has under [structure]. *)

Section Body.

(** The recursive calls of the body. *)
Variable create_types : string -> node -> M TypeDef.

(** Lines 100 to 106: the loop over [struct.items()], filling [fields].
    [k[-1]] of an empty key is an [IndexError]. *)
Fixpoint for_items (name : string) (items : list (string * node))
  (fields : Dict.t TypeDef) : M (Dict.t TypeDef) :=
  match items with
  | [] => ret fields
  | (k, v) :: items' =>
      match Str.last_char k with
      | None => raise IndexError
      | Some c =>
          if Ascii.eqb c "?" then
            let k := Str.drop_last k in
            under <- create_types (name ++ _camel_case k) v ;;
            v <- lift (Optional_init under) ;;
            for_items name items' (Dict.set k v fields)
          else
            v <- create_types (name ++ _camel_case k) v ;;
            for_items name items' (Dict.set k v fields)
      end
  end.

(** Lines 94 to 114, for the [struct] that line 93 leaves. A [struct] that
    is neither a string, a dict nor a list reaches line 113 with [res]
    unbound. *)
Definition lines_94_114 (name : string) (struct : node) : M TypeDef :=
  match struct with
  | NStr s =>
      if negb (Dict.mem s Primitive_map) then
        fun namespace =>
          let '(n, p) := _resolve_refpath namespace s in
          Return (Reference n p, namespace)
      else
        let res := Primitive s in
        _ <- register res ;; ret res
  | NMap entries =>
      fields <- for_items name entries [] ;;
      path <- namespace_name ;;
      let res := Object name path fields in
      _ <- register res ;; ret res
  | NList items =>
      match items with
      | [item] =>
          path <- namespace_name ;;
          item <- create_types (name ++ "Item") item ;;
          let res := Array name path item in
          _ <- register res ;; ret res
      | _ => raise AssertionError
      end
  | NAtom _ => raise UnboundLocalError
  end.

(** Lines 88 to 91. *)
Definition lines_88_91 (name : string) (values : node) : M TypeDef :=
  path <- namespace_name ;;
  let res := EnumClass name path values in
  _ <- register res ;; ret res.

End Body.

Fixpoint create_types (name : string) (desc : node) {struct desc}
  : M TypeDef :=
  match desc with
  | NAtom _ => raise TypeError
  | NStr s =>
      if Str.contains "enum" s then raise TypeError
      else if Str.contains "structure" s then raise TypeError
      else lines_94_114 create_types name desc
  | NList items =>
      if existsb (is_str "enum") items then raise TypeError
      else if existsb (is_str "structure") items then raise TypeError
      else lines_94_114 create_types name desc
  | NMap entries =>
      match Dict.get "enum" entries with
      | Some values => lines_88_91 name values
      | None =>
          (fix subscript_structure (items : list (string * node))
             : M TypeDef :=
             match items with
             | [] => lines_94_114 create_types name desc
             | (k, inner) :: items' =>
                 if String.eqb "structure" k
                 then lines_94_114 create_types name inner
                 else subscript_structure items'
             end) entries
      end
  end.

(** ** [create_types], the call with [namespace is None] (lines 81 to 85)

    A document is given by what it has under [namespace], a string, and
    under [types], a mapping. *)

Record document : Type :=
  { doc_namespace : string; doc_types : list (string * node) }.

(** The loop of lines 83 and 84. *)
Fixpoint for_types (items : list (string * node)) : M unit :=
  match items with
  | [] => ret tt
  | (k, v) :: items' => _ <- create_types k v ;; for_types items'
  end.

Definition create_types_None (desc : document) : result Namespace.t :=
  let namespace := Namespace.make (doc_namespace desc) [] in
  match for_types (doc_types desc) namespace with
  | Return (_, namespace) => Return namespace
  | Raise e => Raise e
  end.

(** ** The loader (lines 117 to 123): [types += ns.types.values()] for each
    document, in order. *)
Fixpoint load (documents : list document) (types : list TypeDef)
  : result (list TypeDef) :=
  match documents with
  | [] => Return types
  | got :: documents' =>
      match create_types_None got with
      | Return ns => load documents' (types ++ Dict.values (Namespace.types ns))
      | Raise e => Raise e
      end
  end.

(** * The builder over the store

    In the interpreter a list or a dict is an object of the store, and
    [desc] is a reference to it: a callee that assigned into it would change
    what the caller sees. This second embedding keeps the store: a [value]
    is a string, another scalar, or the location of a list or of a dict,
    and the builder runs on a [state] made of the store and of the type
    table of the namespace. [copy.deepcopy] allocates the copies and fills
    them; nothing else in [create_types] assigns into a list or a dict of
    the store ([fields] and [namespace.types] hold types, and are kept
    apart). A run that goes deeper than [fuel] calls, or meets a
    location that the store does not have, ends with [Stopped], in the state
    it has reached. *)

Module Heap.

Definition loc : Type := nat.

Inductive value : Type :=
| VStr (s : string)
| VAtom (a : atom)
| VRef (l : loc).

Inductive object : Type :=
| OList (items : list value)
| ODict (entries : list (string * value)).

Definition heap : Type := list object.

Definition read (h : heap) (l : loc) : option object := nth_error h l.

(** A new object, at the first free location. *)
Definition alloc (o : object) (h : heap) : loc * heap :=
  (length h, h ++ [o]).

Fixpoint write (l : loc) (o : object) (h : heap) : heap :=
  match h, l with
  | [], _ => []
  | _ :: h', 0 => o :: h'
  | x :: h', S l' => x :: write l' o h'
  end.

(** [y.append(v)] and [y[k] = v], for the object at [y]. *)
Definition list_append (y : loc) (v : value) (h : heap) : heap :=
  match read h y with
  | Some (OList items) => write y (OList (items ++ [v])) h
  | _ => h
  end.

Definition dict_setitem (y : loc) (k : string) (v : value) (h : heap)
  : heap :=
  match read h y with
  | Some (ODict entries) => write y (ODict (Dict.set k v entries)) h
  | _ => h
  end.

(** ** [copy.deepcopy]

    [memo] maps the objects copied so far to their copies. A string or
    another scalar is its own copy. A list is copied by [y = []],
    [memo[id(x)] = y] and [y.append(deepcopy(a, memo))] for each [a] of
    [x]; a dict by [y = {}], [memo[id(x)] = y] and
    [y[deepcopy(key, memo)] = deepcopy(value, memo)] for each item. The
    result is [None] when the fuel is spent, or a location is not in the
    store. *)

Definition memo : Type := list (loc * loc).

Fixpoint memo_get (l : loc) (m : memo) : option loc :=
  match m with
  | [] => None
  | (x, y) :: m' => if Nat.eqb l x then Some y else memo_get l m'
  end.

Section DeepcopyBody.

Variable deepcopy : value -> memo -> heap -> option (value * memo) * heap.

Fixpoint copy_list (items : list value) (y : loc) (m : memo) (h : heap)
  : option memo * heap :=
  match items with
  | [] => (Some m, h)
  | a :: items' =>
      match deepcopy a m h with
      | (Some (a', m'), h') => copy_list items' y m' (list_append y a' h')
      | (None, h') => (None, h')
      end
  end.

Fixpoint copy_dict (entries : list (string * value)) (y : loc) (m : memo)
  (h : heap) : option memo * heap :=
  match entries with
  | [] => (Some m, h)
  | (key, v) :: entries' =>
      match deepcopy v m h with
      | (Some (v', m'), h') =>
          copy_dict entries' y m' (dict_setitem y key v' h')
      | (None, h') => (None, h')
      end
  end.

End DeepcopyBody.

Fixpoint deepcopy (fuel : nat) (x : value) (m : memo) (h : heap)
  : option (value * memo) * heap :=
  match fuel with
  | 0 => (None, h)
  | S fuel' =>
      match x with
      | VStr _ | VAtom _ => (Some (x, m), h)
      | VRef l =>
          match memo_get l m with
          | Some y => (Some (VRef y, m), h)
          | None =>
              match read h l with
              | None => (None, h)
              | Some (OList items) =>
                  let '(y, h) := alloc (OList []) h in
                  match copy_list (deepcopy fuel') items y ((l, y) :: m) h
                  with
                  | (Some m', h') => (Some (VRef y, m'), h')
                  | (None, h') => (None, h')
                  end
              | Some (ODict entries) =>
                  let '(y, h) := alloc (ODict []) h in
                  match copy_dict (deepcopy fuel') entries y ((l, y) :: m) h
                  with
                  | (Some m', h') => (Some (VRef y, m'), h')
                  | (None, h') => (None, h')
                  end
              end
          end
      end
  end.

(** ** The type graph, with references to the store *)

Inductive TypeDef : Type :=
| Reference (name path : string)
| Optional (under : TypeDef)
| Primitive (name : string)
| Object (name path : string) (fields : list (string * TypeDef))
| Array (name path : string) (item : TypeDef)
| EnumClass (name path : string) (values : value).

Definition Optional_init (t : TypeDef) : result TypeDef :=
  match t with
  | Optional _ => Raise AssertionError
  | _ => Return (Optional t)
  end.

Definition res_name (res : TypeDef) : result string :=
  match res with
  | Reference name _ | Primitive name | Object name _ _ | Array name _ _
  | EnumClass name _ _ => Return name
  | Optional _ => Raise TypeError
  end.

(** ** The builder monad *)

Record state : Type :=
  { heap_of : heap; types_of : Dict.t TypeDef }.

Inductive outcome (A : Type) : Type :=
| Done (v : A)
| Raised (e : exn)
| Stopped.

Arguments Done {A} v.
Arguments Raised {A} e.
Arguments Stopped {A}.

Definition M (A : Type) : Type := state -> outcome A * state.

Definition ret {A} (v : A) : M A := fun st => (Done v, st).
Definition raise {A} (e : exn) : M A := fun st => (Raised e, st).
Definition stopped {A} : M A := fun st => (Stopped, st).

Definition bind {A B} (c : M A) (k : A -> M B) : M B :=
  fun st =>
    match c st with
    | (Done v, st') => k v st'
    | (Raised e, st') => (Raised e, st')
    | (Stopped, st') => (Stopped, st')
    end.

Definition lift {A} (r : result A) : M A :=
  match r with Return v => ret v | Raise e => raise e end.

Notation "x <~ c ;; k" := (bind c (fun x => k))
  (at level 61, c at next level, right associativity).

(** [namespace.types[res.name] = res]. *)
Definition register (res : TypeDef) : M unit :=
  fun st =>
    match res_name res with
    | Return key =>
        (Done tt, {| heap_of := heap_of st;
                     types_of := Dict.set key res (types_of st) |})
    | Raise e => (Raised e, st)
    end.

(** [struct = copy.deepcopy(desc)]. *)
Definition copy_deepcopy (fuel : nat) (desc : value) : M value :=
  fun st =>
    match deepcopy fuel desc [] (heap_of st) with
    | (Some (struct, _), h) =>
        (Done struct, {| heap_of := h; types_of := types_of st |})
    | (None, h) => (Stopped, {| heap_of := h; types_of := types_of st |})
    end.

(** What a reference points to. *)
Definition deref (l : loc) : M object :=
  fun st =>
    match read (heap_of st) l with
    | Some o => (Done o, st)
    | None => (Stopped, st)
    end.

Definition is_str (s : string) (x : value) : bool :=
  match x with VStr s' => String.eqb s s' | _ => false end.

(** ** [create_types], the call with a namespace, named [nsname] *)

Section Body.

Variable create_types : string -> value -> M TypeDef.
Variable nsname : string.

Fixpoint for_items (name : string) (items : list (string * value))
  (fields : Dict.t TypeDef) : M (Dict.t TypeDef) :=
  match items with
  | [] => ret fields
  | (k, v) :: items' =>
      match Str.last_char k with
      | None => raise IndexError
      | Some c =>
          if Ascii.eqb c "?" then
            let k := Str.drop_last k in
            under <~ create_types (name ++ _camel_case k) v ;;
            v <~ lift (Optional_init under) ;;
            for_items name items' (Dict.set k v fields)
          else
            v <~ create_types (name ++ _camel_case k) v ;;
            for_items name items' (Dict.set k v fields)
      end
  end.

Definition register_and_return (res : TypeDef) : M TypeDef :=
  _ <~ register res ;; ret res.

(** Lines 94 to 114; [_resolve_refpath] reads the name of the namespace
    and nothing else of it. *)
Definition lines_94_114 (name : string) (struct : value) : M TypeDef :=
  match struct with
  | VStr s =>
      if negb (Dict.mem s Primitive_map) then
        let '(n, p) := _resolve_refpath (Namespace.make nsname []) s in
        ret (Reference n p)
      else register_and_return (Primitive s)
  | VAtom _ => raise UnboundLocalError
  | VRef l =>
      o <~ deref l ;;
      match o with
      | ODict entries =>
          fields <~ for_items name entries [] ;;
          register_and_return (Object name nsname fields)
      | OList items =>
          match items with
          | [item] =>
              item <~ create_types (name ++ "Item") item ;;
              register_and_return (Array name nsname item)
          | _ => raise AssertionError
          end
      end
  end.

(** Lines 87 to 93, then the rest. *)
Definition body (fuel : nat) (name : string) (desc : value) : M TypeDef :=
  struct <~ copy_deepcopy fuel desc ;;
  match struct with
  | VAtom _ => raise TypeError
  | VStr s =>
      if Str.contains "enum" s then raise TypeError
      else if Str.contains "structure" s then raise TypeError
      else lines_94_114 name struct
  | VRef l =>
      o <~ deref l ;;
      match o with
      | OList items =>
          if existsb (is_str "enum") items then raise TypeError
          else if existsb (is_str "structure") items then raise TypeError
          else lines_94_114 name struct
      | ODict entries =>
          match Dict.get "enum" entries with
          | Some values =>
              register_and_return (EnumClass name nsname values)
          | None =>
              match Dict.get "structure" entries with
              | Some inner => lines_94_114 name inner
              | None => lines_94_114 name struct
              end
          end
      end
  end.

End Body.

Fixpoint create_types (fuel : nat) (nsname : string) (name : string)
  (desc : value) : M TypeDef :=
  match fuel with
  | 0 => stopped
  | S fuel' => body (create_types fuel' nsname) nsname fuel' name desc
  end.

(** ** The call with [namespace is None]: [desc["namespace"]] is the
    string [nsname], and [desc["types"]] the object at [types]; a list has
    no [items]. *)

Fixpoint for_types (fuel : nat) (nsname : string)
  (items : list (string * value)) : M unit :=
  match items with
  | [] => ret tt
  | (k, v) :: items' =>
      _ <~ create_types fuel nsname k v ;; for_types fuel nsname items'
  end.

Definition create_types_None (fuel : nat) (nsname : string) (types : loc)
  (h : heap) : outcome (Dict.t TypeDef) * heap :=
  match read h types with
  | Some (ODict entries) =>
      match for_types fuel nsname entries {| heap_of := h; types_of := [] |}
      with
      | (Done _, st) => (Done (types_of st), heap_of st)
      | (Raised e, st) => (Raised e, heap_of st)
      | (Stopped, st) => (Stopped, heap_of st)
      end
  | Some (OList _) => (Raised AttributeError, h)
  | None => (Stopped, h)
  end.

(** ** The tree that a value stands for in a store *)

Section Reify.

Variable reify : value -> option node.

Fixpoint reify_list (items : list value) : option (list node) :=
  match items with
  | [] => Some []
  | v :: items' =>
      match reify v, reify_list items' with
      | Some n, Some ns => Some (n :: ns)
      | _, _ => None
      end
  end.

Fixpoint reify_dict (entries : list (string * value))
  : option (list (string * node)) :=
  match entries with
  | [] => Some []
  | (k, v) :: entries' =>
      match reify v, reify_dict entries' with
      | Some n, Some ns => Some ((k, n) :: ns)
      | _, _ => None
      end
  end.

End Reify.

Fixpoint reify (depth : nat) (h : heap) (v : value) : option node :=
  match depth with
  | 0 => None
  | S depth' =>
      match v with
      | VStr s => Some (NStr s)
      | VAtom a => Some (NAtom a)
      | VRef l =>
          match read h l with
          | Some (OList items) =>
              option_map NList (reify_list (reify depth' h) items)
          | Some (ODict entries) =>
              option_map NMap (reify_dict (reify depth' h) entries)
          | None => None
          end
      end
  end.

(** The store [h'] has every object of [h], where [h] has it. *)
Definition extends (h h' : heap) : Prop := exists extra, h' = h ++ extra.

(** The computation [c] assigns into no object that the store has when
    [c] starts. *)
Definition frames {A} (c : M A) : Prop :=
  forall st, extends (heap_of st) (heap_of (snd (c st))).

End Heap.

(** * The naming and rendering helpers

    [_snake_case], the class [Cpp] (lines 127 to 179) and the text that
    [open_template] hands to the template engine. *)

Module Text.

Definition newline : ascii := "010".

Definition is_digit (c : ascii) : bool :=
  let n := nat_of_ascii c in ((48 <=? n) && (n <=? 57))%nat.

(** [s.lower()], for a string of ASCII characters (a character that is
    not ASCII is left as it is, which is not what Python does of a cased
    one). *)
Fixpoint lower (s : string) : string :=
  match s with
  | EmptyString => EmptyString
  | String c rest => String (Str.to_lower c) (lower rest)
  end.

(** [s.replace(old, new)], for a one-character [old]. *)
Fixpoint replace (old : ascii) (new : string) (s : string) : string :=
  match s with
  | EmptyString => EmptyString
  | String c rest =>
      if Ascii.eqb c old then (new ++ replace old new rest)%string
      else String c (replace old new rest)
  end.

(** The lines that iterating over a text file gives: each one with its
    newline, but for a last line that has none. *)
Fixpoint readlines (content : string) : list string :=
  match content with
  | EmptyString => []
  | String c rest =>
      if Ascii.eqb c newline then String c EmptyString :: readlines rest
      else match readlines rest with
           | [] => [String c EmptyString]
           | line :: lines => String c line :: lines
           end
  end.

End Text.

(** ** [_snake_case]

    [re.sub] replaces the matches of the pattern that it finds from left to
    right, each search starting where the last match ended.

    The first pattern, [(.)([A-Z][a-z]+)], matches at a character that is
    not a newline and is followed by an upper-case letter and at least one
    lower-case letter; the match takes all the lower-case letters that
    follow. [sub_word true] is the scan inside such a run of lower-case
    letters, [sub_word false] the scan elsewhere. *)
Fixpoint sub_word (in_run : bool) (s : string) : string :=
  match s with
  | EmptyString => EmptyString
  | String c rest =>
      if in_run && Str.is_lower c then String c (sub_word true rest)
      else
        match rest with
        | String u (String l rest') =>
            if negb (Ascii.eqb c Text.newline)
               && Str.is_upper u && Str.is_lower l
            then String c (String "_" (String u (String l (sub_word true rest'))))
            else String c (sub_word false rest)
        | _ => String c (sub_word false rest)
        end
  end.

(** The second pattern, [([a-z0-9])([A-Z])], matches at a lower-case letter
    or a digit that is followed by an upper-case letter; the search goes on
    after that letter. *)
Fixpoint sub_hump (s : string) : string :=
  match s with
  | EmptyString => EmptyString
  | String c rest =>
      match rest with
      | String u rest' =>
          if (Str.is_lower c || Text.is_digit c) && Str.is_upper u
          then String c (String "_" (String u (sub_hump rest')))
          else String c (sub_hump rest)
      | EmptyString => String c EmptyString
      end
  end.

Definition _snake_case (name : string) : string :=
  Text.lower (sub_hump (sub_word false name)).

(** ** [open_template]: the text given to [Template], for the content of
    the file. *)
Definition open_template_text (content : string) : string :=
  Str.join (String Text.newline "") (map Str.drop_last (Text.readlines content)).

(** ** The class [Cpp]

    The methods read the attributes [name], [path], [under], [fields] and
    [item] of the types: a class that lacks the attribute gives an
    [AttributeError]. [Primitive.map[t.name]] is a [KeyError] for a name
    that is not a key. The set that [includes] returns is a list without
    repetition, in which the order means nothing. *)

Module Cpp.

Inductive error : Type :=
| AttributeError
| KeyError
| AssertionError.

Inductive outcome (A : Type) : Type :=
| Ok (v : A)
| Error (e : error).

Arguments Ok {A} v.
Arguments Error {A} e.

(** [t.path] and [t.name]. *)
Definition path_of (t : TypeDef) : outcome string :=
  match t with
  | Reference _ path | Object _ path _ | Array _ path _
  | EnumClass _ path _ => Ok path
  | Optional _ | Primitive _ => Error AttributeError
  end.

Definition name_of (t : TypeDef) : outcome string :=
  match t with
  | Reference name _ | Object name _ _ | Array name _ _
  | EnumClass name _ _ | Primitive name => Ok name
  | Optional _ => Error AttributeError
  end.

Section Methods.

(** [self.output_dir]. *)
Variable output_dir : string.

Definition dir (path : string) : string :=
  (output_dir ++ "/" ++ Text.replace "." "/" path)%string.

Definition definition_file (t : TypeDef) : outcome string :=
  match t with
  | Primitive _ => Ok "string"
  | _ =>
      match path_of t with
      | Error e => Error e
      | Ok path =>
          match name_of t with
          | Error e => Error e
          | Ok name => Ok (dir path ++ "/" ++ _snake_case name ++ ".hpp")%string
          end
      end
  end.

(** [includes.add(x)]. *)
Definition add (x : string) (includes : list string) : list string :=
  if existsb (String.eqb x) includes then includes else includes ++ [x].

(** The loop of lines 142 to 146 over the values of [t.fields]. *)
Fixpoint includes_fields (values : list TypeDef) (includes : list string)
  : outcome (list string) :=
  match values with
  | [] => Ok includes
  | v :: values' =>
      let '(v, includes) :=
        match v with
        | Optional under => (under, add "optional" includes)
        | _ => (v, includes)
        end in
      match definition_file v with
      | Error e => Error e
      | Ok file => includes_fields values' (add file includes)
      end
  end.

Definition includes (t : TypeDef) : outcome (list string) :=
  match t with
  | Object _ _ fields => includes_fields (Dict.values fields) []
  | Array _ _ item =>
      match definition_file item with
      | Error e => Error e
      | Ok file => Ok (add file (add "vector" []))
      end
  | _ => Ok []
  end.

Definition typename (t : TypeDef) : outcome string :=
  let '(is_opt, t) :=
    match t with
    | Optional under => (true, under)
    | _ => (false, t)
    end in
  match
    match t with
    | Primitive name =>
        match Dict.get name Primitive_map with
        | Some res => Ok res
        | None => Error KeyError
        end
    | _ =>
        match path_of t with
        | Error e => Error e
        | Ok path =>
            match name_of t with
            | Error e => Error e
            | Ok name => Ok (Text.replace "." "::" path ++ "::" ++ name)%string
            end
        end
    end
  with
  | Error e => Error e
  | Ok res =>
      Ok (if is_opt then ("std::optional<" ++ res ++ ">")%string else res)
  end.

Definition namespace (t : TypeDef) : outcome string :=
  match t with
  | Primitive _ => Error AssertionError
  | _ =>
      match path_of t with
      | Error e => Error e
      | Ok path => Ok (Text.replace "." "::" path)
      end
  end.

Definition enum_value (v : string) : string := ("k" ++ _camel_case v)%string.

Definition enum_string_file (suffix : string) (t : TypeDef) : outcome string :=
  match path_of t with
  | Error e => Error e
  | Ok path =>
      match name_of t with
      | Error e => Error e
      | Ok name => Ok (dir path ++ "/" ++ _snake_case name ++ suffix)%string
      end
  end.

Definition enum_string_header_file : TypeDef -> outcome string :=
  enum_string_file "_string_util.hpp".

Definition enum_string_source_file : TypeDef -> outcome string :=
  enum_string_file "_string_util.cpp".

End Methods.

End Cpp.

(** * What the properties are stated with *)

(** ** The shape of a type *)

(** The number of [Optional] wrappers at the top of a type. *)
Fixpoint wrappers (t : TypeDef) : nat :=
  match t with
  | Optional under => S (wrappers under)
  | _ => 0
  end.

(** The nesting depth of [Optional] in a type graph: the longest run of
    [Optional] wrappers found anywhere in it. *)
Fixpoint optional_depth (t : TypeDef) : nat :=
  match t with
  | Optional under => Nat.max (S (wrappers under)) (optional_depth under)
  | Object _ _ fields =>
      list_max (map (fun kv => optional_depth (snd kv)) fields)
  | Array _ _ item => optional_depth item
  | Reference _ _ | Primitive _ | EnumClass _ _ _ => 0
  end.

(** The classes that line 113 puts in a type table. *)
Definition registrable (t : TypeDef) : bool :=
  match t with
  | Primitive _ | Object _ _ _ | Array _ _ _ | EnumClass _ _ _ => true
  | Reference _ _ | Optional _ => false
  end.

Definition is_EnumClass (t : TypeDef) : bool :=
  match t with EnumClass _ _ _ => true | _ => false end.

(** Whether the two tests of lines 88 and 92 are both false on [struct]. *)
Definition untested (struct : node) : bool :=
  match struct with
  | NStr s => negb (Str.contains "enum" s) && negb (Str.contains "structure" s)
  | NList items =>
      negb (existsb (is_str "enum") items)
      && negb (existsb (is_str "structure") items)
  | NMap entries =>
      negb (Dict.mem "enum" entries) && negb (Dict.mem "structure" entries)
  | NAtom _ => false
  end.

(** The class of what lines 94 to 114 return for [struct], under the name
    [name] in a namespace named [path]. *)
Definition shape_of (struct : node) (name path : string) (t : TypeDef)
  : Prop :=
  match struct with
  | NStr s => t = Primitive s \/ exists n p, t = Reference n p
  | NList items =>
      exists item item_type,
        items = [item] /\ t = Array name path item_type
  | NMap _ => exists fields, t = Object name path fields
  | NAtom _ => False
  end.

(** ** The mapping node, in the words of the specification

    For each declared field, in declaration order: if the key ends with the
    marker [?], strip the marker, build the field's node under the child
    name (the name, then the camel-cased key) and wrap the result in
    [Optional]; otherwise build it under the child name, unwrapped. The
    results are collected into an ordered field table, and the [Object] of
    that table is registered under the name. *)

Definition ends_with_marker (k : string) : bool :=
  match Str.last_char k with
  | Some c => Ascii.eqb c "?"
  | None => false
  end.

Definition strip_marker (k : string) : string :=
  if ends_with_marker k then Str.drop_last k else k.

Fixpoint spec_fields (name : string) (entries : list (string * node))
  (table : Dict.t TypeDef) : M (Dict.t TypeDef) :=
  match entries with
  | [] => ret table
  | (k, v) :: entries' =>
      t <- create_types (name ++ _camel_case (strip_marker k)) v ;;
      let t := if ends_with_marker k then Optional t else t in
      spec_fields name entries' (Dict.set (strip_marker k) t table)
  end.

Definition spec_object (name : string) (entries : list (string * node))
  : M TypeDef :=
  table <- spec_fields name entries [] ;;
  path <- namespace_name ;;
  _ <- register (Object name path table) ;;
  ret (Object name path table).

(** ** The registrations of a call

    What a call does to [namespace.types] is a sequence of assignments
    [types[key] = value]; [replay] does them, in order. [play r] is the
    outcome [r] of a call, seen from a namespace named [nsname] whose table
    is [types] before the call. *)

Definition log : Type := list (string * TypeDef).

Definition replay (regs : log) (types : Dict.t TypeDef) : Dict.t TypeDef :=
  fold_left (fun d kv => Dict.set (fst kv) (snd kv) d) regs types.

Definition play {A} (r : result (A * log)) (nsname : string)
  (types : Dict.t TypeDef) : result (A * Namespace.t) :=
  match r with
  | Return (v, regs) => Return (v, Namespace.make nsname (replay regs types))
  | Raise e => Raise e
  end.

(** A registration is well formed when the value is of a class that line
    113 registers, sits under its own name, and nests [Optional] at most
    once. *)
Definition good_registration (kv : string * TypeDef) : Prop :=
  registrable (snd kv) = true /\
  res_name (snd kv) = Return (fst kv) /\
  optional_depth (snd kv) <= 1.

(** What holds of every outcome of [create_types]: the type returned is not
    an [Optional] and nests [Optional] at most once; every registration is
    well formed; a [Reference] comes with no registration, any other type is
    the last registration of the call. *)
Definition good_outcome (r : result (TypeDef * log)) : Prop :=
  match r with
  | Return (t, regs) =>
      wrappers t = 0 /\ optional_depth t <= 1 /\
      Forall good_registration regs /\
      ((exists n p, t = Reference n p /\ regs = []) \/
       (exists regs0 k, regs = regs0 ++ [(k, t)]))
  | Raise _ => True
  end.

(** The call [c], made with a namespace named [nsname], has an outcome that
    does not depend on the type table it starts from. *)
Definition has_outcome (c : M TypeDef) (nsname : string) : Prop :=
  exists r, good_outcome r /\
            forall types, c (Namespace.make nsname types) = play r nsname types.

(** A table entry that nests [Optional] at most once. *)
Definition depth_ok (kv : string * TypeDef) : Prop :=
  optional_depth (snd kv) <= 1.

Definition good_fields (fields : Dict.t TypeDef) : Prop :=
  Forall (fun kv => optional_depth (snd kv) <= 1) fields.

Definition has_fields_outcome (c : M (Dict.t TypeDef)) (nsname : string)
  : Prop :=
  exists r : result (Dict.t TypeDef * log),
    match r with
    | Return (fields, regs) =>
        good_fields fields /\ Forall good_registration regs
    | Raise _ => True
    end /\
    forall types, c (Namespace.make nsname types) = play r nsname types.

(** ** Strings and names *)

(** No upper-case letter in the string. *)
Fixpoint no_upper (s : string) : bool :=
  match s with
  | EmptyString => true
  | String c rest => negb (Str.is_upper c) && no_upper rest
  end.

(** Lower-case letters only. *)
Fixpoint all_lower (s : string) : bool :=
  match s with
  | EmptyString => true
  | String c rest => Str.is_lower c && all_lower rest
  end.

(** Every character of the string passes the test. *)
Fixpoint every (p : ascii -> bool) (s : string) : bool :=
  match s with
  | EmptyString => true
  | String c rest => p c && every p rest
  end.

(** A string of ASCII characters: the strings on which [str.lower],
    [str.title] and the character classes of [re] are what the embedding
    makes of them. *)
Definition ascii_only (s : string) : bool :=
  every (fun c => (nat_of_ascii c <? 128)%nat) s.

(** A key that a call named [name] may assign in the type table: a key of
    [Primitive.map], or a name that starts with [name]. *)
Definition key_of_call (name k : string) : bool :=
  Dict.mem k Primitive_map || String.prefix name k.

(** A type that a call named [name] builds in the namespace named [nsname]:
    every [Object], [Array] and [EnumClass] in it has the path [nsname] and
    a name that starts with [name], every [Primitive] has a key of
    [Primitive.map] for name, and no [Optional] or [Array] holds an
    [Optional] directly. *)
Fixpoint owned (nsname name : string) (t : TypeDef) : bool :=
  match t with
  | Reference _ _ => true
  | Primitive s => Dict.mem s Primitive_map
  | Optional under => (wrappers under =? 0)%nat && owned nsname name under
  | Object n p fields =>
      String.prefix name n && String.eqb p nsname
      && forallb (fun kv => owned nsname name (snd kv)) fields
  | Array n p item =>
      String.prefix name n && String.eqb p nsname
      && (wrappers item =? 0)%nat && owned nsname name item
  | EnumClass n p _ => String.prefix name n && String.eqb p nsname
  end.

(** A registration that a call named [name] makes. *)
Definition owned_registration (nsname name : string) (kv : string * TypeDef)
  : Prop :=
  key_of_call name (fst kv) = true /\ owned nsname name (snd kv) = true
  /\ res_name (snd kv) = Return (fst kv) /\ registrable (snd kv) = true.

(** The call [c], named [name], has an outcome whose type and registrations
    are [owned]. *)
Definition has_owned_outcome (c : M TypeDef) (nsname name : string) : Prop :=
  exists r : result (TypeDef * log),
    match r with
    | Return (t, regs) =>
        wrappers t = 0 /\ owned nsname name t = true
        /\ Forall (owned_registration nsname name) regs
    | Raise _ => True
    end /\
    forall types, c (Namespace.make nsname types) = play r nsname types.

Definition has_owned_fields (c : M (Dict.t TypeDef)) (nsname name : string)
  : Prop :=
  exists r : result (Dict.t TypeDef * log),
    match r with
    | Return (fields, regs) =>
        Forall (fun kv => owned nsname name (snd kv) = true) fields
        /\ Forall (owned_registration nsname name) regs
    | Raise _ => True
    end /\
    forall types, c (Namespace.make nsname types) = play r nsname types.

(** What the class [Cpp] can render: see [owned]. *)
Definition is_Ok {A} (r : Cpp.outcome A) : bool :=
  match r with Cpp.Ok _ => true | Cpp.Error _ => false end.

(** ** Copies, and the types of the store

    What the properties of the builder over the store are stated with. *)

(** No key twice. *)
Fixpoint distinct (keys : list string) : bool :=
  match keys with
  | [] => true
  | k :: rest => negb (existsb (String.eqb k) rest) && distinct rest
  end.

(** A tree in which no mapping has a key twice, as the dicts of Python. *)
Fixpoint well_keyed (n : node) : bool :=
  match n with
  | NStr _ | NAtom _ => true
  | NList items => forallb well_keyed items
  | NMap entries =>
      distinct (Dict.keys entries)
      && forallb (fun kv => well_keyed (snd kv)) entries
  end.

(** The type that a type of the store stands for: what an [EnumClass] has
    for values is read from the store. *)
Section ReifyFields.

Variable reify_type : Heap.TypeDef -> option TypeDef.

Fixpoint reify_fields (fields : list (string * Heap.TypeDef))
  : option (list (string * TypeDef)) :=
  match fields with
  | [] => Some []
  | (k, t) :: fields' =>
      match reify_type t, reify_fields fields' with
      | Some t', Some fields'' => Some ((k, t') :: fields'')
      | _, _ => None
      end
  end.

End ReifyFields.

Fixpoint reify_type (depth : nat) (h : Heap.heap) (t : Heap.TypeDef)
  : option TypeDef :=
  match t with
  | Heap.Reference name path => Some (Reference name path)
  | Heap.Optional under => option_map Optional (reify_type depth h under)
  | Heap.Primitive name => Some (Primitive name)
  | Heap.Object name path fields =>
      option_map (Object name path)
                 (reify_fields (reify_type depth h) fields)
  | Heap.Array name path item =>
      option_map (Array name path) (reify_type depth h item)
  | Heap.EnumClass name path values =>
      option_map (EnumClass name path) (Heap.reify depth h values)
  end.

(** The type table that a type table of the store stands for. *)
Definition reify_table (depth : nat) (h : Heap.heap)
  (types : Dict.t Heap.TypeDef) : option (Dict.t TypeDef) :=
  reify_fields (reify_type depth h) types.

(** The copy of a value, given the copies of the objects: [memo] maps an
    object to its copy. *)
Definition rename (m : Heap.memo) (v : Heap.value) : Heap.value :=
  match v with
  | Heap.VRef l =>
      match Heap.memo_get l m with
      | Some y => Heap.VRef y
      | None => v
      end
  | _ => v
  end.

Definition covered (m : Heap.memo) (v : Heap.value) : bool :=
  match v with
  | Heap.VRef l =>
      match Heap.memo_get l m with Some _ => true | None => false end
  | _ => true
  end.

Definition rename_object (m : Heap.memo) (o : Heap.object) : Heap.object :=
  match o with
  | Heap.OList items => Heap.OList (map (rename m) items)
  | Heap.ODict entries =>
      Heap.ODict (map (fun kv => (fst kv, rename m (snd kv))) entries)
  end.

Definition covered_object (m : Heap.memo) (o : Heap.object) : bool :=
  match o with
  | Heap.OList items => forallb (covered m) items
  | Heap.ODict entries => forallb (fun kv => covered m (snd kv)) entries
  end.

(** The object at [y] is the finished copy of the object that the store
    [h0] has at [l]. *)
Definition copied (h0 : Heap.heap) (m : Heap.memo) (h : Heap.heap)
  (l y : Heap.loc) : Prop :=
  exists o,
    Heap.read h0 l = Some o
    /\ covered_object m o = true
    /\ Heap.read h y = Some (rename_object m o).

(** The state of a deep copy of objects of [h0]: the copies are objects
    that [h0] does not have, and all are finished but those of [busy]. *)
Definition copying (h0 : Heap.heap) (busy : list Heap.loc) (m : Heap.memo)
  (h : Heap.heap) : Prop :=
  Heap.extends h0 h
  /\ forall l y,
      Heap.memo_get l m = Some y ->
      length h0 <= y < length h /\ (~ In y busy -> copied h0 m h l y).

(** Induction on the types of the store. *)
Section HeapTypeDefInd.

Variable P : Heap.TypeDef -> Prop.
Hypothesis HReference : forall n p, P (Heap.Reference n p).
Hypothesis HOptional : forall under, P under -> P (Heap.Optional under).
Hypothesis HPrimitive : forall s, P (Heap.Primitive s).
Hypothesis HObject :
  forall n p fields,
    Forall (fun kv => P (snd kv)) fields -> P (Heap.Object n p fields).
Hypothesis HArray : forall n p item, P item -> P (Heap.Array n p item).
Hypothesis HEnumClass : forall n p values, P (Heap.EnumClass n p values).

Fixpoint HeapTypeDef_rect' (t : Heap.TypeDef) : P t :=
  match t with
  | Heap.Reference n p => HReference n p
  | Heap.Optional under => HOptional (HeapTypeDef_rect' under)
  | Heap.Primitive s => HPrimitive s
  | Heap.Object n p fields =>
      HObject n p
        ((fix all (l : list (string * Heap.TypeDef))
            : Forall (fun kv => P (snd kv)) l :=
            match l with
            | [] => Forall_nil _
            | kv :: l' => Forall_cons kv (HeapTypeDef_rect' (snd kv)) (all l')
            end) fields)
  | Heap.Array n p item => HArray n p (HeapTypeDef_rect' item)
  | Heap.EnumClass n p values => HEnumClass n p values
  end.

End HeapTypeDefInd.

(** The outcome of a computation of the builder over the store, against
    that of the same computation of the builder over trees: both return,
    values that correspond ([R]) and type tables that stand for the same
    table, or both raise the same exception. *)
Definition agree {A' A} (D : nat) (nsname : string)
  (R : Heap.heap -> A' -> A -> Prop)
  (o' : Heap.outcome A' * Heap.state) (o : result (A * Namespace.t)) : Prop :=
  match o', o with
  | (Heap.Done v', st'), Return (v, ns') =>
      R (Heap.heap_of st') v' v
      /\ Namespace.name ns' = nsname
      /\ reify_table D (Heap.heap_of st') (Heap.types_of st')
         = Some (Namespace.types ns')
  | (Heap.Raised e', _), Raise e => e' = e
  | _, _ => False
  end.

(** ** Induction on nodes *)

Section NodeInd.

Variable P : node -> Prop.
Hypothesis HStr : forall s, P (NStr s).
Hypothesis HAtom : forall a, P (NAtom a).
Hypothesis HList : forall items, Forall P items -> P (NList items).
Hypothesis HMap :
  forall entries, Forall (fun kv => P (snd kv)) entries -> P (NMap entries).

Fixpoint node_rect' (n : node) : P n :=
  match n with
  | NStr s => HStr s
  | NAtom a => HAtom a
  | NList items =>
      HList ((fix all (l : list node) : Forall P l :=
                match l with
                | [] => Forall_nil _
                | x :: l' => Forall_cons x (node_rect' x) (all l')
                end) items)
  | NMap entries =>
      HMap ((fix all (l : list (string * node))
               : Forall (fun kv => P (snd kv)) l :=
               match l with
               | [] => Forall_nil _
               | kv :: l' =>
                   Forall_cons kv (node_rect' (snd kv)) (all l')
               end) entries)
  end.

End NodeInd.

(** ** Induction on types *)

Section TypeDefInd.

Variable P : TypeDef -> Prop.
Hypothesis HReference : forall n p, P (Reference n p).
Hypothesis HOptional : forall under, P under -> P (Optional under).
Hypothesis HPrimitive : forall s, P (Primitive s).
Hypothesis HObject :
  forall n p fields, Forall (fun kv => P (snd kv)) fields -> P (Object n p fields).
Hypothesis HArray : forall n p item, P item -> P (Array n p item).
Hypothesis HEnumClass : forall n p values, P (EnumClass n p values).

Fixpoint TypeDef_rect' (t : TypeDef) : P t :=
  match t with
  | Reference n p => HReference n p
  | Optional under => HOptional (TypeDef_rect' under)
  | Primitive s => HPrimitive s
  | Object n p fields =>
      HObject n p
        ((fix all (l : list (string * TypeDef))
            : Forall (fun kv => P (snd kv)) l :=
            match l with
            | [] => Forall_nil _
            | kv :: l' => Forall_cons kv (TypeDef_rect' (snd kv)) (all l')
            end) fields)
  | Array n p item => HArray n p (TypeDef_rect' item)
  | EnumClass n p values => HEnumClass n p values
  end.

End TypeDefInd.

(** * Properties *)

(** ** The equations of [create_types] *)

Lemma subscript_structure_eq (name : string) (desc : node)
  (entries : list (string * node)) :
  (fix subscript_structure (items : list (string * node)) : M TypeDef :=
     match items with
     | [] => lines_94_114 create_types name desc
     | (k, inner) :: items' =>
         if String.eqb "structure" k
         then lines_94_114 create_types name inner
         else subscript_structure items'
     end) entries
  = match Dict.get "structure" entries with
    | Some inner => lines_94_114 create_types name inner
    | None => lines_94_114 create_types name desc
    end.
Proof.
  induction entries as [|[k inner] items' IH]; [reflexivity|].
  cbn [Dict.get]. destruct (String.eqb "structure" k); [reflexivity|exact IH].
Qed.

(** Lines 88 to 93 for a dict: [enum] first, then [structure]. *)
Lemma create_types_NMap (name : string) (entries : list (string * node)) :
  create_types name (NMap entries) =
  match Dict.get "enum" entries with
  | Some values => lines_88_91 name values
  | None =>
      match Dict.get "structure" entries with
      | Some inner => lines_94_114 create_types name inner
      | None => lines_94_114 create_types name (NMap entries)
      end
  end.
Proof.
  cbn [create_types]. destruct (Dict.get "enum" entries); [reflexivity|].
  apply subscript_structure_eq.
Qed.

Lemma create_types_NStr (name s : string) :
  create_types name (NStr s) =
  if Str.contains "enum" s then raise TypeError
  else if Str.contains "structure" s then raise TypeError
  else lines_94_114 create_types name (NStr s).
Proof. reflexivity. Qed.

Lemma create_types_NList (name : string) (items : list node) :
  create_types name (NList items) =
  if existsb (is_str "enum") items then raise TypeError
  else if existsb (is_str "structure") items then raise TypeError
  else lines_94_114 create_types name (NList items).
Proof. reflexivity. Qed.

Lemma create_types_NAtom (name : string) (a : atom) :
  create_types name (NAtom a) = raise TypeError.
Proof. reflexivity. Qed.

(** ** The builder on the schemas of the specification *)

Example camel_case_examples :
  _camel_case "label" = "Label"
  /\ _camel_case "foo_bar_bazQux1x" = "FooBarBazqux1X"
  /\ _camel_case "a__b" = "AB"
  /\ _camel_case "" = "".
Proof. repeat split. Qed.

(** [Color = {enum: [red, green, blue]}]: the values are those of the
    document, in its order. *)
Example enum_scenario :
  create_types "Color"
    (NMap [("enum", NList [NStr "red"; NStr "green"; NStr "blue"])])
    (Namespace.make "geo" [])
  = Return
      (EnumClass "Color" "geo" (NList [NStr "red"; NStr "green"; NStr "blue"]),
       Namespace.make "geo"
         [("Color",
           EnumClass "Color" "geo"
             (NList [NStr "red"; NStr "green"; NStr "blue"]))]).
Proof. reflexivity. Qed.

(** [Path], a list of inline objects: the item is the [Object] [PathItem],
    registered in the namespace of [Path], before [Path]. *)
Example nested_synthesis_scenario :
  create_types "Path" (NList [NMap [("x", NStr "float"); ("y", NStr "float")]])
    (Namespace.make "geo" [])
  = Return
      (Array "Path" "geo"
         (Object "PathItem" "geo"
            [("x", Primitive "float"); ("y", Primitive "float")]),
       Namespace.make "geo"
         [("float", Primitive "float");
          ("PathItem",
           Object "PathItem" "geo"
             [("x", Primitive "float"); ("y", Primitive "float")]);
          ("Path",
           Array "Path" "geo"
             (Object "PathItem" "geo"
                [("x", Primitive "float"); ("y", Primitive "float")]))]).
Proof. reflexivity. Qed.

(** The type [A = [{x: int}]] and the type [AItem = {y: str}] of one
    document: the second [AItem] takes the place of the first in the table,
    which [A] still has as its item. *)
Example collision_scenario :
  create_types_None
    {| doc_namespace := "geo";
       doc_types := [("A", NList [NMap [("x", NStr "int")]]);
                     ("AItem", NMap [("y", NStr "str")])] |}
  = Return
      (Namespace.make "geo"
         [("int", Primitive "int");
          ("AItem", Object "AItem" "geo" [("y", Primitive "str")]);
          ("A", Array "A" "geo"
                  (Object "AItem" "geo" [("x", Primitive "int")]));
          ("str", Primitive "str")]).
Proof. reflexivity. Qed.

(** Over the store: [desc] is the dict [{x: float}] at location 0; the
    call copies it to location 1 and builds from the copy. *)
Example store_scenario :
  Heap.create_types 3 "geo" "Point" (Heap.VRef 0)
    {| Heap.heap_of := [Heap.ODict [("x", Heap.VStr "float")]];
       Heap.types_of := [] |}
  = (Heap.Done (Heap.Object "Point" "geo" [("x", Heap.Primitive "float")]),
     {| Heap.heap_of := [Heap.ODict [("x", Heap.VStr "float")];
                         Heap.ODict [("x", Heap.VStr "float")]];
        Heap.types_of :=
          [("float", Heap.Primitive "float");
           ("Point",
            Heap.Object "Point" "geo" [("x", Heap.Primitive "float")])] |}).
Proof. reflexivity. Qed.

(** ** Strings: [split], [join] and the separator *)

Module StrFacts.

#[local] Open Scope string_scope.

Lemma append_assoc (a b c : string) : (a ++ b) ++ c = a ++ b ++ c.
Proof. induction a as [|x a IH]; cbn; [reflexivity | now rewrite IH]. Qed.

Lemma append_nil_r (a : string) : a ++ "" = a.
Proof. induction a as [|x a IH]; cbn; [reflexivity | now rewrite IH]. Qed.

(** [sep in s] for a one-character [sep]: the first character is [sep], or
    [sep] is in the rest. *)
Lemma contains_char_cons (sep c : ascii) (s : string) :
  Str.contains (String sep "") (String c s) =
  Ascii.eqb c sep || Str.contains (String sep "") s.
Proof.
  cbn [Str.contains String.prefix].
  destruct (ascii_dec sep c) as [->|Hne].
  - rewrite Ascii.eqb_refl. now destruct s.
  - assert (Ascii.eqb c sep = false) as ->
        by (apply Ascii.eqb_neq; congruence).
    reflexivity.
Qed.

Lemma contains_char_nil (sep : ascii) :
  Str.contains (String sep "") "" = false.
Proof. reflexivity. Qed.

Lemma split_not_nil (sep : ascii) (s : string) : Str.split sep s <> [].
Proof.
  destruct s as [|c s]; cbn; [discriminate|].
  destruct (Ascii.eqb c sep); [discriminate|].
  destruct (Str.split sep s); discriminate.
Qed.

(** Joining the pieces with the separator gives the string back. *)
Lemma join_split (sep : ascii) (s : string) :
  Str.join (String sep "") (Str.split sep s) = s.
Proof.
  induction s as [|c s IH]; [reflexivity|].
  cbn [Str.split]. destruct (Ascii.eqb_spec c sep) as [->|Hne].
  - pose proof (split_not_nil sep s) as Hnil.
    destruct (Str.split sep s) as [|p ps] eqn:E; [congruence|].
    cbn [Str.join]. cbn. now rewrite <- IH.
  - pose proof (split_not_nil sep s) as Hnil.
    destruct (Str.split sep s) as [|p ps] eqn:E; [congruence|].
    rewrite <- IH. destruct ps; reflexivity.
Qed.

(** No piece has the separator in it. *)
Lemma split_pieces (sep : ascii) (s : string) :
  Forall (fun piece => Str.contains (String sep "") piece = false)
         (Str.split sep s).
Proof.
  induction s as [|c s IH]; cbn [Str.split].
  - constructor; [reflexivity | constructor].
  - destruct (Ascii.eqb_spec c sep) as [->|Hne].
    + constructor; [reflexivity | exact IH].
    + pose proof (split_not_nil sep s) as Hnil.
      destruct (Str.split sep s) as [|p ps]; [congruence|].
      inversion IH as [|? ? Hp Hps]; subst.
      constructor; [|exact Hps].
      rewrite contains_char_cons, Hp.
      apply Ascii.eqb_neq in Hne. now rewrite Hne.
Qed.

(** A string without the separator is one piece; a string with it is at
    least two. *)
Lemma split_without (sep : ascii) (s : string) :
  Str.contains (String sep "") s = false -> Str.split sep s = [s].
Proof.
  induction s as [|c s IH]; [reflexivity|].
  rewrite contains_char_cons. intros H.
  apply orb_false_iff in H as [Hc Hs].
  cbn [Str.split]. rewrite Hc, (IH Hs). reflexivity.
Qed.

Lemma split_with (sep : ascii) (s : string) :
  Str.contains (String sep "") s = true ->
  exists p q ps, Str.split sep s = p :: q :: ps.
Proof.
  induction s as [|c s IH]; [discriminate|].
  rewrite contains_char_cons. cbn [Str.split].
  pose proof (split_not_nil sep s) as Hnil.
  destruct (Ascii.eqb c sep) eqn:Hc; cbn [orb]; intros H.
  - destruct (Str.split sep s) as [|q ps]; [congruence|]. eauto.
  - destruct (IH H) as (p & q & ps & ->). eauto.
Qed.

Lemma join_snoc (sep : string) (pieces : list string) (x : string) :
  pieces <> [] ->
  Str.join sep (pieces ++ [x])%list = Str.join sep pieces ++ sep ++ x.
Proof.
  induction pieces as [|p ps IH]; [congruence|]. intros _.
  destruct ps as [|q ps]; [reflexivity|].
  change (Str.join sep ((p :: q :: ps) ++ [x])%list)
    with (p ++ sep ++ Str.join sep ((q :: ps) ++ [x])%list).
  rewrite IH by discriminate.
  change (Str.join sep (p :: q :: ps))
    with (p ++ sep ++ Str.join sep (q :: ps)).
  now rewrite !append_assoc.
Qed.

(** What lines 75 and 76 return for a dotted path: the path is the second
    component, a dot, and the first component, which has no dot. *)
Lemma split_last (sep : ascii) (s : string) :
  Str.contains (String sep "") s = true ->
  let pieces := Str.split sep s in
  s = Str.join (String sep "") (removelast pieces)
        ++ String sep "" ++ last pieces ""
  /\ Str.contains (String sep "") (last pieces "") = false.
Proof.
  intros H pieces. split.
  - destruct (split_with sep s H) as (p & q & ps & E).
    rewrite <- (join_split sep s) at 1. fold pieces.
    assert (Hne : pieces <> []) by apply split_not_nil.
    rewrite (app_removelast_last "" Hne) at 1.
    apply join_snoc. unfold pieces. rewrite E. cbn. discriminate.
  - pose proof (split_pieces sep s) as Hall. fold pieces in Hall.
    assert (Hne : pieces <> []) by apply split_not_nil.
    rewrite Forall_forall in Hall. apply Hall.
    rewrite (app_removelast_last "" Hne) at 2.
    apply in_or_app. right. now left.
Qed.

End StrFacts.

(** ** The reference resolver *)

(** C6. [_resolve_refpath] is a function of the name of the current
    namespace and of the path only (the type table plays no part). A path
    without a dot comes back whole, with the current namespace's name as
    owner. A path with a dot is split at its last dot: the first component
    returned has no dot in it, and the second one, a dot and the first one
    make up the path again. So [resolve("pkg.a", "T") = ("T", "pkg.a")] and
    [resolve("pkg.a", "pkg.b.T") = ("T", "pkg.b")]. *)
Theorem resolve_refpath_spec :
  forall (namespace : Namespace.t) (path : string),
    _resolve_refpath namespace path =
    _resolve_refpath (Namespace.make (Namespace.name namespace) []) path
    /\ ((Str.contains "." path = false /\
         _resolve_refpath namespace path = (path, Namespace.name namespace))
        \/
        (Str.contains "." path = true /\
         exists local owner : string,
           _resolve_refpath namespace path = (local, owner) /\
           path = (owner ++ "." ++ local)%string /\
           Str.contains "." local = false))
    /\ (forall types,
          _resolve_refpath (Namespace.make "pkg.a" types) "T"
          = ("T", "pkg.a"))
    /\ (forall types,
          _resolve_refpath (Namespace.make "pkg.a" types) "pkg.b.T"
          = ("T", "pkg.b")).
Proof.
  intros namespace path. split; [reflexivity|]. split.
  - unfold _resolve_refpath.
    destruct (Str.contains "." path) eqn:Hdot.
    + right. split; [reflexivity|].
      destruct (StrFacts.split_last "." path Hdot) as [Hjoin Hlast].
      eexists _, _. split; [reflexivity|]. split; assumption.
    + left. split; reflexivity.
  - split; intros types; reflexivity.
Qed.

(** ** Dicts *)

Module DictFacts.

Lemma get_set_same {V} (k : string) (v : V) (d : Dict.t V) :
  Dict.get k (Dict.set k v d) = Some v.
Proof.
  induction d as [|[k' v'] d IH]; cbn.
  - now rewrite String.eqb_refl.
  - destruct (String.eqb k k') eqn:E; cbn; now rewrite E.
Qed.

Lemma get_set_other {V} (k k' : string) (v : V) (d : Dict.t V) :
  k <> k' -> Dict.get k' (Dict.set k v d) = Dict.get k' d.
Proof.
  intros Hne. induction d as [|[k0 v0] d IH]; cbn.
  - assert (String.eqb k' k = false) as ->
        by (apply String.eqb_neq; congruence).
    reflexivity.
  - destruct (String.eqb_spec k k0) as [->|Hk]; cbn.
    + assert (String.eqb k' k0 = false) as ->
          by (apply String.eqb_neq; congruence).
      reflexivity.
    + destruct (String.eqb k' k0); [reflexivity | exact IH].
Qed.

(** An assignment changes no key and adds at most the one assigned. *)
Lemma in_set {V} (k : string) (v : V) (d : Dict.t V) (x : string * V) :
  In x (Dict.set k v d) -> x = (k, v) \/ In x d.
Proof.
  induction d as [|[k' v'] d IH]; cbn.
  - intros [<-|[]]. now left.
  - destruct (String.eqb_spec k k') as [->|Hk]; cbn.
    + intros [<-|H]; [now left | right; now right].
    + intros [<-|H]; [right; now left|].
      destruct (IH H) as [->|H']; [now left | right; now right].
Qed.

Lemma Forall_set {V} (P : string * V -> Prop) (k : string) (v : V)
  (d : Dict.t V) :
  P (k, v) -> Forall P d -> Forall P (Dict.set k v d).
Proof.
  intros Hv Hd. apply Forall_forall. intros x Hx.
  destruct (in_set _ _ _ _ Hx) as [->|Hin]; [exact Hv|].
  rewrite Forall_forall in Hd. now apply Hd.
Qed.

(** The keys of a dict stay where they are under an assignment to a key
    that is there. *)
Lemma keys_set_present {V} (k : string) (v : V) (d : Dict.t V) :
  Dict.mem k d = true -> Dict.keys (Dict.set k v d) = Dict.keys d.
Proof.
  unfold Dict.mem, Dict.keys. induction d as [|[k' v'] d IH]; cbn.
  - discriminate.
  - destruct (String.eqb k k'); cbn; [reflexivity|].
    intros H. now rewrite IH.
Qed.

Lemma get_in {V} (k : string) (v : V) (d : Dict.t V) :
  Dict.get k d = Some v -> In (k, v) d.
Proof.
  induction d as [|[k' v'] d IH]; cbn; [discriminate|].
  destruct (String.eqb_spec k k') as [->|Hk].
  - intros [= ->]. now left.
  - intros H. right. now apply IH.
Qed.

Lemma replay_app (a b : log) (types : Dict.t TypeDef) :
  replay (a ++ b) types = replay b (replay a types).
Proof. unfold replay. apply fold_left_app. Qed.

(** The last registration of a call is what the table has under that key
    afterwards. *)
Lemma get_replay_last (regs : log) (k : string) (t : TypeDef)
  (types : Dict.t TypeDef) :
  Dict.get k (replay (regs ++ [(k, t)]) types) = Some t.
Proof. rewrite replay_app. cbn. apply get_set_same. Qed.

Lemma Forall_replay (P : string * TypeDef -> Prop) (regs : log)
  (types : Dict.t TypeDef) :
  Forall P regs -> Forall P types -> Forall P (replay regs types).
Proof.
  revert types. induction regs as [|[k v] regs IH]; intros types Hr Ht.
  - exact Ht.
  - inversion Hr; subst. cbn. apply IH; [assumption|].
    now apply Forall_set.
Qed.

End DictFacts.

(** ** The outcome of a call does not depend on the table it starts from *)

Ltac run_M :=
  unfold bind, ret, raise, lift, register, namespace_name, lines_88_91, play;
  cbn [res_name Namespace.name Namespace.types replay fold_left fst snd].

Lemma optional_depth_fields (name path : string) (fields : Dict.t TypeDef) :
  good_fields fields -> optional_depth (Object name path fields) <= 1.
Proof.
  intros H. cbn [optional_depth]. apply list_max_le.
  apply Forall_map. exact H.
Qed.

Lemma Optional_init_ok (u : TypeDef) :
  wrappers u = 0 -> Optional_init u = Return (Optional u).
Proof. destruct u; cbn; [reflexivity|discriminate|reflexivity..]. Qed.

Lemma optional_depth_Optional (u : TypeDef) :
  wrappers u = 0 -> optional_depth u <= 1 -> optional_depth (Optional u) <= 1.
Proof. intros Hw Hd. cbn [optional_depth]. rewrite Hw. lia. Qed.

Lemma enum_outcome (name : string) (values : node) (nsname : string) :
  has_outcome (lines_88_91 name values) nsname.
Proof.
  exists (Return (EnumClass name nsname values,
                  [(name, EnumClass name nsname values)])).
  split.
  - cbn. repeat split; try lia.
    + constructor; [|constructor]. repeat split. cbn. lia.
    + right. exists [], name. reflexivity.
  - intros types. reflexivity.
Qed.

Lemma raise_outcome (e : exn) (nsname : string) : has_outcome (raise e) nsname.
Proof. exists (Raise e). split; [exact I | reflexivity]. Qed.

Lemma get_Forall {V} (P : V -> Prop) (k : string) (v : V) (d : Dict.t V) :
  Forall (fun kv => P (snd kv)) d -> Dict.get k d = Some v -> P v.
Proof.
  intros Hall Hget. apply DictFacts.get_in in Hget.
  rewrite Forall_forall in Hall. exact (Hall _ Hget).
Qed.

Section Outcome.

Variable nsname : string.

Lemma for_items_outcome (items : list (string * node)) :
  Forall (fun kv => forall name, has_outcome (create_types name (snd kv)) nsname)
         items ->
  forall name fields,
    good_fields fields ->
    has_fields_outcome (for_items create_types name items fields) nsname.
Proof.
  induction items as [|[k v] items IH]; intros Hall name fields Hf.
  - exists (Return (fields, [])). split; [split; [exact Hf|constructor]|].
    reflexivity.
  - inversion Hall as [|? ? Hv Hitems]; subst. cbn [snd] in Hv.
    specialize (IH Hitems name). cbn [for_items].
    destruct (Str.last_char k) as [c|];
      [|exists (Raise IndexError); split; [exact I|reflexivity]].
    destruct (Ascii.eqb c "?").
    + destruct (Hv (name ++ _camel_case (Str.drop_last k))%string)
        as ([[u regs1]|e] & Hgood & Hrun).
      * destruct Hgood as (Hw & Hd & Hregs & _).
        destruct (IH (Dict.set (Str.drop_last k) (Optional u) fields))
          as ([[f regs2]|e2] & Hgood2 & Hrun2).
        { apply DictFacts.Forall_set; [|exact Hf].
          now apply optional_depth_Optional. }
        -- exists (Return (f, regs1 ++ regs2)); split.
           ++ destruct Hgood2; split; [assumption | now apply Forall_app].
           ++ intros types; unfold bind; rewrite Hrun; cbn.
              rewrite (Optional_init_ok _ Hw); cbn.
              rewrite Hrun2; cbn; now rewrite DictFacts.replay_app.
        -- exists (Raise e2); split; [exact I|].
           intros types; unfold bind; rewrite Hrun; cbn.
           rewrite (Optional_init_ok _ Hw); cbn.
           rewrite Hrun2; reflexivity.
      * exists (Raise e). split; [exact I|].
        intros types. unfold bind. now rewrite Hrun.
    + destruct (Hv (name ++ _camel_case k)%string)
        as ([[u regs1]|e] & Hgood & Hrun).
      * destruct Hgood as (Hw & Hd & Hregs & _).
        destruct (IH (Dict.set k u fields))
          as ([[f regs2]|e2] & Hgood2 & Hrun2).
        { apply DictFacts.Forall_set; [exact Hd | exact Hf]. }
        -- exists (Return (f, regs1 ++ regs2)); split.
           ++ destruct Hgood2; split; [assumption | now apply Forall_app].
           ++ intros types; unfold bind; rewrite Hrun; cbn.
              rewrite Hrun2; cbn; now rewrite DictFacts.replay_app.
        -- exists (Raise e2); split; [exact I|].
           intros types; unfold bind; rewrite Hrun; cbn.
           rewrite Hrun2; reflexivity.
      * exists (Raise e). split; [exact I|].
        intros types. unfold bind. now rewrite Hrun.
Qed.

(** Lines 94 to 114, when the recursive calls have an outcome. *)
Lemma lines_94_114_outcome (struct : node) :
  match struct with
  | NList items =>
      Forall (fun x => forall name, has_outcome (create_types name x) nsname)
             items
  | NMap entries =>
      Forall (fun kv => forall name,
                  has_outcome (create_types name (snd kv)) nsname) entries
  | _ => True
  end ->
  forall name, has_outcome (lines_94_114 create_types name struct) nsname.
Proof.
  destruct struct as [s|a|items|entries]; intros Hsub name;
    cbn [lines_94_114].
  - destruct (Dict.mem s Primitive_map); cbn [negb].
    + exists (Return (Primitive s, [(s, Primitive s)])). split.
      * cbn. repeat split; try lia.
        -- constructor; [|constructor]. repeat split. cbn. lia.
        -- right. exists [], s. reflexivity.
      * reflexivity.
    + exists (let '(n, p) := _resolve_refpath (Namespace.make nsname []) s in
              Return (Reference n p, [])).
      unfold _resolve_refpath. cbn [Namespace.name].
      destruct (Str.contains "." s); (split; [|reflexivity]).
      all: split; [reflexivity|]; split; [cbn; lia|]; split; [constructor|].
      all: left; eexists _, _; split; reflexivity.
  - apply raise_outcome.
  - destruct items as [|item [|item' items]]; try apply raise_outcome.
    inversion Hsub as [|? ? Hitem _]; subst.
    destruct (Hitem (name ++ "Item")%string)
      as ([[t regs]|e] & Hgood & Hrun).
    + destruct Hgood as (Hw & Hd & Hregs & _).
      exists (Return (Array name nsname t,
                      regs ++ [(name, Array name nsname t)])).
      split.
      * cbn. repeat split; try lia; try assumption.
        -- apply Forall_app. split; [assumption|].
           constructor; [|constructor]. repeat split. assumption.
        -- right. eexists _, _. reflexivity.
      * intros types. run_M. rewrite Hrun. cbn.
        now rewrite DictFacts.replay_app.
    + exists (Raise e). split; [exact I|].
      intros types. run_M. now rewrite Hrun.
  - destruct (for_items_outcome Hsub name (Forall_nil _))
      as ([[fields regs]|e] & Hgood & Hrun).
    + destruct Hgood as [Hf Hregs].
      exists (Return (Object name nsname fields,
                      regs ++ [(name, Object name nsname fields)])).
      split.
      * split; [reflexivity|]. split; [now apply optional_depth_fields|].
        split.
        -- apply Forall_app. split; [assumption|].
           constructor; [|constructor]. repeat split.
           now apply optional_depth_fields.
        -- right. eexists _, _. reflexivity.
      * intros types. run_M. rewrite Hrun. cbn.
        now rewrite DictFacts.replay_app.
    + exists (Raise e). split; [exact I|].
      intros types. run_M. now rewrite Hrun.
Qed.

(** Every call of [create_types] has an outcome, and so has the rest of
    the body for every [struct]. *)
Lemma create_types_outcome (desc : node) :
  (forall name, has_outcome (create_types name desc) nsname) /\
  (forall name, has_outcome (lines_94_114 create_types name desc) nsname).
Proof.
  induction desc as [s|a|items IH|entries IH] using node_rect'.
  - assert (Hrest := lines_94_114_outcome (NStr s) I).
    split; [|exact Hrest]. intros name. rewrite create_types_NStr.
    destruct (Str.contains "enum" s); [apply raise_outcome|].
    destruct (Str.contains "structure" s); [apply raise_outcome|].
    apply Hrest.
  - split; intros name; apply raise_outcome.
  - assert (Hrest : forall name,
               has_outcome (lines_94_114 create_types name (NList items))
                           nsname).
    { apply lines_94_114_outcome. eapply Forall_impl; [|exact IH].
      intros x [Hx _]. exact Hx. }
    split; [|exact Hrest]. intros name. rewrite create_types_NList.
    destruct (existsb _ items); [apply raise_outcome|].
    destruct (existsb _ items); [apply raise_outcome|].
    apply Hrest.
  - assert (Hrest : forall name,
               has_outcome (lines_94_114 create_types name (NMap entries))
                           nsname).
    { apply lines_94_114_outcome. eapply Forall_impl; [|exact IH].
      intros x [Hx _]. exact Hx. }
    split; [|exact Hrest]. intros name. rewrite create_types_NMap.
    destruct (Dict.get "enum" entries); [apply enum_outcome|].
    destruct (Dict.get "structure" entries) as [inner|] eqn:Hget;
      [|apply Hrest].
    apply (@get_Forall _
             (fun v => (forall name, has_outcome (create_types name v) nsname)
                       /\ forall name,
                           has_outcome (lines_94_114 create_types name v)
                                       nsname) _ _ _ IH Hget).
Qed.

End Outcome.

(** What a call that returns has done, read off its outcome. *)
Lemma create_types_returns (name : string) (desc : node) (ns ns' : Namespace.t)
  (t : TypeDef) :
  create_types name desc ns = Return (t, ns') ->
  exists regs,
    good_outcome (Return (t, regs)) /\
    ns' = Namespace.make (Namespace.name ns) (replay regs (Namespace.types ns))
    /\ forall types,
        create_types name desc (Namespace.make (Namespace.name ns) types)
        = Return (t, Namespace.make (Namespace.name ns) (replay regs types)).
Proof.
  destruct ns as [nsname types0]. cbn [Namespace.name Namespace.types].
  destruct (create_types_outcome nsname desc) as [H _].
  destruct (H name) as ([[t1 regs]|e] & Hgood & Hrun); rewrite Hrun; cbn.
  - intros [= <- <-]. exists regs. split; [exact Hgood|].
    split; [reflexivity|]. intros types. now rewrite Hrun.
  - discriminate.
Qed.

(** A call that raises does so whatever the table has. *)
Lemma create_types_raises (name : string) (desc : node) (ns : Namespace.t)
  (e : exn) :
  create_types name desc ns = Raise e ->
  forall types,
    create_types name desc (Namespace.make (Namespace.name ns) types) = Raise e.
Proof.
  destruct ns as [nsname types0]. cbn [Namespace.name Namespace.types].
  destruct (create_types_outcome nsname desc) as [H _].
  destruct (H name) as ([[t1 regs]|e1] & Hgood & Hrun); rewrite Hrun; cbn.
  - discriminate.
  - intros [= <-] types. now rewrite Hrun.
Qed.

Lemma good_registration_depth (regs : log) :
  Forall good_registration regs -> Forall depth_ok regs.
Proof. apply Forall_impl. intros kv (_ & _ & H). exact H. Qed.

Lemma for_types_depth (items : list (string * node)) (ns ns' : Namespace.t)
  (u : unit) :
  for_types items ns = Return (u, ns') ->
  Forall depth_ok (Namespace.types ns) ->
  Forall depth_ok (Namespace.types ns').
Proof.
  revert ns. induction items as [|[k v] items IH]; intros ns; cbn [for_types].
  - intros [= _ <-]. trivial.
  - unfold bind. destruct (create_types k v ns) as [[t ns1]|e] eqn:Hrun;
      [|discriminate].
    intros Hrest Hns. apply (IH ns1 Hrest).
    destruct (create_types_returns _ _ _ Hrun) as (regs & Hgood & -> & _).
    cbn [Namespace.types]. destruct Hgood as (_ & _ & Hregs & _).
    apply DictFacts.Forall_replay; [|exact Hns].
    now apply good_registration_depth.
Qed.

(** A table after some registrations has what it had, and what was
    registered. *)
Lemma in_replay (P : string * TypeDef -> Prop) (regs : log)
  (types : Dict.t TypeDef) (kv : string * TypeDef) :
  Forall P regs -> In kv (replay regs types) -> In kv types \/ P kv.
Proof.
  revert types. induction regs as [|[k v] regs IH]; intros types Hregs Hin.
  - now left.
  - inversion Hregs as [|? ? Hkv Hregs']; subst. cbn in Hin.
    destruct (IH _ Hregs' Hin) as [Hin'|Hok]; [|now right].
    destruct (DictFacts.in_set _ _ _ _ Hin') as [->|Hold];
      [right; exact Hkv | now left].
Qed.

(** ** Optional *)

(** C4. Constructing [Optional(t)] for a [t] that is itself an [Optional]
    raises the assertion error: the result is neither [t] (flattened) nor a
    doubly wrapped type. Every type that [create_types] returns nests
    [Optional] at most once, and so does every type that a call adds to the
    type table; the type table of a whole document has only such types. *)
Theorem optional_never_nested :
  (forall t : TypeDef, Optional_init (Optional t) = Raise AssertionError)
  /\ (forall t t' : TypeDef,
        Optional_init t = Return t' -> t' = Optional t /\ wrappers t = 0)
  /\ (forall name desc ns t ns',
        create_types name desc ns = Return (t, ns') ->
        optional_depth t <= 1 /\
        forall kv, In kv (Namespace.types ns') ->
                   In kv (Namespace.types ns) \/ optional_depth (snd kv) <= 1)
  /\ (forall desc ns,
        create_types_None desc = Return ns ->
        Forall (fun kv => optional_depth (snd kv) <= 1) (Namespace.types ns)).
Proof.
  split; [reflexivity|]. split.
  { intros t t'. destruct t; cbn; try discriminate; intros [= <-]; now split. }
  split.
  - intros name desc ns t ns' Hrun.
    destruct (create_types_returns _ _ _ Hrun)
      as (regs & (_ & Hd & Hregs & _) & -> & _).
    split; [exact Hd|]. cbn [Namespace.types]. intros kv Hin.
    apply good_registration_depth in Hregs.
    exact (in_replay _ _ Hregs Hin).
  - intros desc ns. unfold create_types_None.
    destruct (for_types _ _) as [[u ns1]|e] eqn:Hrun; [|discriminate].
    intros [= <-]. apply (for_types_depth _ _ Hrun). constructor.
Qed.

(** The builder on the mapping [{x: float, y: float, label?: str}], named
    [Point], in the namespace [geo]. *)
Lemma optional_never_nested_witness :
  optional_depth
    (Object "Point" "geo"
       [("x", Primitive "float"); ("y", Primitive "float");
        ("label", Optional (Primitive "str"))]) <= 1.
Proof.
  refine (proj1 (proj1 (proj2 (proj2 optional_never_nested))
                   "Point"
                   (NMap [("x", NStr "float"); ("y", NStr "float");
                          ("label?", NStr "str")])
                   (Namespace.make "geo" []) _
                   (Namespace.make "geo"
                      [("float", Primitive "float"); ("str", Primitive "str");
                       ("Point",
                        Object "Point" "geo"
                          [("x", Primitive "float"); ("y", Primitive "float");
                           ("label", Optional (Primitive "str"))])]) _)).
  reflexivity.
Defined.

(** ** Bare strings *)

Lemma Primitive_map_keys (s : string) :
  Dict.mem s Primitive_map = true <->
  In s ["str"; "bool"; "int"; "float"].
Proof.
  unfold Dict.mem, Primitive_map. cbn [Dict.get In]. split.
  - repeat match goal with
           | |- context [String.eqb s ?k] =>
               destruct (String.eqb_spec s k); [subst; intuition|]
           end.
    discriminate.
  - intros [<-|[<-|[<-|[<-|[]]]]]; reflexivity.
Qed.

(** In the namespace [geo], with an empty type table, the field [x: float]
    of [Point] leaves the table with an entry for [float]: a primitive is
    registered. *)
Lemma primitive_is_registered :
  exists namespace' : Namespace.t,
    create_types "PointX" (NStr "float") (Namespace.make "geo" [])
    = Return (Primitive "float", namespace')
    /\ Namespace.types namespace' = [("float", Primitive "float")]
    /\ Namespace.types namespace' <> Namespace.types (Namespace.make "geo" []).
Proof.
  exists (Namespace.make "geo" [("float", Primitive "float")]).
  split; [reflexivity|]. split; [reflexivity|]. discriminate.
Qed.

(** C1, amended. A bare string that is one of the four keys of
    [Primitive.map] gives a [Primitive], and the call registers it in the
    type table under that keyword. A bare string that is not one of them, and
    has neither [enum] nor [structure] in it, gives the [Reference] that
    [_resolve_refpath] computes, and the call leaves the namespace as it
    was. No call puts a [Reference] (or an [Optional]) in a type table: what
    a call registers is a [Primitive], an [Object], an [Array] or an
    [EnumClass]. *)
Theorem bare_string_build :
  (forall name s namespace,
      In s ["str"; "bool"; "int"; "float"] ->
      create_types name (NStr s) namespace
      = Return (Primitive s,
                Namespace.make (Namespace.name namespace)
                  (Dict.set s (Primitive s) (Namespace.types namespace))))
  /\ (forall name s namespace,
        ~ In s ["str"; "bool"; "int"; "float"] ->
        Str.contains "enum" s = false ->
        Str.contains "structure" s = false ->
        create_types name (NStr s) namespace
        = Return (Reference (fst (_resolve_refpath namespace s))
                            (snd (_resolve_refpath namespace s)),
                  namespace))
  /\ (forall name desc namespace t namespace',
        create_types name desc namespace = Return (t, namespace') ->
        forall kv, In kv (Namespace.types namespace') ->
                   In kv (Namespace.types namespace)
                   \/ registrable (snd kv) = true).
Proof.
  split; [|split].
  - intros name s namespace Hs. rewrite create_types_NStr.
    assert (Hmem : Dict.mem s Primitive_map = true)
      by now apply Primitive_map_keys.
    assert (Str.contains "enum" s = false /\
            Str.contains "structure" s = false) as [-> ->]
        by (destruct Hs as [<-|[<-|[<-|[<-|[]]]]]; split; reflexivity).
    cbn [lines_94_114]. rewrite Hmem. reflexivity.
  - intros name s namespace Hs He Hst.
    rewrite create_types_NStr, He, Hst. cbn [lines_94_114].
    destruct (Dict.mem s Primitive_map) eqn:Hmem.
    + apply Primitive_map_keys in Hmem. contradiction.
    + cbn [negb]. now destruct (_resolve_refpath namespace s).
  - intros name desc ns t ns' Hrun kv Hin.
    destruct (create_types_returns _ _ _ Hrun)
      as (regs & (_ & _ & Hregs & _) & -> & _).
    cbn [Namespace.types] in Hin.
    apply (@in_replay (fun kv => registrable (snd kv) = true)) in Hin;
      [exact Hin|].
    eapply Forall_impl; [|exact Hregs]. now intros ? (H & _).
Qed.

Lemma bare_string_build_witness :
  create_types "PointX" (NStr "float") (Namespace.make "geo" [])
  = Return (Primitive "float",
            Namespace.make "geo" [("float", Primitive "float")])
  /\ create_types "PointOwner" (NStr "pkg.b.T") (Namespace.make "geo" [])
     = Return (Reference "T" "pkg.b", Namespace.make "geo" [])
  /\ registrable (Array "Path" "geo" (Reference "Point" "geo")) = true.
Proof.
  split; [|split].
  - apply (proj1 bare_string_build "PointX" "float" (Namespace.make "geo" [])).
    cbn. tauto.
  - apply (proj1 (proj2 bare_string_build) "PointOwner" "pkg.b.T"
             (Namespace.make "geo" [])).
    + cbn. intros [H|[H|[H|[H|[]]]]]; discriminate H.
    + reflexivity.
    + reflexivity.
  - destruct (proj2 (proj2 bare_string_build) "Path" (NList [NStr "Point"])
                (Namespace.make "geo" [])
                (Array "Path" "geo" (Reference "Point" "geo"))
                (Namespace.make "geo"
                   [("Path", Array "Path" "geo" (Reference "Point" "geo"))])
                eq_refl
                ("Path", Array "Path" "geo" (Reference "Point" "geo")))
      as [[]|H].
    + now left.
    + exact H.
Defined.

(** ** The [structure] wrapper *)

Lemma lines_94_114_shape (name : string) (struct : node)
  (ns ns' : Namespace.t) (t : TypeDef) :
  lines_94_114 create_types name struct ns = Return (t, ns') ->
  shape_of struct name (Namespace.name ns) t.
Proof.
  destruct struct as [s|a|items|entries]; cbn [lines_94_114 shape_of].
  - destruct (Dict.mem s Primitive_map); cbn [negb].
    + run_M. intros [= <- _]. now left.
    + destruct (_resolve_refpath ns s) as [n p]. intros [= <- _].
      right. eauto.
  - discriminate.
  - destruct items as [|item [|item' items]]; try discriminate.
    run_M. destruct (create_types _ item ns) as [[it ns1]|e]; [|discriminate].
    intros [= <- _]. eauto.
  - run_M. destruct (for_items _ _ _ _ ns) as [[fields ns1]|e] eqn:Hloop;
      [|discriminate].
    intros [= <- _].
    assert (Namespace.name ns1 = Namespace.name ns) as ->; [|eauto].
    destruct ns as [nsname types].
    assert (Hsub : Forall (fun kv : string * node =>
                             forall name,
                               has_outcome (create_types name (snd kv)) nsname)
                          entries).
    { apply Forall_forall. intros kv _. apply create_types_outcome. }
    destruct (for_items_outcome Hsub name (Forall_nil _))
      as ([[f regs]|e] & _ & Hrun); rewrite Hrun in Hloop; cbn in Hloop;
      [|discriminate].
    now injection Hloop as _ <-.
Qed.

Lemma untested_create_types (name : string) (struct : node) :
  untested struct = true ->
  create_types name struct = lines_94_114 create_types name struct.
Proof.
  destruct struct as [s|a|items|entries]; cbn [untested]; try discriminate;
    intros H; apply andb_true_iff in H as [He Hs];
    apply negb_true_iff in He, Hs.
  - now rewrite create_types_NStr, He, Hs.
  - now rewrite create_types_NList, He, Hs.
  - rewrite create_types_NMap. unfold Dict.mem in He, Hs.
    destruct (Dict.get "enum" entries); [discriminate|].
    destruct (Dict.get "structure" entries); [discriminate|]. reflexivity.
Qed.

(** The wrapper [{structure: {enum: [red]}}], named [Color], gives an
    [Object] with a field [enum], where [{enum: [red]}] alone gives an
    [EnumClass]. *)
Lemma structure_enum_is_object :
  create_types "Color" (NMap [("structure", NMap [("enum", NList [NStr "red"])])])
               (Namespace.make "geo" [])
  = Return
      (Object "Color" "geo"
         [("enum", Array "ColorEnum" "geo" (Reference "red" "geo"))],
       Namespace.make "geo"
         [("ColorEnum", Array "ColorEnum" "geo" (Reference "red" "geo"));
          ("Color",
           Object "Color" "geo"
             [("enum", Array "ColorEnum" "geo" (Reference "red" "geo"))])])
  /\ is_EnumClass
       (Object "Color" "geo"
          [("enum", Array "ColorEnum" "geo" (Reference "red" "geo"))])
     = false
  /\ create_types "Color" (NMap [("enum", NList [NStr "red"])])
                  (Namespace.make "geo" [])
     = Return
         (EnumClass "Color" "geo" (NList [NStr "red"]),
          Namespace.make "geo"
            [("Color", EnumClass "Color" "geo" (NList [NStr "red"]))]).
Proof. repeat split. Qed.

(** C2, amended. A mapping with the key [structure], and without the key
    [enum], is replaced by what it has under [structure], once, and the
    build goes on at line 94 with the same name and the same namespace: the
    inner node is taken as a string, a mapping or a list, and the tests for
    [enum] and [structure] are not made on it. So the wrapper builds what the
    inner node alone builds whenever those two tests are false on the inner
    node; and the class of the result is that of lines 94 to 114: a
    [Primitive] or a [Reference] for a string, an [Object] for a mapping
    (whatever its keys), an [Array] for a list, never an [EnumClass]. *)
Theorem structure_unwrap :
  forall name entries inner namespace,
    Dict.get "enum" entries = None ->
    Dict.get "structure" entries = Some inner ->
    create_types name (NMap entries) namespace
    = lines_94_114 create_types name inner namespace
    /\ (untested inner = true ->
        create_types name (NMap entries) namespace
        = create_types name inner namespace)
    /\ (forall t namespace',
          create_types name (NMap entries) namespace = Return (t, namespace')
          -> shape_of inner name (Namespace.name namespace) t
             /\ is_EnumClass t = false).
Proof.
  intros name entries inner namespace He Hs.
  assert (Heq : create_types name (NMap entries) namespace
                = lines_94_114 create_types name inner namespace)
    by now rewrite create_types_NMap, He, Hs.
  split; [exact Heq|]. split.
  - intros Hu. now rewrite Heq, untested_create_types.
  - intros t ns' Hrun. rewrite Heq in Hrun.
    apply lines_94_114_shape in Hrun. split; [exact Hrun|].
    destruct inner; cbn [shape_of] in Hrun.
    + destruct Hrun as [->|(n & p & ->)]; reflexivity.
    + contradiction.
    + destruct Hrun as (? & ? & _ & ->). reflexivity.
    + destruct Hrun as (? & ->). reflexivity.
Qed.

Lemma structure_unwrap_witness :
  create_types "Point" (NMap [("structure", NMap [("x", NStr "float")])])
               (Namespace.make "geo" [])
  = create_types "Point" (NMap [("x", NStr "float")]) (Namespace.make "geo" []).
Proof.
  apply (proj1 (proj2 (structure_unwrap "Point"
                         [("structure", NMap [("x", NStr "float")])]
                         (Namespace.make "geo" []) eq_refl eq_refl))).
  reflexivity.
Defined.

(** ** Lists *)

Lemma is_str_true (s : string) (x : node) : is_str s x = true -> x = NStr s.
Proof.
  destruct x; cbn; try discriminate. intros H.
  apply String.eqb_eq in H. now subst.
Qed.

(** A list of exactly one element that is a list without element: the one
    element is there, and the build fails. *)
Lemma one_item_list_can_fail :
  length [NList []] = 1
  /\ create_types "Path" (NList [NList []]) (Namespace.make "geo" [])
     = Raise AssertionError.
Proof. split; reflexivity. Qed.

(** C5, amended. A list of no element, or of more than one, makes the
    build fail. For a list of exactly one element the build is that of the
    element under the name [name ++ "Item"]: if it fails, the build of the
    list fails with the same exception; if it returns a type, the build of
    the list returns the [Array] of that type, under [name] and the name of
    the namespace, registered under [name] in the type table that the build
    of the element left. *)
Theorem array_build :
  (forall name items namespace,
      length items <> 1 ->
      exists e, create_types name (NList items) namespace = Raise e)
  /\ (forall name item namespace,
        create_types name (NList [item]) namespace
        = match create_types (name ++ "Item") item namespace with
          | Return (item_type, namespace') =>
              let res := Array name (Namespace.name namespace) item_type in
              Return (res,
                      Namespace.make (Namespace.name namespace')
                        (Dict.set name res (Namespace.types namespace')))
          | Raise e => Raise e
          end).
Proof.
  split.
  - intros name items namespace Hlen. rewrite create_types_NList.
    destruct (existsb (is_str "enum") items); [eexists; reflexivity|].
    destruct (existsb (is_str "structure") items); [eexists; reflexivity|].
    destruct items as [|item [|item' items]]; cbn [lines_94_114].
    + eexists; reflexivity.
    + now contradiction Hlen.
    + eexists; reflexivity.
  - intros name item namespace. rewrite create_types_NList.
    cbn [existsb]. rewrite !orb_false_r.
    destruct (is_str "enum" item) eqn:He.
    { apply is_str_true in He. subst. reflexivity. }
    destruct (is_str "structure" item) eqn:Hs.
    { apply is_str_true in Hs. subst. reflexivity. }
    cbn [lines_94_114]. run_M.
    destruct (create_types _ item namespace) as [[it ns1]|e]; reflexivity.
Qed.

Lemma array_build_witness :
  exists e,
    create_types "Path" (NList [NStr "Point"; NStr "Point"])
                 (Namespace.make "geo" []) = Raise e.
Proof.
  apply (proj1 array_build "Path" [NStr "Point"; NStr "Point"]
           (Namespace.make "geo" [])).
  cbn. lia.
Defined.

(** ** Nodes of no recognised shape *)

Lemma for_items_atom (name : string) (items : list (string * node))
  (k : string) (a : atom) (fields : Dict.t TypeDef) (ns : Namespace.t) :
  In (k, NAtom a) items ->
  succeeds (for_items create_types name items fields ns) = false.
Proof.
  revert fields ns. induction items as [|[k' v] items IH]; intros fields ns;
    [intros []|].
  intros Hin. cbn [for_items].
  destruct (Str.last_char k') as [c|]; [|reflexivity].
  destruct Hin as [[= -> ->]|Hin].
  - destruct (Ascii.eqb c "?"); reflexivity.
  - destruct (Ascii.eqb c "?"); unfold bind;
      destruct (create_types _ v ns) as [[t ns1]|e]; try reflexivity.
    + unfold lift. destruct (Optional_init t); cbn; [|reflexivity].
      now apply IH.
    + now apply IH.
Qed.

Lemma for_types_atom (items : list (string * node)) (k : string) (a : atom)
  (ns : Namespace.t) :
  In (k, NAtom a) items -> succeeds (for_types items ns) = false.
Proof.
  revert ns. induction items as [|[k' v] items IH]; intros ns; [intros []|].
  intros Hin. cbn [for_types]. unfold bind. destruct Hin as [[= -> ->]|Hin].
  - reflexivity.
  - destruct (create_types k' v ns) as [[t ns1]|e]; [|reflexivity].
    now apply IH.
Qed.

(** C8. A node that is neither a string, a mapping nor a list (an integer,
    a boolean, a float, null) makes the build fail: [create_types] raises on
    it and returns no type, also when the node is what a [structure] wrapper
    holds. The failure is not recovered from: the build of a list whose
    element it is, of a mapping one of whose fields it is, and of a document
    one of whose types it is, all fail. *)
Theorem unsupported_node_fails :
  (forall name a namespace,
      create_types name (NAtom a) namespace = Raise TypeError)
  /\ (forall name entries a namespace,
        Dict.get "enum" entries = None ->
        Dict.get "structure" entries = Some (NAtom a) ->
        create_types name (NMap entries) namespace = Raise UnboundLocalError)
  /\ (forall name a namespace,
        create_types name (NList [NAtom a]) namespace = Raise TypeError)
  /\ (forall name entries k a namespace,
        Dict.get "enum" entries = None ->
        Dict.get "structure" entries = None ->
        In (k, NAtom a) entries ->
        succeeds (create_types name (NMap entries) namespace) = false)
  /\ (forall desc k a,
        In (k, NAtom a) (doc_types desc) ->
        succeeds (create_types_None desc) = false).
Proof.
  split; [reflexivity|]. split; [|split; [reflexivity|split]].
  - intros name entries a namespace He Hs.
    now rewrite create_types_NMap, He, Hs.
  - intros name entries k a namespace He Hs Hin.
    rewrite create_types_NMap, He, Hs. cbn [lines_94_114]. unfold bind.
    pose proof (for_items_atom name entries k a [] namespace Hin) as Hfail.
    destruct (for_items _ _ _ _ _) as [[f ns1]|e]; [discriminate|reflexivity].
  - intros desc k a Hin. unfold create_types_None.
    pose proof (for_types_atom _ _ _ (Namespace.make (doc_namespace desc) [])
                  Hin) as Hfail.
    destruct (for_types _ _) as [[u ns1]|e]; [discriminate|reflexivity].
Qed.

Lemma unsupported_node_fails_witness :
  succeeds
    (create_types "Point" (NMap [("x", NStr "float"); ("y", NAtom (AInt 3))])
                  (Namespace.make "geo" [])) = false.
Proof.
  apply (proj1 (proj2 (proj2 (proj2 unsupported_node_fails)))
           "Point" [("x", NStr "float"); ("y", NAtom (AInt 3))] "y" (AInt 3)
           (Namespace.make "geo" []) eq_refl eq_refl).
  cbn. tauto.
Defined.

(** ** Registration under a key that is there *)

Lemma good_outcome_registered (t : TypeDef) (regs : log)
  (types : Dict.t TypeDef) :
  good_outcome (Return (t, regs)) ->
  registrable t = true ->
  exists key,
    res_name t = Return key /\ Dict.get key (replay regs types) = Some t.
Proof.
  intros (_ & _ & Hregs & [(n & p & -> & _)|(regs0 & k & ->)]) Hreg;
    [discriminate|].
  exists k. split; [|apply DictFacts.get_replay_last].
  apply Forall_app in Hregs as [_ Hlast].
  inversion Hlast as [|? ? (_ & Hname & _) _]; subst. exact Hname.
Qed.

(** C7. The assignment of line 113 never raises, whether or not the key is
    in the type table: afterwards the table has the new type under the key;
    when the key was there, the table keeps its keys, in their order, and
    the earlier type is gone; every other key has what it had. Accordingly a
    call of [create_types] that returns a type of a registered class leaves
    that type in the table under its name, whatever was there before; and
    what a call returns or raises is the same for every content of the
    table it starts from, so that a key being there already is never an
    error. *)
Theorem registration_overwrites :
  (forall res key namespace,
      res_name res = Return key ->
      exists namespace',
        register res namespace = Return (tt, namespace')
        /\ Dict.get key (Namespace.types namespace') = Some res
        /\ (Dict.mem key (Namespace.types namespace) = true ->
            Dict.keys (Namespace.types namespace')
            = Dict.keys (Namespace.types namespace))
        /\ (forall key', key <> key' ->
                         Dict.get key' (Namespace.types namespace')
                         = Dict.get key' (Namespace.types namespace)))
  /\ (forall name desc namespace t namespace',
        create_types name desc namespace = Return (t, namespace') ->
        registrable t = true ->
        exists key,
          res_name t = Return key
          /\ Dict.get key (Namespace.types namespace') = Some t)
  /\ (forall name desc namespace types,
        match create_types name desc namespace,
              create_types name desc
                (Namespace.make (Namespace.name namespace) types)
        with
        | Return (t, _), Return (t', _) => t = t'
        | Raise e, Raise e' => e = e'
        | _, _ => False
        end).
Proof.
  split; [|split].
  - intros res key namespace Hname. unfold register. rewrite Hname.
    eexists. split; [reflexivity|]. cbn [Namespace.types].
    split; [apply DictFacts.get_set_same|].
    split; [apply DictFacts.keys_set_present|].
    intros key' Hne. now apply DictFacts.get_set_other.
  - intros name desc ns t ns' Hrun Hreg.
    destruct (create_types_returns _ _ _ Hrun) as (regs & Hgood & -> & _).
    cbn [Namespace.types]. now apply good_outcome_registered.
  - intros name desc ns types.
    destruct (create_types name desc ns) as [[t ns']|e] eqn:Hrun.
    + destruct (create_types_returns _ _ _ Hrun) as (regs & _ & _ & Hall).
      now rewrite Hall.
    + now rewrite (create_types_raises _ _ _ Hrun).
Qed.

(** In a namespace that has an [AItem] already, the item of the array [A]
    takes its place. *)
Lemma registration_overwrites_witness :
  exists key,
    res_name (Object "AItem" "geo" [("y", Primitive "str")]) = Return key
    /\ Dict.get key
         [("AItem", Object "AItem" "geo" [("y", Primitive "str")]);
          ("str", Primitive "str")]
       = Some (Object "AItem" "geo" [("y", Primitive "str")]).
Proof.
  exact (proj1 (proj2 registration_overwrites)
           "AItem" (NMap [("y", NStr "str")])
           (Namespace.make "geo"
              [("AItem", Object "AItem" "geo" [("x", Primitive "int")])])
           (Object "AItem" "geo" [("y", Primitive "str")])
           (Namespace.make "geo"
              [("AItem", Object "AItem" "geo" [("y", Primitive "str")]);
               ("str", Primitive "str")])
           eq_refl eq_refl).
Defined.

(** ** Determinism *)

Lemma load_from (documents : list document) (types : list TypeDef) :
  load documents types
  = match load documents [] with
    | Return graph => Return (types ++ graph)
    | Raise e => Raise e
    end.
Proof.
  revert types. induction documents as [|got documents IH]; intros types.
  - cbn. now rewrite app_nil_r.
  - cbn [load]. destruct (create_types_None got) as [ns|e]; [|reflexivity].
    rewrite IH. rewrite (IH ([] ++ _)).
    destruct (load documents []); [|reflexivity].
    cbn [app]. now rewrite app_assoc.
Qed.

Lemma load_app (documents documents' : list document) (types : list TypeDef) :
  load (documents ++ documents') types
  = match load documents types with
    | Return types' => load documents' types'
    | Raise e => Raise e
    end.
Proof.
  revert types. induction documents as [|got documents IH]; intros types.
  - reflexivity.
  - cbn [app load]. destruct (create_types_None got); [apply IH|reflexivity].
Qed.

(** ** Mappings *)

Lemma mem_keys {V} (k : string) (d : Dict.t V) :
  Dict.mem k d = false <-> ~ In k (Dict.keys d).
Proof.
  unfold Dict.mem, Dict.keys. induction d as [|[k' v] d IH]; cbn.
  - split; [tauto | reflexivity].
  - destruct (String.eqb_spec k k') as [->|Hne].
    + split; [discriminate | intros H; contradiction H; now left].
    + rewrite IH. split; [intros H [E|Hin]; [congruence | tauto] | tauto].
Qed.

Lemma keys_set_absent {V} (k : string) (v : V) (d : Dict.t V) :
  Dict.mem k d = false -> Dict.keys (Dict.set k v d) = Dict.keys d ++ [k].
Proof.
  unfold Dict.mem, Dict.keys. induction d as [|[k' v'] d IH]; cbn.
  - reflexivity.
  - destruct (String.eqb k k'); [discriminate|]. cbn. intros H.
    now rewrite IH.
Qed.

Lemma last_char_nonempty (k : string) : k <> "" -> Str.last_char k <> None.
Proof.
  induction k as [|c k IH]; [congruence|]. intros _. cbn.
  destruct k; [discriminate|]. apply IH. discriminate.
Qed.

(** The loop of lines 100 to 106 is the collection of the fields in the
    words of the specification, when no key is empty. *)
Lemma for_items_spec (name : string) (entries : list (string * node))
  (fields : Dict.t TypeDef) (ns : Namespace.t) :
  Forall (fun kv => fst kv <> "") entries ->
  for_items create_types name entries fields ns
  = spec_fields name entries fields ns.
Proof.
  revert fields ns. induction entries as [|[k v] entries IH];
    intros fields ns Hkeys; [reflexivity|].
  inversion Hkeys as [|? ? Hk Hrest]; subst. cbn [fst] in Hk.
  cbn [for_items spec_fields]. unfold strip_marker, ends_with_marker.
  pose proof (last_char_nonempty Hk) as Hlast.
  destruct (Str.last_char k) as [c|]; [|congruence].
  destruct (Ascii.eqb c "?"); unfold bind.
  - destruct (create_types _ v ns) as [[u ns1]|e] eqn:Hrun; [|reflexivity].
    destruct (create_types_returns _ _ _ Hrun) as (regs & (Hw & _) & _).
    rewrite (Optional_init_ok _ Hw). cbn [lift ret]. now apply IH.
  - destruct (create_types _ v ns) as [[u ns1]|e]; [|reflexivity].
    now apply IH.
Qed.

(** The keys of the field table, when the stripped keys are all different:
    those of the table the loop starts from, then the stripped keys, in the
    order of the declaration. *)
Lemma spec_fields_keys (name : string) (entries : list (string * node))
  (table table' : Dict.t TypeDef) (ns ns' : Namespace.t) :
  NoDup (Dict.keys table ++ map strip_marker (Dict.keys entries)) ->
  spec_fields name entries table ns = Return (table', ns') ->
  Dict.keys table' = Dict.keys table ++ map strip_marker (Dict.keys entries).
Proof.
  revert table ns. induction entries as [|[k v] entries IH];
    intros table ns Hnodup; cbn [spec_fields].
  - intros [= <- _]. cbn. now rewrite app_nil_r.
  - unfold bind. destruct (create_types _ v ns) as [[u ns1]|e];
      [|discriminate].
    intros Hrun. apply IH in Hrun.
    + rewrite Hrun. rewrite keys_set_absent.
      * now rewrite <- app_assoc.
      * apply mem_keys. cbn in Hnodup. apply NoDup_remove_2 in Hnodup.
        intros Hin. apply Hnodup. apply in_or_app. now left.
    + rewrite keys_set_absent.
      * now rewrite <- app_assoc.
      * apply mem_keys. cbn in Hnodup. apply NoDup_remove_2 in Hnodup.
        intros Hin. apply Hnodup. apply in_or_app. now left.
Qed.

(** C3. The mapping [{"": int}], built as [Point] in [geo]: the empty key
    does not end with the marker, and its node alone builds, under the child
    name, so that the field is one to build unwrapped in an [Object]; but
    the test of line 101, [k[-1] == "?"], subscripts the empty key, and the
    build of the mapping raises [IndexError]. *)
Lemma empty_key_raises :
  ends_with_marker "" = false
  /\ create_types ("Point" ++ _camel_case "") (NStr "int")
                  (Namespace.make "geo" [])
     = Return (Primitive "int",
               Namespace.make "geo" [("int", Primitive "int")])
  /\ create_types "Point" (NMap [("", NStr "int")]) (Namespace.make "geo" [])
     = Raise IndexError.
Proof. repeat split. Qed.

(** Where the test of line 101 does not fail, the build of a mapping is
    what the specification says of it. For a mapping without the keys [enum]
    and [structure],
    whose field keys are all non-empty, the build under the name [name] is
    the one the specification words: the fields are built one after the
    other in the order of their declaration, each under the child name made
    of [name] and of the camel-cased key (marker stripped), the result being
    wrapped in [Optional] exactly when the key ends with the marker; a
    failing field makes the build fail; the results go into the field table
    under the stripped keys, and the [Object] of that table is returned and
    registered under [name]. When it returns, the result is an [Object]
    named [name], registered under [name]; and when the stripped keys are
    all different, its fields are those keys in the order of the
    declaration. So [{x: float, y: float, label?: str}] built as [Point] in
    [geo] is the [Object] [Point] of [geo] with the fields [x], [y] and
    [label], in this order, of types [Primitive float], [Primitive float]
    and [Optional (Primitive str)], whatever the type table has before. *)
Theorem object_build :
  (forall name entries namespace,
      Dict.get "enum" entries = None ->
      Dict.get "structure" entries = None ->
      Forall (fun kv => fst kv <> "") entries ->
      create_types name (NMap entries) namespace
      = spec_object name entries namespace
      /\ forall t namespace',
          create_types name (NMap entries) namespace = Return (t, namespace')
          -> exists fields,
            t = Object name (Namespace.name namespace) fields
            /\ Dict.get name (Namespace.types namespace') = Some t
            /\ (NoDup (map strip_marker (Dict.keys entries)) ->
                Dict.keys fields = map strip_marker (Dict.keys entries)))
  /\ (forall types,
        exists namespace',
          create_types "Point"
            (NMap [("x", NStr "float"); ("y", NStr "float");
                   ("label?", NStr "str")])
            (Namespace.make "geo" types)
          = Return (Object "Point" "geo"
                      [("x", Primitive "float"); ("y", Primitive "float");
                       ("label", Optional (Primitive "str"))],
                    namespace')).
Proof.
  split.
  - intros name entries ns He Hs Hkeys.
    assert (Heq : create_types name (NMap entries) ns
                  = spec_object name entries ns).
    { rewrite create_types_NMap, He, Hs. cbn [lines_94_114].
      unfold spec_object, bind. now rewrite for_items_spec. }
    split; [exact Heq|]. intros t ns' Hrun.
    pose proof Hrun as Hspec. rewrite Heq in Hspec.
    unfold spec_object, bind, ret, register, namespace_name in Hspec.
    destruct (spec_fields name entries [] ns) as [[fields ns1]|e] eqn:Hloop;
      [|discriminate].
    cbn in Hspec. injection Hspec as <- <-.
    assert (Hname : Namespace.name ns1 = Namespace.name ns).
    { destruct (create_types_returns _ _ _ Hrun) as (regs & _ & Hns' & _).
      now injection Hns'. }
    rewrite Hname. exists fields. split; [reflexivity|].
    split; [apply DictFacts.get_set_same|].
    intros Hnodup.
    exact (spec_fields_keys name entries [] ns Hnodup Hloop).
  - intros types.
    destruct (create_types_returns "Point"
                (NMap [("x", NStr "float"); ("y", NStr "float");
                       ("label?", NStr "str")])
                (Namespace.make "geo" [])
                (t := Object "Point" "geo"
                        [("x", Primitive "float"); ("y", Primitive "float");
                         ("label", Optional (Primitive "str"))])
                (ns' := Namespace.make "geo"
                          [("float", Primitive "float");
                           ("str", Primitive "str");
                           ("Point",
                            Object "Point" "geo"
                              [("x", Primitive "float");
                               ("y", Primitive "float");
                               ("label", Optional (Primitive "str"))])])
                eq_refl)
      as (regs & _ & _ & Hall).
    eexists. apply Hall.
Qed.

Lemma object_build_witness :
  create_types "Point" (NMap [("x", NStr "float"); ("label?", NStr "str")])
               (Namespace.make "geo" [])
  = spec_object "Point" [("x", NStr "float"); ("label?", NStr "str")]
                (Namespace.make "geo" []).
Proof.
  apply (proj1 object_build "Point" [("x", NStr "float"); ("label?", NStr "str")]
           (Namespace.make "geo" []) eq_refl eq_refl).
  repeat constructor; discriminate.
Defined.

(** ** The store *)

Module HeapFacts.

Import Heap.

Lemma extends_refl (h : heap) : extends h h.
Proof. exists []. now rewrite app_nil_r. Qed.

Lemma extends_trans (h1 h2 h3 : heap) :
  extends h1 h2 -> extends h2 h3 -> extends h1 h3.
Proof.
  intros [e1 ->] [e2 ->]. exists (e1 ++ e2). now rewrite app_assoc.
Qed.

Lemma extends_length (h h' : heap) : extends h h' -> length h <= length h'.
Proof. intros [e ->]. rewrite length_app. lia. Qed.

Lemma extends_read (h h' : heap) (l : loc) (o : object) :
  extends h h' -> read h l = Some o -> read h' l = Some o.
Proof.
  intros [e ->] H. unfold read in *. rewrite nth_error_app1; [exact H|].
  apply nth_error_Some. congruence.
Qed.

Lemma extends_alloc (o : object) (h : heap) : extends h (snd (alloc o h)).
Proof. now exists [o]. Qed.

(** An assignment into an object that [h0] does not have leaves [h0]. *)
Lemma write_app (l : loc) (o : object) (h0 extra : heap) :
  length h0 <= l ->
  write l o (h0 ++ extra) = h0 ++ write (l - length h0) o extra.
Proof.
  revert l. induction h0 as [|x h0 IH]; intros l Hl; cbn.
  - now rewrite Nat.sub_0_r.
  - destruct l as [|l]; [cbn in Hl; lia|]. cbn in Hl.
    cbn. rewrite IH by lia. reflexivity.
Qed.

Lemma extends_write (h0 h : heap) (l : loc) (o : object) :
  length h0 <= l -> extends h0 h -> extends h0 (write l o h).
Proof. intros Hl [e ->]. rewrite write_app by exact Hl. now eexists. Qed.

Lemma extends_list_append (h0 h : heap) (y : loc) (v : value) :
  length h0 <= y -> extends h0 h -> extends h0 (list_append y v h).
Proof.
  intros Hy He. unfold list_append.
  destruct (read h y) as [[items|entries]|]; try exact He.
  now apply extends_write.
Qed.

Lemma extends_dict_setitem (h0 h : heap) (y : loc) (k : string) (v : value) :
  length h0 <= y -> extends h0 h -> extends h0 (dict_setitem y k v h).
Proof.
  intros Hy He. unfold dict_setitem.
  destruct (read h y) as [[items|entries]|]; try exact He.
  now apply extends_write.
Qed.

Section Deepcopy.

Variable deepcopy : value -> memo -> heap -> option (value * memo) * heap.
Hypothesis deepcopy_extends :
  forall x m h, extends h (snd (deepcopy x m h)).

Lemma copy_list_extends (h0 : heap) (y : loc) (items : list value)
  (m : memo) (h : heap) :
  length h0 <= y -> extends h0 h ->
  extends h0 (snd (copy_list deepcopy items y m h)).
Proof.
  intros Hy. revert m h. induction items as [|a items IH]; intros m h He.
  - exact He.
  - cbn [copy_list]. pose proof (deepcopy_extends a m h) as Ha.
    destruct (deepcopy a m h) as [[[a' m']|] h']; cbn [snd] in *.
    + apply IH. apply extends_list_append; [exact Hy|].
      now apply (extends_trans He).
    + now apply (extends_trans He).
Qed.

Lemma copy_dict_extends (h0 : heap) (y : loc)
  (entries : list (string * value)) (m : memo) (h : heap) :
  length h0 <= y -> extends h0 h ->
  extends h0 (snd (copy_dict deepcopy entries y m h)).
Proof.
  intros Hy. revert m h.
  induction entries as [|[k v] entries IH]; intros m h He.
  - exact He.
  - cbn [copy_dict]. pose proof (deepcopy_extends v m h) as Hv.
    destruct (deepcopy v m h) as [[[v' m']|] h']; cbn [snd] in *.
    + apply IH. apply extends_dict_setitem; [exact Hy|].
      now apply (extends_trans He).
    + now apply (extends_trans He).
Qed.

End Deepcopy.

(** [copy.deepcopy] assigns into the copies only. *)
Lemma deepcopy_extends (fuel : nat) (x : value) (m : memo) (h : heap) :
  extends h (snd (deepcopy fuel x m h)).
Proof.
  revert x m h. induction fuel as [|fuel IH]; intros x m h;
    [apply extends_refl|].
  cbn [deepcopy]. destruct x as [s|a|l]; try apply extends_refl.
  destruct (memo_get l m); [apply extends_refl|].
  destruct (read h l) as [[items|entries]|]; [| |apply extends_refl].
  - cbn [alloc].
    pose proof (@copy_list_extends (deepcopy fuel) IH h (length h) items
                  ((l, length h) :: m) (h ++ [OList []])
                  (le_n _) (extends_alloc _ h)) as H.
    destruct (copy_list _ _ _ _ _) as [[m'|] h']; exact H.
  - cbn [alloc].
    pose proof (@copy_dict_extends (deepcopy fuel) IH h (length h) entries
                  ((l, length h) :: m) (h ++ [ODict []])
                  (le_n _) (extends_alloc _ h)) as H.
    destruct (copy_dict _ _ _ _ _) as [[m'|] h']; exact H.
Qed.

(** The copy of a list or of a dict is an object that the store did not
    have. *)
Lemma deepcopy_fresh (fuel : nat) (l : loc) (h h' : heap) (v : value)
  (m : memo) :
  deepcopy fuel (VRef l) [] h = (Some (v, m), h') ->
  exists y, v = VRef y /\ length h <= y.
Proof.
  destruct fuel as [|fuel]; [discriminate|]. cbn [deepcopy memo_get].
  destruct (read h l) as [[items|entries]|]; [| |discriminate]; cbn [alloc].
  - destruct (copy_list _ _ _ _ _) as [[m'|] h1]; [|discriminate].
    intros [= <- _ _]. eauto.
  - destruct (copy_dict _ _ _ _ _) as [[m'|] h1]; [|discriminate].
    intros [= <- _ _]. eauto.
Qed.

(** *** The computations of the builder *)

Lemma frames_ret {A} (v : A) : frames (ret v).
Proof. intros st. apply extends_refl. Qed.

Lemma frames_raise {A} (e : exn) : frames (raise (A := A) e).
Proof. intros st. apply extends_refl. Qed.

Lemma frames_stopped {A} : frames (stopped (A := A)).
Proof. intros st. apply extends_refl. Qed.

Lemma frames_bind {A B} (c : M A) (k : A -> M B) :
  frames c -> (forall v, frames (k v)) -> frames (bind c k).
Proof.
  intros Hc Hk st. unfold bind. specialize (Hc st).
  destruct (c st) as [[v| |] st']; cbn [snd] in *; try exact Hc.
  exact (extends_trans Hc (Hk v st')).
Qed.

Lemma frames_lift {A} (r : result A) : frames (lift r).
Proof. destruct r; [apply frames_ret | apply frames_raise]. Qed.

Lemma frames_register (res : TypeDef) : frames (register res).
Proof.
  intros st. unfold register. destruct (res_name res); apply extends_refl.
Qed.

Lemma frames_register_and_return (res : TypeDef) :
  frames (register_and_return res).
Proof.
  apply frames_bind; [apply frames_register|]. intros _. apply frames_ret.
Qed.

Lemma frames_deref (l : loc) : frames (deref l).
Proof.
  intros st. unfold deref. destruct (read _ _); apply extends_refl.
Qed.

Lemma frames_copy_deepcopy (fuel : nat) (desc : value) :
  frames (copy_deepcopy fuel desc).
Proof.
  intros st. unfold copy_deepcopy.
  pose proof (deepcopy_extends fuel desc [] (heap_of st)) as H.
  destruct (deepcopy _ _ _ _) as [[[struct m]|] h]; exact H.
Qed.

Section Body.

Variable create_types : string -> value -> M TypeDef.
Variable nsname : string.
Hypothesis create_types_frames :
  forall name desc, frames (create_types name desc).

Lemma frames_for_items (name : string) (items : list (string * value))
  (fields : Dict.t TypeDef) :
  frames (for_items create_types name items fields).
Proof.
  revert fields. induction items as [|[k v] items IH]; intros fields;
    cbn [for_items]; [apply frames_ret|].
  destruct (Str.last_char k) as [c|]; [|apply frames_raise].
  destruct (Ascii.eqb c "?").
  - apply frames_bind; [apply create_types_frames|]. intros under.
    apply frames_bind; [apply frames_lift|]. intros t. apply IH.
  - apply frames_bind; [apply create_types_frames|]. intros t. apply IH.
Qed.

Lemma frames_lines_94_114 (name : string) (struct : value) :
  frames (lines_94_114 create_types nsname name struct).
Proof.
  destruct struct as [s|a|l]; cbn [lines_94_114].
  - destruct (negb _).
    + destruct (_resolve_refpath _ s). apply frames_ret.
    + apply frames_register_and_return.
  - apply frames_raise.
  - apply frames_bind; [apply frames_deref|]. intros [items|entries].
    + destruct items as [|item [|item' items]]; try apply frames_raise.
      apply frames_bind; [apply create_types_frames|]. intros t.
      apply frames_register_and_return.
    + apply frames_bind; [apply frames_for_items|]. intros fields.
      apply frames_register_and_return.
Qed.

Lemma frames_body (fuel : nat) (name : string) (desc : value) :
  frames (body create_types nsname fuel name desc).
Proof.
  unfold body. apply frames_bind; [apply frames_copy_deepcopy|].
  intros [s|a|l].
  - destruct (Str.contains "enum" s); [apply frames_raise|].
    destruct (Str.contains "structure" s); [apply frames_raise|].
    apply frames_lines_94_114.
  - apply frames_raise.
  - apply frames_bind; [apply frames_deref|]. intros [items|entries].
    + destruct (existsb _ items); [apply frames_raise|].
      destruct (existsb _ items); [apply frames_raise|].
      apply frames_lines_94_114.
    + destruct (Dict.get "enum" entries);
        [apply frames_register_and_return|].
      destruct (Dict.get "structure" entries);
        apply frames_lines_94_114.
Qed.

End Body.

Lemma frames_create_types (fuel : nat) (nsname name : string)
  (desc : value) :
  frames (create_types fuel nsname name desc).
Proof.
  revert name desc. induction fuel as [|fuel IH]; intros name desc;
    cbn [create_types]; [apply frames_stopped|].
  now apply frames_body.
Qed.

Lemma frames_for_types (fuel : nat) (nsname : string)
  (items : list (string * value)) :
  frames (for_types fuel nsname items).
Proof.
  induction items as [|[k v] items IH]; cbn [for_types];
    [apply frames_ret|].
  apply frames_bind; [apply frames_create_types|]. intros _. exact IH.
Qed.

Section ReifyMono.

Variables r r' : value -> option node.
Hypothesis r_mono : forall v n, r v = Some n -> r' v = Some n.

Lemma reify_list_mono (items : list value) (ns : list node) :
  reify_list r items = Some ns -> reify_list r' items = Some ns.
Proof.
  revert ns. induction items as [|x items IH]; intros ns; [trivial|].
  cbn [reify_list]. destruct (r x) as [nx|] eqn:Hx; [|discriminate].
  rewrite (r_mono Hx).
  destruct (reify_list r items) as [nl|]; [|discriminate].
  now rewrite (IH _ eq_refl).
Qed.

Lemma reify_dict_mono (entries : list (string * value))
  (ns : list (string * node)) :
  reify_dict r entries = Some ns -> reify_dict r' entries = Some ns.
Proof.
  revert ns. induction entries as [|[k x] entries IH]; intros ns;
    [trivial|].
  cbn [reify_dict]. destruct (r x) as [nx|] eqn:Hx; [|discriminate].
  rewrite (r_mono Hx).
  destruct (reify_dict r entries) as [nl|]; [|discriminate].
  now rewrite (IH _ eq_refl).
Qed.

End ReifyMono.

(** The tree that a value stands for stays what it is when the store gets
    more objects. *)
Lemma reify_extends (depth : nat) (h h' : heap) (v : value) (n : node) :
  extends h h' -> reify depth h v = Some n -> reify depth h' v = Some n.
Proof.
  intros He. revert v n. induction depth as [|depth IH]; intros v n;
    [discriminate|].
  cbn [reify]. destruct v as [s|a|l]; try (intros H; exact H).
  destruct (read h l) as [o|] eqn:Hread; [|discriminate].
  rewrite (extends_read _ He Hread). destruct o as [items|entries].
  - destruct (reify_list (reify depth h) items) as [nl|] eqn:Hl;
      [|discriminate].
    now rewrite (@reify_list_mono _ _ IH _ _ Hl).
  - destruct (reify_dict (reify depth h) entries) as [nl|] eqn:Hd;
      [|discriminate].
    now rewrite (@reify_dict_mono _ _ IH _ _ Hd).
Qed.

End HeapFacts.

(** ** The node is not mutated *)

(** C10. Whatever a call of [create_types] does (return a type, raise, or
    be stopped on the way), every object that the store has when the call
    starts is what it was when the call ends: the call assigns only into
    the objects that it has allocated, which are those of the copies that
    [copy.deepcopy] makes, and into the type table of the namespace. So the
    tree that [desc] stands for before the call is the tree that it stands
    for after the call. The copy that line 87 makes of a list or of a dict
    is an object that the store did not have. The same holds of the call
    for a whole document, with the dict of its types. *)
Theorem input_untouched :
  (forall fuel nsname name desc st,
      let st' := snd (Heap.create_types fuel nsname name desc st) in
      (forall l o,
          Heap.read (Heap.heap_of st) l = Some o ->
          Heap.read (Heap.heap_of st') l = Some o)
      /\ (forall depth n,
            Heap.reify depth (Heap.heap_of st) desc = Some n ->
            Heap.reify depth (Heap.heap_of st') desc = Some n))
  /\ (forall fuel l h struct m h',
        Heap.deepcopy fuel (Heap.VRef l) [] h = (Some (struct, m), h') ->
        exists y, struct = Heap.VRef y /\ Heap.read h y = None)
  /\ (forall fuel nsname types h,
        let h' := snd (Heap.create_types_None fuel nsname types h) in
        (forall l o, Heap.read h l = Some o -> Heap.read h' l = Some o)
        /\ (forall depth n,
              Heap.reify depth h (Heap.VRef types) = Some n ->
              Heap.reify depth h' (Heap.VRef types) = Some n)).
Proof.
  split; [|split].
  - intros fuel nsname name desc st st'.
    pose proof (HeapFacts.frames_create_types fuel nsname name desc st) as He.
    fold st' in He. split.
    + intros l o. now apply HeapFacts.extends_read.
    + intros depth n. now apply HeapFacts.reify_extends.
  - intros fuel l h struct m h' Hcopy.
    destruct (HeapFacts.deepcopy_fresh _ _ _ Hcopy) as (y & -> & Hy).
    exists y. split; [reflexivity|]. now apply nth_error_None.
  - intros fuel nsname types h h'.
    assert (He : Heap.extends h h').
    { subst h'. unfold Heap.create_types_None.
      destruct (Heap.read h types) as [[items|entries]|];
        try apply HeapFacts.extends_refl.
      pose proof (HeapFacts.frames_for_types fuel nsname entries
                    {| Heap.heap_of := h; Heap.types_of := [] |}) as H.
      destruct (Heap.for_types _ _ _ _) as [[u|e|] st]; exact H. }
    split.
    + intros l o. now apply HeapFacts.extends_read.
    + intros depth n. now apply HeapFacts.reify_extends.
Qed.

(** The store has the dict [{x: float}] at location 0, and [desc] is a
    reference to it. *)
Lemma input_untouched_witness :
  Heap.reify 2
    (Heap.heap_of
       (snd (Heap.create_types 3 "geo" "Point" (Heap.VRef 0)
               {| Heap.heap_of := [Heap.ODict [("x", Heap.VStr "float")]];
                  Heap.types_of := [] |})))
    (Heap.VRef 0)
  = Some (NMap [("x", NStr "float")]).
Proof.
  apply (proj2 (proj1 input_untouched 3 "geo" "Point" (Heap.VRef 0)
                  {| Heap.heap_of := [Heap.ODict [("x", Heap.VStr "float")]];
                     Heap.types_of := [] |})).
  reflexivity.
Defined.

(** * More of the code: names, files and templates *)

(** ** Characters *)

Ltac ascii_cases c :=
  destruct c as [[] [] [] [] [] [] [] []]; try reflexivity; try discriminate.

Lemma to_lower_not_upper (c : ascii) : Str.is_upper (Str.to_lower c) = false.
Proof. ascii_cases c. Qed.

Lemma to_lower_fixed (c : ascii) :
  Str.is_upper c = false -> Str.to_lower c = c.
Proof. ascii_cases c. Qed.

Lemma lower_not_upper (c : ascii) :
  Str.is_lower c = true -> Str.is_upper c = false.
Proof. ascii_cases c. Qed.

Lemma letter_not_underscore (c : ascii) :
  Str.is_lower c || Str.is_upper c = true ->
  Ascii.eqb (Str.to_upper c) "_" = false
  /\ Ascii.eqb (Str.to_lower c) "_" = false
  /\ Ascii.eqb c "_" = false.
Proof. ascii_cases c; intros _; repeat split. Qed.

(** ** [_snake_case] *)

Lemma lower_no_upper (s : string) : no_upper (Text.lower s) = true.
Proof.
  induction s as [|c s IH]; [reflexivity|].
  cbn. now rewrite to_lower_not_upper, IH.
Qed.

Lemma lower_fixed (s : string) : no_upper s = true -> Text.lower s = s.
Proof.
  induction s as [|c s IH]; [reflexivity|]. cbn.
  intros H. apply andb_true_iff in H as [Hc Hs].
  apply negb_true_iff in Hc. now rewrite (to_lower_fixed _ Hc), IH.
Qed.

Lemma sub_word_fixed (in_run : bool) (s : string) :
  no_upper s = true -> sub_word in_run s = s.
Proof.
  revert in_run. induction s as [|c s IH]; intros in_run; [reflexivity|].
  cbn [no_upper sub_word]. intros H. apply andb_true_iff in H as [_ Hs].
  destruct (in_run && Str.is_lower c); [now rewrite IH|].
  destruct s as [|u [|l s']]; try now rewrite IH.
  cbn [no_upper] in Hs. apply andb_true_iff in Hs as [Hu Hs'].
  apply negb_true_iff in Hu. rewrite Hu, andb_false_r. cbn [andb].
  rewrite IH; [reflexivity|]. cbn [no_upper]. now rewrite Hu, Hs'.
Qed.

Lemma sub_hump_fixed (s : string) : no_upper s = true -> sub_hump s = s.
Proof.
  induction s as [|c s IH]; [reflexivity|].
  cbn [no_upper sub_hump]. intros H. apply andb_true_iff in H as [_ Hs].
  destruct s as [|u s']; [reflexivity|].
  pose proof Hs as Hs0. cbn [no_upper] in Hs.
  apply andb_true_iff in Hs as [Hu _]. apply negb_true_iff in Hu.
  rewrite Hu, andb_false_r. now rewrite (IH Hs0).
Qed.

(** ** [_camel_case] *)

Lemma contains_char_app (sep : ascii) (a b : string) :
  Str.contains (String sep "") (a ++ b)
  = Str.contains (String sep "") a || Str.contains (String sep "") b.
Proof.
  induction a as [|c a IH].
  - reflexivity.
  - change (String c a ++ b)%string with (String c (a ++ b)).
    rewrite !StrFacts.contains_char_cons, IH. now rewrite orb_assoc.
Qed.

Lemma title_from_underscore (cased : bool) (s : string) :
  Str.contains "_" (Str.title_from cased s) = Str.contains "_" s.
Proof.
  revert cased. induction s as [|c s IH]; intros cased; [reflexivity|].
  cbn [Str.title_from].
  destruct (Str.is_lower c || Str.is_upper c) eqn:Hletter.
  - destruct (letter_not_underscore c Hletter) as (Hu & Hl & Hc).
    rewrite !(StrFacts.contains_char_cons "_"), IH, Hc.
    now destruct cased; rewrite ?Hu, ?Hl.
  - now rewrite !(StrFacts.contains_char_cons "_"), IH.
Qed.

Lemma join_empty_app (l1 l2 : list string) :
  Str.join "" (l1 ++ l2) = (Str.join "" l1 ++ Str.join "" l2)%string.
Proof.
  induction l1 as [|p l1 IH]; [reflexivity|].
  destruct l1 as [|q l1].
  - cbn [app]. destruct l2 as [|r l2].
    + cbn. now rewrite StrFacts.append_nil_r.
    + reflexivity.
  - change (Str.join "" ((p :: q :: l1) ++ l2))
      with (p ++ "" ++ Str.join "" ((q :: l1) ++ l2))%string.
    rewrite IH.
    change (Str.join "" (p :: q :: l1))
      with (p ++ "" ++ Str.join "" (q :: l1))%string.
    cbn [String.append]. now rewrite StrFacts.append_assoc.
Qed.

Lemma join_empty_underscore (pieces : list string) :
  Forall (fun p => Str.contains "_" p = false) pieces ->
  Str.contains "_" (Str.join "" pieces) = false.
Proof.
  induction 1 as [|p pieces Hp _ IH]; [reflexivity|].
  change (p :: pieces) with ([p] ++ pieces). rewrite join_empty_app.
  rewrite contains_char_app. cbn [Str.join]. now rewrite Hp, IH.
Qed.

Lemma split_app (sep : ascii) (a b : string) :
  Str.split sep (a ++ String sep b) = Str.split sep a ++ Str.split sep b.
Proof.
  induction a as [|c a IH].
  - cbn. now rewrite Ascii.eqb_refl.
  - change (String c a ++ String sep b)%string
      with (String c (a ++ String sep b)).
    cbn [Str.split]. rewrite IH.
    destruct (Ascii.eqb c sep); [reflexivity|].
    pose proof (StrFacts.split_not_nil sep a) as Hne.
    destruct (Str.split sep a) as [|p ps]; [congruence|]. reflexivity.
Qed.

(** X5. Camel casing goes through the underscore: the camel case of
    [a_b] is that of [a] followed by that of [b]. So an underscore at the
    end or at the start of a key, or a doubled one, changes nothing: the
    keys [k], [k_] and [_k] of a mapping get the same child name. *)
Theorem camel_case_app (a b : string) :
  _camel_case (a ++ "_" ++ b) = (_camel_case a ++ _camel_case b)%string
  /\ _camel_case (a ++ "_") = _camel_case a
  /\ _camel_case ("_" ++ a) = _camel_case a.
Proof.
  assert (H : forall x y,
             _camel_case (x ++ "_" ++ y)
             = (_camel_case x ++ _camel_case y)%string).
  { intros x y. unfold _camel_case.
    change (x ++ "_" ++ y)%string with (x ++ String "_" y)%string.
    now rewrite split_app, map_app, join_empty_app. }
  split; [apply H|]. split.
  - change (a ++ "_")%string with (a ++ "_" ++ "")%string.
    rewrite (H a ""). apply StrFacts.append_nil_r.
  - apply (H "" a).
Qed.

(** ** [open_template] *)

Lemma readlines_nil (content : string) :
  Text.readlines content = [] -> content = "".
Proof.
  destruct content as [|c rest]; [reflexivity|]. cbn.
  destruct (Ascii.eqb c Text.newline); [discriminate|].
  destruct (Text.readlines rest); discriminate.
Qed.

Lemma readlines_not_empty (content : string) :
  Forall (fun line => line <> "") (Text.readlines content).
Proof.
  induction content as [|c rest IH]; cbn; [constructor|].
  destruct (Ascii.eqb c Text.newline).
  - constructor; [discriminate | exact IH].
  - destruct (Text.readlines rest) as [|line lines].
    + constructor; [discriminate | constructor].
    + inversion IH; subst. constructor; [discriminate | assumption].
Qed.

Lemma join_cons_char (sep : string) (c : ascii) (p : string)
  (ps : list string) :
  Str.join sep (String c p :: ps) = String c (Str.join sep (p :: ps)).
Proof. destruct ps; reflexivity. Qed.

(** X14. The text that [open_template] gives to the template engine is
    the content of the file, as text mode reads it, without its last
    character, be it a newline or not: a file that ends with a newline comes
    whole but for that newline, and a file that does not loses the last
    character of its last line. *)
Theorem open_template_drops_last (content : string) :
  open_template_text content = Str.drop_last content
  /\ open_template_text (content ++ String Text.newline "") = content.
Proof.
  assert (H : forall s, open_template_text s = Str.drop_last s).
  { unfold open_template_text. induction s as [|c rest IH]; [reflexivity|].
    cbn [Text.readlines].
    pose proof (readlines_nil rest) as Hnil.
    pose proof (readlines_not_empty rest) as Hne.
    destruct (Ascii.eqb_spec c Text.newline) as [->|Hc].
    - destruct (Text.readlines rest) as [|line lines] eqn:E.
      + now rewrite (Hnil eq_refl).
      + destruct rest as [|c' rest']; [discriminate|].
        change (Str.drop_last (String Text.newline (String c' rest')))
          with (String Text.newline (Str.drop_last (String c' rest'))).
        rewrite <- IH. reflexivity.
    - destruct (Text.readlines rest) as [|line lines] eqn:E.
      + now rewrite (Hnil eq_refl).
      + inversion Hne as [|? ? Hline _]; subst.
        destruct rest as [|c' rest']; [discriminate|].
        destruct line as [|l0 line']; [congruence|].
        change (Str.drop_last (String c (String c' rest')))
          with (String c (Str.drop_last (String c' rest'))).
        rewrite <- IH. cbn [map].
        change (Str.drop_last (String c (String l0 line')))
          with (String c (Str.drop_last (String l0 line'))).
        apply join_cons_char. }
  split; [apply H|]. rewrite H.
  induction content as [|c rest IH]; [reflexivity|].
  change (String c rest ++ String Text.newline "")%string
    with (String c (rest ++ String Text.newline "")).
  cbn [Str.drop_last]. rewrite IH.
  now destruct rest.
Qed.

(** ** [str.replace], [Cpp.dir] and [Cpp.typename] *)

Lemma replace_app (old : ascii) (new a b : string) :
  Text.replace old new (a ++ b)
  = (Text.replace old new a ++ Text.replace old new b)%string.
Proof.
  induction a as [|c a IH]; [reflexivity|].
  change (String c a ++ b)%string with (String c (a ++ b)).
  cbn [Text.replace]. rewrite IH. destruct (Ascii.eqb c old).
  - now rewrite StrFacts.append_assoc.
  - reflexivity.
Qed.

Lemma replace_without (old : ascii) (new s : string) :
  Str.contains (String old "") s = false -> Text.replace old new s = s.
Proof.
  induction s as [|c s IH]; [reflexivity|].
  rewrite StrFacts.contains_char_cons. intros H.
  apply orb_false_iff in H as [Hc Hs]. cbn [Text.replace].
  now rewrite Hc, IH.
Qed.

Lemma replace_char_gone (old new : ascii) (s : string) :
  old <> new ->
  Str.contains (String old "") (Text.replace old (String new "") s) = false.
Proof.
  intros Hne. induction s as [|c s IH]; [reflexivity|].
  cbn [Text.replace]. destruct (Ascii.eqb_spec c old) as [->|Hc].
  - change (String new "" ++ Text.replace old (String new "") s)%string
      with (String new (Text.replace old (String new "") s)).
    rewrite StrFacts.contains_char_cons, IH.
    apply Ascii.eqb_neq in Hne. rewrite Ascii.eqb_sym. now rewrite Hne.
  - rewrite StrFacts.contains_char_cons, IH.
    apply Ascii.eqb_neq in Hc. now rewrite Hc.
Qed.

Lemma replace_char_back (old new : ascii) (s : string) :
  Str.contains (String new "") s = false ->
  Text.replace new (String old "") (Text.replace old (String new "") s) = s.
Proof.
  induction s as [|c s IH]; [reflexivity|].
  rewrite StrFacts.contains_char_cons. intros H.
  apply orb_false_iff in H as [Hc Hs]. cbn [Text.replace].
  destruct (Ascii.eqb_spec c old) as [->|Hco].
  - change (String new "" ++ Text.replace old (String new "") s)%string
      with (String new (Text.replace old (String new "") s)).
    cbn [Text.replace]. rewrite Ascii.eqb_refl. cbn. now rewrite IH.
  - cbn [Text.replace]. now rewrite Hc, IH.
Qed.

Lemma append_inv_head (a x y : string) :
  (a ++ x)%string = (a ++ y)%string -> x = y.
Proof. induction a as [|c a IH]; cbn; [trivial|]. intros [= H]. auto. Qed.

(** X12. The directory of a namespace path has its dots turned into
    slashes, none is left; and two paths without slash that have the same
    directory are the same path. *)
Theorem dir_injective (output_dir path path' : string) :
  Str.contains "." (Text.replace "." "/" path) = false
  /\ (Str.contains "/" path = false ->
      Str.contains "/" path' = false ->
      Cpp.dir output_dir path = Cpp.dir output_dir path' ->
      path = path').
Proof.
  split; [now apply replace_char_gone|].
  intros Hp Hp' Heq. unfold Cpp.dir in Heq.
  apply append_inv_head in Heq. injection Heq as Heq.
  rewrite <- (replace_char_back "." "/" path Hp).
  rewrite <- (replace_char_back "." "/" path' Hp'). now rewrite Heq.
Qed.

Lemma dir_injective_witness :
  Str.contains "/" "pkg.a" = false
  /\ Cpp.dir "generated" "pkg.a" = "generated/pkg/a"
  /\ "pkg.a" = "pkg.a".
Proof.
  split; [reflexivity|]. split; [reflexivity|].
  exact (proj2 (dir_injective "generated" "pkg.a" "pkg.a")
           eq_refl eq_refl eq_refl).
Defined.

(** X6. The C++ name of the reference that a path resolves to: for a
    dotted path, the path with each dot turned into [::]; for a path without
    dot, the name of the current namespace with each dot turned into [::],
    then [::] and the path. *)
Theorem typename_of_resolved (namespace : Namespace.t) (path : string) :
  Cpp.typename (Reference (fst (_resolve_refpath namespace path))
                          (snd (_resolve_refpath namespace path)))
  = Cpp.Ok (if Str.contains "." path
            then Text.replace "." "::" path
            else (Text.replace "." "::" (Namespace.name namespace)
                  ++ "::" ++ path)%string).
Proof.
  unfold _resolve_refpath, Cpp.typename.
  destruct (Str.contains "." path) eqn:Hdot; cbn [fst snd Cpp.path_of
                                                    Cpp.name_of].
  - destruct (StrFacts.split_last "." path Hdot) as [Hjoin Hlast].
    cbn zeta in Hjoin, Hlast. rewrite Hjoin at 3.
    rewrite !replace_app. cbn [Text.replace]. rewrite Ascii.eqb_refl.
    cbn [Text.replace]. rewrite (replace_without "." "::" _ Hlast).
    rewrite StrFacts.append_nil_r. reflexivity.
  - reflexivity.
Qed.

(** ** What a call builds is owned by the call *)

Lemma prefix_refl (a : string) : String.prefix a a = true.
Proof.
  induction a as [|c a IH]; [reflexivity|]. cbn.
  destruct (ascii_dec c c); [exact IH | congruence].
Qed.

Lemma prefix_app (a x : string) : String.prefix a (a ++ x) = true.
Proof.
  induction a as [|c a IH]; [now destruct x|]. cbn.
  destruct (ascii_dec c c); [exact IH | congruence].
Qed.

Lemma prefix_app_l (a x k : string) :
  String.prefix (a ++ x) k = true -> String.prefix a k = true.
Proof.
  revert k. induction a as [|c a IH]; intros k; [now destruct k|].
  destruct k as [|d k]; [discriminate|]. cbn.
  destruct (ascii_dec c d); [apply IH | discriminate].
Qed.

Lemma key_of_call_weaken (name x k : string) :
  key_of_call (name ++ x) k = true -> key_of_call name k = true.
Proof.
  unfold key_of_call. intros H. apply orb_true_iff in H as [H|H].
  - now rewrite H.
  - rewrite (prefix_app_l _ _ _ H). apply orb_true_r.
Qed.

Lemma owned_weaken (nsname name x : string) (t : TypeDef) :
  owned nsname (name ++ x) t = true -> owned nsname name t = true.
Proof.
  induction t as [n p|under IH|s|n p fields IH|n p item IH|n p values]
    using TypeDef_rect'; cbn [owned]; try (intros H; exact H).
  - intros H. apply andb_true_iff in H as [Hw Hu]. now rewrite Hw, IH.
  - intros H. apply andb_true_iff in H as [H Hf].
    apply andb_true_iff in H as [Hn Hp].
    rewrite (prefix_app_l _ _ _ Hn), Hp. cbn [andb].
    rewrite forallb_forall in *. intros kv Hin.
    rewrite Forall_forall in IH. apply (IH kv Hin). now apply Hf.
  - intros H. apply andb_true_iff in H as [H Hi].
    apply andb_true_iff in H as [H Hw].
    apply andb_true_iff in H as [Hn Hp].
    now rewrite (prefix_app_l _ _ _ Hn), Hp, Hw, IH.
  - intros H. apply andb_true_iff in H as [Hn Hp].
    now rewrite (prefix_app_l _ _ _ Hn), Hp.
Qed.

Lemma owned_registration_weaken (nsname name x : string)
  (regs : log) :
  Forall (owned_registration nsname (name ++ x)) regs ->
  Forall (owned_registration nsname name) regs.
Proof.
  apply Forall_impl. intros kv (Hk & Ho & Hn & Hr). repeat split.
  - now apply (@key_of_call_weaken name x).
  - now apply (@owned_weaken nsname name x).
  - exact Hn.
  - exact Hr.
Qed.

Lemma has_owned_outcome_weaken (c : M TypeDef) (nsname name x : string) :
  has_owned_outcome c nsname (name ++ x) -> has_owned_outcome c nsname name.
Proof.
  intros ([[t regs]|e] & Hgood & Hrun).
  - exists (Return (t, regs)). split; [|exact Hrun].
    destruct Hgood as (Hw & Ho & Hregs). repeat split.
    + exact Hw.
    + now apply (@owned_weaken nsname name x).
    + now apply (@owned_registration_weaken nsname name x).
  - exists (Raise e). split; [exact I | exact Hrun].
Qed.

Lemma raise_owned (e : exn) (nsname name : string) :
  has_owned_outcome (raise e) nsname name.
Proof. exists (Raise e). split; [exact I | reflexivity]. Qed.

Lemma owned_fields (nsname name : string) (fields : Dict.t TypeDef) :
  Forall (fun kv => owned nsname name (snd kv) = true) fields ->
  owned nsname name (Object name nsname fields) = true.
Proof.
  intros H. cbn [owned]. rewrite prefix_refl, String.eqb_refl. cbn [andb].
  apply forallb_forall. rewrite Forall_forall in H. exact H.
Qed.

Section Owned.

Variable nsname : string.

Lemma for_items_owned (items : list (string * node)) :
  Forall (fun kv => forall name,
              has_owned_outcome (create_types name (snd kv)) nsname name)
         items ->
  forall name fields,
    Forall (fun kv => owned nsname name (snd kv) = true) fields ->
    has_owned_fields (for_items create_types name items fields) nsname name.
Proof.
  induction items as [|[k v] items IH]; intros Hall name fields Hf.
  - exists (Return (fields, [])). split; [split; [exact Hf|constructor]|].
    reflexivity.
  - inversion Hall as [|? ? Hv Hitems]; subst. cbn [snd] in Hv.
    specialize (IH Hitems name). cbn [for_items].
    destruct (Str.last_char k) as [c|];
      [|exists (Raise IndexError); split; [exact I|reflexivity]].
    destruct (Ascii.eqb c "?").
    + destruct (@has_owned_outcome_weaken _ nsname name
                  (_camel_case (Str.drop_last k)) (Hv _))
        as ([[u regs1]|e] & Hgood & Hrun).
      * destruct Hgood as (Hw & Ho & Hregs).
        destruct (IH (Dict.set (Str.drop_last k) (Optional u) fields))
          as ([[f regs2]|e2] & Hgood2 & Hrun2).
        { apply DictFacts.Forall_set; [|exact Hf].
          cbn [snd owned]. now rewrite Hw, Ho. }
        -- exists (Return (f, regs1 ++ regs2)); split.
           ++ destruct Hgood2; split; [assumption | now apply Forall_app].
           ++ intros types; unfold bind; rewrite Hrun; cbn.
              rewrite (Optional_init_ok _ Hw); cbn.
              rewrite Hrun2; cbn; now rewrite DictFacts.replay_app.
        -- exists (Raise e2); split; [exact I|].
           intros types; unfold bind; rewrite Hrun; cbn.
           rewrite (Optional_init_ok _ Hw); cbn.
           rewrite Hrun2; reflexivity.
      * exists (Raise e). split; [exact I|].
        intros types. unfold bind. now rewrite Hrun.
    + destruct (@has_owned_outcome_weaken _ nsname name (_camel_case k)
                  (Hv _))
        as ([[u regs1]|e] & Hgood & Hrun).
      * destruct Hgood as (Hw & Ho & Hregs).
        destruct (IH (Dict.set k u fields))
          as ([[f regs2]|e2] & Hgood2 & Hrun2).
        { apply DictFacts.Forall_set; [exact Ho | exact Hf]. }
        -- exists (Return (f, regs1 ++ regs2)); split.
           ++ destruct Hgood2; split; [assumption | now apply Forall_app].
           ++ intros types; unfold bind; rewrite Hrun; cbn.
              rewrite Hrun2; cbn; now rewrite DictFacts.replay_app.
        -- exists (Raise e2); split; [exact I|].
           intros types; unfold bind; rewrite Hrun; cbn.
           rewrite Hrun2; reflexivity.
      * exists (Raise e). split; [exact I|].
        intros types. unfold bind. now rewrite Hrun.
Qed.

Lemma own_registration (name : string) (t : TypeDef) :
  owned nsname name t = true ->
  res_name t = Return name ->
  registrable t = true ->
  owned_registration nsname name (name, t).
Proof.
  intros Ho Hn Hr. repeat split; try assumption.
  unfold key_of_call. cbn [fst]. rewrite prefix_refl. apply orb_true_r.
Qed.

Lemma lines_94_114_owned (struct : node) :
  match struct with
  | NList items =>
      Forall (fun x => forall name,
                  has_owned_outcome (create_types name x) nsname name) items
  | NMap entries =>
      Forall (fun kv => forall name,
                  has_owned_outcome (create_types name (snd kv)) nsname name)
             entries
  | _ => True
  end ->
  forall name,
    has_owned_outcome (lines_94_114 create_types name struct) nsname name.
Proof.
  destruct struct as [s|a|items|entries]; intros Hsub name;
    cbn [lines_94_114].
  - destruct (Dict.mem s Primitive_map) eqn:Hmem; cbn [negb].
    + exists (Return (Primitive s, [(s, Primitive s)])). split.
      * split; [reflexivity|]. split; [exact Hmem|].
        constructor; [|constructor]. repeat split; cbn; try assumption.
        unfold key_of_call. now rewrite Hmem.
      * reflexivity.
    + exists (let '(n, p) := _resolve_refpath (Namespace.make nsname []) s in
              Return (Reference n p, [])).
      unfold _resolve_refpath. cbn [Namespace.name].
      destruct (Str.contains "." s); (split; [|reflexivity]).
      all: split; [reflexivity|]; split; [reflexivity|constructor].
  - apply raise_owned.
  - destruct items as [|item [|item' items]]; try apply raise_owned.
    inversion Hsub as [|? ? Hitem _]; subst.
    destruct (@has_owned_outcome_weaken _ nsname name "Item" (Hitem _))
      as ([[t regs]|e] & Hgood & Hrun).
    + destruct Hgood as (Hw & Ho & Hregs).
      assert (Harr : owned nsname name (Array name nsname t) = true).
      { cbn [owned]. now rewrite prefix_refl, String.eqb_refl, Hw, Ho. }
      exists (Return (Array name nsname t,
                      regs ++ [(name, Array name nsname t)])).
      split.
      * split; [reflexivity|]. split; [exact Harr|].
        apply Forall_app. split; [assumption|].
        constructor; [|constructor]. now apply own_registration.
      * intros types. run_M. rewrite Hrun. cbn.
        now rewrite DictFacts.replay_app.
    + exists (Raise e). split; [exact I|].
      intros types. run_M. now rewrite Hrun.
  - destruct (for_items_owned Hsub name (Forall_nil _))
      as ([[fields regs]|e] & Hgood & Hrun).
    + destruct Hgood as [Hf Hregs].
      exists (Return (Object name nsname fields,
                      regs ++ [(name, Object name nsname fields)])).
      split.
      * split; [reflexivity|]. split; [now apply owned_fields|].
        apply Forall_app. split; [assumption|].
        constructor; [|constructor].
        apply own_registration; [now apply owned_fields|reflexivity..].
      * intros types. run_M. rewrite Hrun. cbn.
        now rewrite DictFacts.replay_app.
    + exists (Raise e). split; [exact I|].
      intros types. run_M. now rewrite Hrun.
Qed.

Lemma enum_owned (name : string) (values : node) :
  has_owned_outcome (lines_88_91 name values) nsname name.
Proof.
  assert (Ho : owned nsname name (EnumClass name nsname values) = true).
  { cbn [owned]. now rewrite prefix_refl, String.eqb_refl. }
  exists (Return (EnumClass name nsname values,
                  [(name, EnumClass name nsname values)])).
  split.
  - split; [reflexivity|]. split; [exact Ho|].
    constructor; [|constructor]. now apply own_registration.
  - intros types. reflexivity.
Qed.

Lemma create_types_owned (desc : node) :
  (forall name, has_owned_outcome (create_types name desc) nsname name) /\
  (forall name,
      has_owned_outcome (lines_94_114 create_types name desc) nsname name).
Proof.
  induction desc as [s|a|items IH|entries IH] using node_rect'.
  - assert (Hrest := lines_94_114_owned (NStr s) I).
    split; [|exact Hrest]. intros name. rewrite create_types_NStr.
    destruct (Str.contains "enum" s); [apply raise_owned|].
    destruct (Str.contains "structure" s); [apply raise_owned|].
    apply Hrest.
  - split; intros name; apply raise_owned.
  - assert (Hrest : forall name,
               has_owned_outcome
                 (lines_94_114 create_types name (NList items)) nsname name).
    { apply lines_94_114_owned. eapply Forall_impl; [|exact IH].
      intros x [Hx _]. exact Hx. }
    split; [|exact Hrest]. intros name. rewrite create_types_NList.
    destruct (existsb _ items); [apply raise_owned|].
    destruct (existsb _ items); [apply raise_owned|].
    apply Hrest.
  - assert (Hrest : forall name,
               has_owned_outcome
                 (lines_94_114 create_types name (NMap entries)) nsname name).
    { apply lines_94_114_owned. eapply Forall_impl; [|exact IH].
      intros x [Hx _]. exact Hx. }
    split; [|exact Hrest]. intros name. rewrite create_types_NMap.
    destruct (Dict.get "enum" entries); [apply enum_owned|].
    destruct (Dict.get "structure" entries) as [inner|] eqn:Hget;
      [|apply Hrest].
    apply (@get_Forall _
             (fun v =>
                (forall name,
                    has_owned_outcome (create_types name v) nsname name)
                /\ forall name,
                    has_owned_outcome (lines_94_114 create_types name v)
                                      nsname name) _ _ _ IH Hget).
Qed.

End Owned.

(** What a call that returns has built and registered. *)
Lemma create_types_owns (name : string) (desc : node) (ns ns' : Namespace.t)
  (t : TypeDef) :
  create_types name desc ns = Return (t, ns') ->
  exists regs,
    wrappers t = 0 /\ owned (Namespace.name ns) name t = true
    /\ Forall (owned_registration (Namespace.name ns) name) regs
    /\ ns' = Namespace.make (Namespace.name ns)
               (replay regs (Namespace.types ns)).
Proof.
  destruct ns as [nsname types0]. cbn [Namespace.name Namespace.types].
  destruct (create_types_owned nsname desc) as [H _].
  destruct (H name) as ([[t1 regs]|e] & Hgood & Hrun); rewrite Hrun; cbn.
  - intros [= <- <-]. exists regs. destruct Hgood as (Hw & Ho & Hregs).
    repeat split; assumption.
  - discriminate.
Qed.

(** ** The type table of a call *)

Lemma keys_set {V} (k : string) (v : V) (d : Dict.t V) :
  exists extra, Dict.keys (Dict.set k v d) = (Dict.keys d ++ extra)%list.
Proof.
  destruct (Dict.mem k d) eqn:Hmem.
  - exists []. rewrite app_nil_r. now apply DictFacts.keys_set_present.
  - exists [k]. now apply keys_set_absent.
Qed.

Lemma NoDup_keys_set {V} (k : string) (v : V) (d : Dict.t V) :
  NoDup (Dict.keys d) -> NoDup (Dict.keys (Dict.set k v d)).
Proof.
  intros Hd. destruct (Dict.mem k d) eqn:Hmem.
  - now rewrite DictFacts.keys_set_present.
  - rewrite (keys_set_absent _ _ _ Hmem). apply mem_keys in Hmem.
    apply NoDup_app; [exact Hd | repeat constructor; intros [] |].
    intros x Hx [<-|[]]. contradiction.
Qed.

Lemma replay_cons (k : string) (v : TypeDef) (regs : log)
  (types : Dict.t TypeDef) :
  replay ((k, v) :: regs) types = replay regs (Dict.set k v types).
Proof. reflexivity. Qed.

Lemma keys_replay (regs : log) (types : Dict.t TypeDef) :
  exists extra, Dict.keys (replay regs types) = (Dict.keys types ++ extra)%list.
Proof.
  revert types. induction regs as [|[k v] regs IH]; intros types.
  - exists []. cbn. now rewrite app_nil_r.
  - rewrite replay_cons. destruct (IH (Dict.set k v types)) as [extra2 ->].
    destruct (keys_set k v types) as [extra1 ->].
    exists (extra1 ++ extra2)%list. now rewrite app_assoc.
Qed.

Lemma NoDup_keys_replay (regs : log) (types : Dict.t TypeDef) :
  NoDup (Dict.keys types) -> NoDup (Dict.keys (replay regs types)).
Proof.
  revert types. induction regs as [|[k v] regs IH]; intros types Hd.
  - exact Hd.
  - rewrite replay_cons. apply IH. now apply NoDup_keys_set.
Qed.

Lemma get_replay_other (regs : log) (types : Dict.t TypeDef) (k : string) :
  Forall (fun kv => fst kv <> k) regs ->
  Dict.get k (replay regs types) = Dict.get k types.
Proof.
  revert types. induction regs as [|[k' v] regs IH]; intros types Hregs.
  - reflexivity.
  - inversion Hregs as [|? ? Hne Hregs']; subst. rewrite replay_cons.
    rewrite (IH _ Hregs'). now apply DictFacts.get_set_other.
Qed.

(** X9. A call that returns leaves the name of the namespace as it is and
    the keys of the type table where they are: the table afterwards has the
    keys it had, in the same order, then the new ones, and no key twice if
    it had none twice. *)
Theorem table_keys_appended (name : string) (desc : node)
  (ns ns' : Namespace.t) (t : TypeDef) :
  create_types name desc ns = Return (t, ns') ->
  Namespace.name ns' = Namespace.name ns
  /\ (exists extra,
         Dict.keys (Namespace.types ns')
         = (Dict.keys (Namespace.types ns) ++ extra)%list)
  /\ (NoDup (Dict.keys (Namespace.types ns)) ->
      NoDup (Dict.keys (Namespace.types ns'))).
Proof.
  intros Hrun.
  destruct (@create_types_owns _ _ _ _ _ Hrun) as (regs & _ & _ & _ & ->).
  cbn [Namespace.name Namespace.types]. split; [reflexivity|].
  split; [apply keys_replay | apply NoDup_keys_replay].
Qed.

Lemma table_keys_appended_witness :
  Namespace.name
    (Namespace.make "geo"
       [("float", Primitive "float");
        ("A", Array "A" "geo" (Primitive "float"))]) = "geo"
  /\ exists extra,
      Dict.keys
        (Namespace.types
           (Namespace.make "geo"
              [("float", Primitive "float");
               ("A", Array "A" "geo" (Primitive "float"))]))
      = (Dict.keys [("float", Primitive "int")] ++ extra)%list.
Proof.
  destruct (@table_keys_appended "A" (NList [NStr "float"])
              (Namespace.make "geo" [("float", Primitive "int")])
              (Namespace.make "geo"
                 [("float", Primitive "float");
                  ("A", Array "A" "geo" (Primitive "float"))])
              (Array "A" "geo" (Primitive "float")) eq_refl)
    as (Hname & Hkeys & _).
  split; [exact Hname | exact Hkeys].
Defined.

(** X10. A call named [name] that returns has assigned, in the type table,
    only keys of [Primitive.map] and names that start with [name]: under
    every other key the table has what it had. *)
Theorem table_frame (name : string) (desc : node) (ns ns' : Namespace.t)
  (t : TypeDef) (k : string) :
  create_types name desc ns = Return (t, ns') ->
  key_of_call name k = false ->
  Dict.get k (Namespace.types ns') = Dict.get k (Namespace.types ns).
Proof.
  intros Hrun Hk.
  destruct (@create_types_owns _ _ _ _ _ Hrun) as (regs & _ & _ & Hregs & ->).
  cbn [Namespace.types]. apply get_replay_other.
  eapply Forall_impl; [|exact Hregs].
  intros kv (Hkey & _) Heq. rewrite Heq in Hkey. congruence.
Qed.

Lemma table_frame_witness :
  Dict.get "B"
    (Namespace.types
       (Namespace.make "geo"
          [("B", Primitive "int"); ("float", Primitive "float");
           ("A", Array "A" "geo" (Primitive "float"))]))
  = Dict.get "B" [("B", Primitive "int")].
Proof.
  apply (@table_frame "A" (NList [NStr "float"])
           (Namespace.make "geo" [("B", Primitive "int")])
           (Namespace.make "geo"
              [("B", Primitive "int"); ("float", Primitive "float");
               ("A", Array "A" "geo" (Primitive "float"))])
           (Array "A" "geo" (Primitive "float")) "B" eq_refl eq_refl).
Defined.

(** ** The type table of a document *)

Lemma for_types_owned (items : list (string * node)) (ns ns' : Namespace.t)
  (u : unit) :
  for_types items ns = Return (u, ns') ->
  exists regs,
    ns' = Namespace.make (Namespace.name ns) (replay regs (Namespace.types ns))
    /\ Forall (fun kv =>
                 owned_registration (Namespace.name ns) "" kv
                 /\ (Dict.mem (fst kv) Primitive_map = true
                     \/ exists k0, In k0 (Dict.keys items)
                                   /\ String.prefix k0 (fst kv) = true))
              regs.
Proof.
  revert ns. induction items as [|[k v] items IH]; intros ns; cbn [for_types].
  - intros [= _ <-]. exists []. destruct ns. split; [reflexivity|constructor].
  - unfold bind. destruct (create_types k v ns) as [[t ns1]|e] eqn:Hrun;
      [|discriminate].
    intros Hrest. destruct (IH _ Hrest) as (regs2 & -> & Hregs2).
    destruct (@create_types_owns _ _ _ _ _ Hrun) as (regs1 & _ & _ & Hregs1 & ->).
    cbn [Namespace.name Namespace.types] in *.
    exists (regs1 ++ regs2)%list. rewrite DictFacts.replay_app.
    split; [reflexivity|]. apply Forall_app. split.
    + eapply Forall_impl; [|exact Hregs1].
      intros kv Hkv. split.
      * destruct Hkv as (Hk & Ho & Hn & Hr). repeat split; try assumption.
        -- unfold key_of_call. destruct (fst kv); apply orb_true_r.
        -- now apply (@owned_weaken _ "" k).
      * destruct Hkv as (Hk & _). unfold key_of_call in Hk.
        apply orb_true_iff in Hk as [Hk|Hk]; [now left|].
        right. exists k. split; [now left | exact Hk].
    + eapply Forall_impl; [|exact Hregs2].
      intros kv [Hkv [Hprim|(k0 & Hin & Hpre)]]; (split; [exact Hkv|]).
      * now left.
      * right. exists k0. split; [now right | exact Hpre].
Qed.

Lemma document_registrations (desc : document) (ns : Namespace.t) :
  create_types_None desc = Return ns ->
  exists regs,
    ns = Namespace.make (doc_namespace desc) (replay regs [])
    /\ Forall (fun kv =>
                 owned_registration (doc_namespace desc) "" kv
                 /\ (Dict.mem (fst kv) Primitive_map = true
                     \/ exists k0, In k0 (Dict.keys (doc_types desc))
                                   /\ String.prefix k0 (fst kv) = true))
              regs.
Proof.
  unfold create_types_None.
  destruct (for_types _ _) as [[u ns1]|e] eqn:Hrun; [|discriminate].
  intros [= <-]. exact (@for_types_owned _ _ _ _ Hrun).
Qed.

(** X8. The namespace that a document builds has the name given under
    [namespace]; no key is twice in its type table; every entry of the table
    is a [Primitive], an [Object], an [Array] or an [EnumClass], sits under
    its own name, and this name is a key of [Primitive.map] or starts with
    the name of one of the types of the document. *)
Theorem document_table (desc : document) (ns : Namespace.t) :
  create_types_None desc = Return ns ->
  Namespace.name ns = doc_namespace desc
  /\ NoDup (Dict.keys (Namespace.types ns))
  /\ forall k t,
      In (k, t) (Namespace.types ns) ->
      registrable t = true
      /\ res_name t = Return k
      /\ (Dict.mem k Primitive_map = true
          \/ exists k0, In k0 (Dict.keys (doc_types desc))
                        /\ String.prefix k0 k = true).
Proof.
  intros Hrun.
  destruct (@document_registrations _ _ Hrun) as (regs & -> & Hregs).
  cbn [Namespace.name Namespace.types]. split; [reflexivity|].
  split; [apply NoDup_keys_replay; constructor|].
  intros k t Hin.
  destruct (@in_replay _ _ _ _ Hregs Hin) as [[]|[(_ & _ & Hn & Hr) Hk]].
  cbn [fst snd] in *. repeat split; assumption.
Qed.

Lemma document_table_witness :
  Namespace.name
    (Namespace.make "geo"
       [("float", Primitive "float");
        ("A", Array "A" "geo" (Primitive "float"))]) = "geo"
  /\ NoDup (Dict.keys
              (Namespace.types
                 (Namespace.make "geo"
                    [("float", Primitive "float");
                     ("A", Array "A" "geo" (Primitive "float"))]))).
Proof.
  destruct (@document_table
              {| doc_namespace := "geo";
                 doc_types := [("A", NList [NStr "float"])] |}
              (Namespace.make "geo"
                 [("float", Primitive "float");
                  ("A", Array "A" "geo" (Primitive "float"))]) eq_refl)
    as (Hname & Hkeys & _).
  split; [exact Hname | exact Hkeys].
Defined.

(** ** The loader *)

Lemma load_cons (got : document) (documents : list document) :
  load (got :: documents) []
  = match create_types_None got with
    | Return ns =>
        match load documents [] with
        | Return types =>
            Return (Dict.values (Namespace.types ns) ++ types)%list
        | Raise e => Raise e
        end
    | Raise e => Raise e
    end.
Proof.
  cbn [load]. destruct (create_types_None got); [|reflexivity].
  now rewrite load_from.
Qed.

(** X11. The loader returns the values of the type tables of the
    documents, one table after the other in the order of the documents, when
    every document builds; and it stops at the first document that does not
    build, with the exception of that document, whatever comes after. *)
Theorem load_concat (documents : list document) :
  (forall types,
      load documents [] = Return types <->
      exists tables,
        Forall2 (fun got ns => create_types_None got = Return ns)
                documents tables
        /\ types
           = flat_map (fun ns => Dict.values (Namespace.types ns)) tables)
  /\ (forall e,
         load documents [] = Raise e <->
         exists before got after tables,
           documents = (before ++ got :: after)%list
           /\ Forall2 (fun got ns => create_types_None got = Return ns)
                      before tables
           /\ create_types_None got = Raise e).
Proof.
  induction documents as [|got documents [IHr IHe]].
  - split.
    + intros types. cbn. split.
      * intros [= <-]. exists []. split; [constructor|reflexivity].
      * intros (tables & Hall & ->). inversion Hall. reflexivity.
    + intros e. cbn. split; [discriminate|].
      intros ([|? ?] & ? & ? & ? & H & _); discriminate.
  - split.
    + intros types. rewrite load_cons. split.
      * destruct (create_types_None got) as [ns|e] eqn:Hgot; [|discriminate].
        destruct (load documents []) as [rest|e] eqn:Hrest; [|discriminate].
        intros [= <-]. destruct (proj1 (IHr rest) eq_refl) as (tables & H & ->).
        exists (ns :: tables). split; [now constructor | reflexivity].
      * intros (tables & Hall & ->).
        inversion Hall as [|? ns ? tables' Hgot Hall']; subst.
        rewrite Hgot.
        rewrite (proj2 (IHr _) (ex_intro _ tables' (conj Hall' eq_refl))).
        reflexivity.
    + intros e. rewrite load_cons. split.
      * destruct (create_types_None got) as [ns|e'] eqn:Hgot.
        -- destruct (load documents []) as [rest|e'] eqn:Hrest; [discriminate|].
           intros [= ->].
           destruct (proj1 (IHe e) eq_refl)
             as (before & d & after & tables & -> & Hall & Hd).
           exists (got :: before), d, after, (ns :: tables).
           split; [reflexivity|]. split; [now constructor | exact Hd].
        -- intros [= ->]. exists [], got, documents, [].
           split; [reflexivity|]. split; [constructor | exact Hgot].
      * intros (before & d & after & tables & Heq & Hall & Hd).
        destruct before as [|b before].
        -- cbn in Heq. injection Heq as -> ->. now rewrite Hd.
        -- cbn in Heq. injection Heq as -> ->.
           inversion Hall as [|? ns ? tables' Hgot Hall']; subst.
           rewrite Hgot.
           rewrite (proj2 (IHe e)); [reflexivity|].
           exists before, d, after, tables'. auto.
Qed.

Lemma load_in (documents : list document) (types : list TypeDef)
  (t : TypeDef) :
  load documents [] = Return types ->
  In t types ->
  exists got ns,
    In got documents /\ create_types_None got = Return ns
    /\ In t (Dict.values (Namespace.types ns)).
Proof.
  revert types. induction documents as [|got documents IH]; intros types.
  - cbn. intros [= <-] [].
  - rewrite load_cons.
    destruct (create_types_None got) as [ns|e] eqn:Hgot; [|discriminate].
    destruct (load documents []) as [rest|e] eqn:Hrest; [|discriminate].
    intros [= <-] Hin. apply in_app_or in Hin as [Hin|Hin].
    + exists got, ns. split; [now left|]. split; assumption.
    + destruct (IH _ eq_refl Hin) as (got' & ns' & Hd & Hrun & Ht).
      exists got', ns'. split; [now right|]. split; assumption.
Qed.

Lemma document_owned (desc : document) (ns : Namespace.t) (t : TypeDef) :
  create_types_None desc = Return ns ->
  In t (Dict.values (Namespace.types ns)) ->
  owned (doc_namespace desc) "" t = true /\ registrable t = true.
Proof.
  intros Hrun Hin.
  destruct (@document_registrations _ _ Hrun) as (regs & -> & Hregs).
  cbn [Namespace.types] in Hin. unfold Dict.values in Hin.
  apply in_map_iff in Hin as ([k t'] & <- & Hin).
  destruct (@in_replay _ _ _ _ Hregs Hin) as [[]|[(_ & Ho & _ & Hr) _]].
  split; assumption.
Qed.

(** ** What [Cpp] does with the types that the loader gives *)

Lemma definition_file_ok (output_dir : string) (t : TypeDef) :
  wrappers t = 0 -> is_Ok (Cpp.definition_file output_dir t) = true.
Proof. destruct t; cbn; first [reflexivity | discriminate]. Qed.

Lemma typename_ok (nsname name : string) (t : TypeDef) :
  owned nsname name t = true -> is_Ok (Cpp.typename t) = true.
Proof.
  assert (Hprim : forall s, Dict.mem s Primitive_map = true ->
            is_Ok (Cpp.typename (Primitive s)) = true
            /\ is_Ok (Cpp.typename (Optional (Primitive s))) = true).
  { intros s. unfold Dict.mem, Cpp.typename.
    destruct (Dict.get s Primitive_map); [split; reflexivity|discriminate]. }
  destruct t as [n p|under|s|n p fields|n p item|n p values];
    cbn [owned]; intros H; try reflexivity.
  - apply andb_true_iff in H as [Hw Hu].
    destruct under as [n p|under|s|n p fields|n p item|n p values];
      try reflexivity; [discriminate|].
    now apply Hprim.
  - now apply Hprim.
Qed.

Lemma includes_fields_ok (output_dir nsname name : string)
  (fields : Dict.t TypeDef) :
  forallb (fun kv => owned nsname name (snd kv)) fields = true ->
  forall includes,
    is_Ok (Cpp.includes_fields output_dir (Dict.values fields) includes)
    = true.
Proof.
  induction fields as [|[k v] fields IH]; intros H includes; [reflexivity|].
  cbn [forallb snd] in H. apply andb_true_iff in H as [Hv Hf].
  cbn [Dict.values map snd Cpp.includes_fields].
  assert (Hfile : forall u acc,
             wrappers u = 0 ->
             is_Ok match Cpp.definition_file output_dir u with
                   | Cpp.Error e => Cpp.Error e
                   | Cpp.Ok file =>
                       Cpp.includes_fields output_dir (Dict.values fields)
                         (Cpp.add file acc)
                   end = true).
  { intros u acc Hw. pose proof (@definition_file_ok output_dir u Hw) as Hok.
    destruct (Cpp.definition_file output_dir u); [|discriminate].
    now apply IH. }
  destruct v as [n p|under|s|n p fs|n p item|n p values];
    try (now apply Hfile).
  cbn [owned] in Hv. apply andb_true_iff in Hv as [Hw _].
  apply Nat.eqb_eq in Hw. now apply Hfile.
Qed.

Lemma includes_ok (output_dir nsname name : string) (t : TypeDef) :
  owned nsname name t = true -> is_Ok (Cpp.includes output_dir t) = true.
Proof.
  destruct t as [n p|under|s|n p fields|n p item|n p values];
    try reflexivity; cbn [owned Cpp.includes]; intros H.
  - apply andb_true_iff in H as [_ Hf]. now apply (@includes_fields_ok _ _ _ _ Hf).
  - apply andb_true_iff in H as [H _]. apply andb_true_iff in H as [_ Hw].
    apply Nat.eqb_eq in Hw.
    pose proof (@definition_file_ok output_dir item Hw) as Hok.
    now destruct (Cpp.definition_file output_dir item).
Qed.

Lemma prefix_dir (a rest : string) :
  String.prefix (a ++ "/") (a ++ "/" ++ rest) = true.
Proof. rewrite <- StrFacts.append_assoc. apply prefix_app. Qed.

(** X7. For the documents of the embedding (the namespace is a string,
    and so is every key of a mapping, type names included): the methods
    [typename], [definition_file] and [includes] of [Cpp] raise nothing on
    the types that the loader gives to the rendering loop; every field of an
    [Object] and the item of an [Array] have a C++ name and, unless a field
    is optional, a header file; and a type has a C++ namespace unless it is
    a [Primitive]. *)
Theorem loaded_types_render (output_dir : string)
  (documents : list document) (types : list TypeDef) (t : TypeDef) :
  load documents [] = Return types ->
  In t types ->
  is_Ok (Cpp.typename t) = true
  /\ is_Ok (Cpp.definition_file output_dir t) = true
  /\ is_Ok (Cpp.includes output_dir t) = true
  /\ is_Ok (Cpp.namespace t)
     = match t with Primitive _ => false | _ => true end
  /\ match t with
     | Object _ _ fields =>
         forall k v,
           In (k, v) fields ->
           is_Ok (Cpp.typename v) = true
           /\ is_Ok (Cpp.definition_file output_dir v)
              = match v with Optional _ => false | _ => true end
     | Array _ _ item =>
         is_Ok (Cpp.typename item) = true
         /\ is_Ok (Cpp.definition_file output_dir item) = true
     | _ => True
     end.
Proof.
  intros Hload Hin.
  destruct (@load_in _ _ _ Hload Hin) as (got & ns & _ & Hrun & Ht).
  destruct (@document_owned _ _ _ Hrun Ht) as [Ho Hr].
  split; [now apply (@typename_ok _ _ _ Ho)|].
  split; [apply definition_file_ok; now destruct t|].
  split; [now apply (@includes_ok _ _ _ _ Ho)|].
  split; [now destruct t|].
  destruct t as [n p|under|s|n p fields|n p item|n p values]; try exact I.
  - cbn [owned] in Ho. apply andb_true_iff in Ho as [_ Hf].
    rewrite forallb_forall in Hf. intros k v Hv.
    specialize (Hf _ Hv). cbn [snd] in Hf.
    split; [now apply (@typename_ok _ _ _ Hf)|].
    destruct v; try (apply definition_file_ok; reflexivity). reflexivity.
  - cbn [owned] in Ho. apply andb_true_iff in Ho as [Ho Hi].
    apply andb_true_iff in Ho as [_ Hw]. apply Nat.eqb_eq in Hw.
    split; [now apply (@typename_ok _ _ _ Hi) | now apply definition_file_ok].
Qed.

Lemma loaded_types_render_witness :
  is_Ok (Cpp.typename
           (Object "P" "geo" [("x", Optional (Reference "Q" "geo"))])) = true.
Proof.
  apply (@loaded_types_render "generated"
           [{| doc_namespace := "geo";
               doc_types := [("P", NMap [("x?", NStr "Q")])] |}]
           [Object "P" "geo" [("x", Optional (Reference "Q" "geo"))]]
           (Object "P" "geo" [("x", Optional (Reference "Q" "geo"))])
           eq_refl (or_introl eq_refl)).
Defined.

(** ** From snake case to camel case and back *)

Lemma lower_char (c : ascii) :
  Str.is_lower c = true ->
  Str.is_upper (Str.to_upper c) = true
  /\ Str.is_lower (Str.to_upper c) = false
  /\ Text.is_digit (Str.to_upper c) = false
  /\ Str.to_lower (Str.to_upper c) = c
  /\ Str.to_lower c = c
  /\ Str.is_upper c = false
  /\ Ascii.eqb c Text.newline = false
  /\ Ascii.eqb c "_" = false.
Proof. ascii_cases c; intros _; repeat split. Qed.

Lemma upper_char (c : ascii) :
  Str.is_upper c = true ->
  Str.is_lower c = false /\ Text.is_digit c = false.
Proof. ascii_cases c; intros _; repeat split. Qed.

Lemma all_lower_no_upper (l : string) :
  all_lower l = true -> no_upper l = true.
Proof.
  induction l as [|c l IH]; [reflexivity|]. cbn. intros H.
  apply andb_true_iff in H as [Hc Hl].
  now rewrite (lower_not_upper _ Hc), IH.
Qed.

Lemma all_lower_underscore (l : string) :
  all_lower l = true -> Str.contains "_" l = false.
Proof.
  induction l as [|c l IH]; [reflexivity|].
  cbn [all_lower]. intros H. apply andb_true_iff in H as [Hc Hl].
  rewrite (StrFacts.contains_char_cons "_"), (IH Hl).
  destruct (lower_char c Hc) as (_ & _ & _ & _ & _ & _ & _ & ->). reflexivity.
Qed.

Lemma title_from_lower (l : string) :
  all_lower l = true -> Str.title_from true l = l.
Proof.
  induction l as [|c l IH]; [reflexivity|].
  cbn [all_lower Str.title_from]. intros H.
  apply andb_true_iff in H as [Hc Hl]. rewrite Hc, (IH Hl). cbn [orb].
  destruct (lower_char c Hc) as (_ & _ & _ & _ & -> & _). reflexivity.
Qed.

Lemma title_word (c : ascii) (l : string) :
  Str.is_lower c = true -> all_lower l = true ->
  Str.title (String c l) = String (Str.to_upper c) l.
Proof.
  intros Hc Hl. unfold Str.title. cbn [Str.title_from].
  now rewrite Hc, (title_from_lower _ Hl).
Qed.

Lemma lower_app (a b : string) :
  Text.lower (a ++ b) = (Text.lower a ++ Text.lower b)%string.
Proof. induction a as [|c a IH]; [reflexivity|]. cbn. now rewrite IH. Qed.

Lemma lower_word (c : ascii) (l : string) :
  Str.is_lower c = true -> all_lower l = true ->
  Text.lower (String (Str.to_upper c) l) = String c l.
Proof.
  intros Hc Hl. cbn [Text.lower].
  destruct (lower_char c Hc) as (_ & _ & _ & -> & _).
  now rewrite (lower_fixed _ (all_lower_no_upper _ Hl)).
Qed.

(** One step of each scan. *)
Lemma sub_word_eq (in_run : bool) (c : ascii) (rest : string) :
  sub_word in_run (String c rest)
  = if in_run && Str.is_lower c then String c (sub_word true rest)
    else
      match rest with
      | String u (String l rest') =>
          if negb (Ascii.eqb c Text.newline)
             && Str.is_upper u && Str.is_lower l
          then String c (String "_" (String u (String l (sub_word true rest'))))
          else String c (sub_word false rest)
      | _ => String c (sub_word false rest)
      end.
Proof. reflexivity. Qed.

Lemma sub_hump_eq (c : ascii) (rest : string) :
  sub_hump (String c rest)
  = match rest with
    | String u rest' =>
        if (Str.is_lower c || Text.is_digit c) && Str.is_upper u
        then String c (String "_" (String u (sub_hump rest')))
        else String c (sub_hump rest)
    | EmptyString => String c EmptyString
    end.
Proof. reflexivity. Qed.

(** No match starts at a character that no upper-case letter follows. *)
Lemma sub_word_skip (c : ascii) (rest : string) :
  match rest with
  | String u _ => Str.is_upper u = false
  | EmptyString => True
  end ->
  sub_word false (String c rest) = String c (sub_word false rest).
Proof.
  rewrite sub_word_eq. cbn [andb].
  destruct rest as [|u [|l r]]; intros H; try reflexivity.
  now rewrite H, andb_false_r.
Qed.

Lemma sub_word_true_upper (u : ascii) (rest : string) :
  Str.is_lower u = false ->
  sub_word true (String u rest) = sub_word false (String u rest).
Proof. intros H. rewrite !sub_word_eq, H. reflexivity. Qed.

Lemma sub_word_run (l rest : string) :
  all_lower l = true ->
  sub_word true (l ++ rest) = (l ++ sub_word true rest)%string.
Proof.
  induction l as [|c l IH]; [reflexivity|].
  cbn [all_lower String.append]. intros H.
  apply andb_true_iff in H as [Hc Hl].
  rewrite sub_word_eq, Hc. cbn [andb]. now rewrite IH.
Qed.

Lemma sub_word_lower_word (l : string) (u c : ascii) (rest : string) :
  all_lower l = true -> l <> "" ->
  Str.is_upper u = true -> Str.is_lower c = true ->
  sub_word false (l ++ String u (String c rest))
  = (l ++ String "_" (String u (String c (sub_word true rest))))%string.
Proof.
  intros Hl Hne Hu Hc. induction l as [|a l IH]; [congruence|].
  cbn [all_lower] in Hl. apply andb_true_iff in Hl as [Ha Hl].
  destruct l as [|b l'].
  - cbn [String.append]. rewrite sub_word_eq. cbn [andb].
    destruct (lower_char a Ha) as (_ & _ & _ & _ & _ & _ & -> & _).
    now rewrite Hu, Hc.
  - change (String a (String b l') ++ String u (String c rest))%string
      with (String a (String b l' ++ String u (String c rest))).
    rewrite sub_word_skip.
    + rewrite IH; [reflexivity | exact Hl | discriminate].
    + cbn [String.append]. cbn [all_lower] in Hl.
      apply andb_true_iff in Hl as [Hb _]. now apply lower_not_upper.
Qed.

Lemma sub_hump_skip (c : ascii) (rest : string) :
  Str.is_lower c || Text.is_digit c = false
  \/ match rest with
     | String u _ => Str.is_upper u = false
     | EmptyString => True
     end ->
  sub_hump (String c rest) = String c (sub_hump rest).
Proof.
  rewrite sub_hump_eq. destruct rest as [|u r]; [reflexivity|].
  intros [H|H]; rewrite H; [reflexivity | now rewrite andb_false_r].
Qed.

Lemma sub_hump_upper (u : ascii) (rest : string) :
  Str.is_upper u = true -> sub_hump (String u rest) = String u (sub_hump rest).
Proof.
  intros Hu. apply sub_hump_skip. left.
  destruct (upper_char u Hu) as [-> ->]. reflexivity.
Qed.

Lemma sub_hump_lower_sep (l rest : string) :
  all_lower l = true ->
  sub_hump (l ++ String "_" rest) = (l ++ String "_" (sub_hump rest))%string.
Proof.
  induction l as [|a l IH]; intros Hl.
  - cbn [String.append]. apply sub_hump_skip. now left.
  - cbn [all_lower] in Hl. apply andb_true_iff in Hl as [Ha Hl].
    cbn [String.append]. rewrite sub_hump_skip, (IH Hl); [reflexivity|].
    right. destruct l as [|b l']; [reflexivity|].
    cbn [String.append]. cbn [all_lower] in Hl.
    apply andb_true_iff in Hl as [Hb _]. now apply lower_not_upper.
Qed.

Lemma sub_hump_lower_upper (l : string) (u : ascii) (rest : string) :
  all_lower l = true -> l <> "" -> Str.is_upper u = true ->
  sub_hump (l ++ String u rest)
  = (l ++ String "_" (String u (sub_hump rest)))%string.
Proof.
  intros Hl Hne Hu. induction l as [|a l IH]; [congruence|].
  cbn [all_lower] in Hl. apply andb_true_iff in Hl as [Ha Hl].
  destruct l as [|b l'].
  - cbn [String.append]. rewrite sub_hump_eq. now rewrite Ha, Hu.
  - change (String a (String b l') ++ String u rest)%string
      with (String a (String b l' ++ String u rest)).
    rewrite sub_hump_skip.
    + rewrite IH; [reflexivity | exact Hl | discriminate].
    + right. cbn [String.append]. cbn [all_lower] in Hl.
      apply andb_true_iff in Hl as [Hb _]. now apply lower_not_upper.
Qed.

(** A word of two or more lower-case letters. *)
Lemma word_shape (w : string) :
  all_lower w = true /\ 2 <= String.length w ->
  exists c l,
    w = String c l /\ Str.is_lower c = true /\ all_lower l = true /\ l <> "".
Proof.
  intros [Hw Hlen]. destruct w as [|c [|d l]]; cbn in Hlen; try lia.
  exists c, (String d l). cbn [all_lower] in Hw.
  apply andb_true_iff in Hw as [Hc Hl].
  repeat split; [exact Hc | exact Hl | discriminate].
Qed.

Lemma join_empty_cons (p : string) (pieces : list string) :
  Str.join "" (p :: pieces) = (p ++ Str.join "" pieces)%string.
Proof. apply (join_empty_app [p] pieces). Qed.

Lemma list_pair_ind {A} (P : list A -> Prop) :
  P [] -> (forall a, P [a]) -> (forall a b l, P l -> P (a :: b :: l)) ->
  forall l, P l.
Proof.
  intros H0 H1 H2 l.
  assert (H : P l /\ forall a, P (a :: l)); [|exact (proj1 H)].
  induction l as [|b l [IH1 IH2]]; split; auto.
Qed.

(** The camel case of some words, each with its first letter in upper
    case, starts with an upper-case letter. *)
Lemma caps_shape (w : string) (ws : list string) :
  all_lower w = true /\ 2 <= String.length w ->
  exists c l,
    w = String c l /\ Str.is_lower c = true /\ all_lower l = true /\ l <> ""
    /\ Str.join "" (map Str.title (w :: ws))
       = String (Str.to_upper c) (l ++ Str.join "" (map Str.title ws)).
Proof.
  intros Hw. destruct (@word_shape w Hw) as (c & l & -> & Hc & Hl & Hne).
  exists c, l. repeat split; try assumption.
  cbn [map]. now rewrite join_empty_cons, title_word.
Qed.

Lemma sub_word_caps (ws : list string) :
  Forall (fun w => all_lower w = true /\ 2 <= String.length w) ws ->
  sub_word true (Str.join "" (map Str.title ws))
  = sub_word false (Str.join "" (map Str.title ws)).
Proof.
  intros Hws. destruct ws as [|w ws]; [reflexivity|].
  inversion Hws as [|? ? Hw _]; subst.
  destruct (@caps_shape w ws Hw) as (c & l & _ & Hc & _ & _ & ->).
  apply sub_word_true_upper. now destruct (lower_char c Hc) as (_ & -> & _).
Qed.

(** The first substitution puts an underscore between the first two
    words, and goes on after the second. *)
Lemma sub_word_pair (w w' : string) (ws : list string) :
  all_lower w = true /\ 2 <= String.length w ->
  all_lower w' = true /\ 2 <= String.length w' ->
  Forall (fun w => all_lower w = true /\ 2 <= String.length w) ws ->
  sub_word false (Str.join "" (map Str.title (w :: w' :: ws)))
  = (Str.title w ++ String "_" (Str.title w'
       ++ sub_word false (Str.join "" (map Str.title ws))))%string.
Proof.
  intros Hw Hw' Hws. rewrite <- (@sub_word_caps ws Hws).
  destruct (@caps_shape w (w' :: ws) Hw)
    as (c & l & -> & Hc & Hl & Hne & ->).
  destruct (@caps_shape w' ws Hw') as (c' & l' & -> & Hc' & Hl' & Hne' & ->).
  rewrite !title_word by assumption.
  destruct l' as [|d l']; [congruence|].
  cbn [all_lower] in Hl'. apply andb_true_iff in Hl' as [Hd Hl'].
  rewrite sub_word_skip.
  - cbn [String.append].
    rewrite sub_word_lower_word; try assumption.
    + now rewrite (@sub_word_run l' _ Hl').
    + now destruct (lower_char c' Hc') as (-> & _).
  - destruct l as [|b l]; [congruence|]. cbn [String.append].
    cbn [all_lower] in Hl. apply andb_true_iff in Hl as [Hb _].
    now apply lower_not_upper.
Qed.

Lemma sub_word_single (w : string) :
  all_lower w = true /\ 2 <= String.length w ->
  sub_word false (Str.title w) = Str.title w.
Proof.
  intros Hw. destruct (@word_shape w Hw) as (c & l & -> & Hc & Hl & Hne).
  rewrite title_word by assumption. rewrite sub_word_skip.
  - now rewrite (@sub_word_fixed false l (all_lower_no_upper _ Hl)).
  - destruct l as [|b l]; [exact I|]. cbn [all_lower] in Hl.
    apply andb_true_iff in Hl as [Hb _]. now apply lower_not_upper.
Qed.

(** The two substitutions together put an underscore between any two
    words. *)
Lemma sub_hump_sub_word (ws : list string) :
  Forall (fun w => all_lower w = true /\ 2 <= String.length w) ws ->
  sub_hump (sub_word false (Str.join "" (map Str.title ws)))
  = Str.join "_" (map Str.title ws).
Proof.
  induction ws as [|w|w w' ws IH] using list_pair_ind; intros Hws.
  - reflexivity.
  - inversion Hws as [|? ? Hw _]; subst. cbn [map Str.join].
    rewrite (@sub_word_single w Hw).
    destruct (@word_shape w Hw) as (c & l & -> & Hc & Hl & Hne).
    rewrite title_word by assumption.
    destruct (lower_char c Hc) as (Hu & _).
    rewrite (@sub_hump_upper _ l Hu).
    now rewrite (@sub_hump_fixed l (all_lower_no_upper _ Hl)).
  - inversion Hws as [|? ? Hw Hws']; subst.
    inversion Hws' as [|? ? Hw' Hws'']; subst.
    specialize (IH Hws''). rewrite (@sub_word_pair w w' ws Hw Hw' Hws'').
    destruct (@word_shape w Hw) as (c & l & -> & Hc & Hl & Hne).
    destruct (@word_shape w' Hw') as (c' & l' & -> & Hc' & Hl' & Hne').
    rewrite !title_word by assumption.
    destruct (lower_char c Hc) as (Hu & _).
    destruct (lower_char c' Hc') as (Hu' & _).
    cbn [String.append]. rewrite (@sub_hump_upper _ _ Hu).
    rewrite (@sub_hump_lower_sep l _ Hl).
    rewrite (@sub_hump_upper _ _ Hu').
    destruct ws as [|w'' ws].
    + cbn [map Str.join sub_word]. rewrite StrFacts.append_nil_r.
      rewrite (@sub_hump_fixed l' (all_lower_no_upper _ Hl')).
      rewrite !title_word by assumption. reflexivity.
    + inversion Hws'' as [|? ? Hw'' _]; subst.
      destruct (@caps_shape w'' ws Hw'')
        as (c'' & l'' & Hshape & Hc'' & Hl'' & Hne'' & Hcaps).
      rewrite Hcaps in IH |- *.
      destruct (lower_char c'' Hc'') as (Hu'' & _).
      assert (Hskip : sub_word false
                        (String (Str.to_upper c'')
                           (l'' ++ Str.join "" (map Str.title ws)))
                      = String (Str.to_upper c'')
                          (sub_word false
                             (l'' ++ Str.join "" (map Str.title ws)))).
      { apply sub_word_skip. destruct l'' as [|b l'']; [congruence|].
        cbn [String.append]. cbn [all_lower] in Hl''.
        apply andb_true_iff in Hl'' as [Hb _]. now apply lower_not_upper. }
      rewrite Hskip in IH |- *.
      rewrite (@sub_hump_lower_upper l' _ _ Hl' Hne' Hu'').
      rewrite (@sub_hump_upper _ _ Hu'') in IH. rewrite IH.
      change (map Str.title (String c l :: String c' l' :: w'' :: ws))
        with (Str.title (String c l) :: Str.title (String c' l')
                :: map Str.title (w'' :: ws)).
      rewrite !title_word by assumption. reflexivity.
Qed.

Lemma lower_caps (ws : list string) :
  Forall (fun w => all_lower w = true /\ 2 <= String.length w) ws ->
  Text.lower (Str.join "_" (map Str.title ws)) = Str.join "_" ws.
Proof.
  induction ws as [|w ws IH]; intros Hws; [reflexivity|].
  inversion Hws as [|? ? Hw Hws']; subst. specialize (IH Hws').
  destruct (@word_shape w Hw) as (c & l & -> & Hc & Hl & Hne).
  destruct ws as [|w' ws].
  - cbn [map Str.join]. rewrite title_word by assumption.
    now apply lower_word.
  - change (Str.join "_" (map Str.title (String c l :: w' :: ws)))
      with (Str.title (String c l) ++ "_"
              ++ Str.join "_" (map Str.title (w' :: ws)))%string.
    rewrite !lower_app, IH, title_word, lower_word by assumption.
    reflexivity.
Qed.

Lemma camel_case_split (x y : string) :
  _camel_case (x ++ String "_" y) = (_camel_case x ++ _camel_case y)%string.
Proof.
  unfold _camel_case. now rewrite split_app, map_app, join_empty_app.
Qed.

Lemma camel_case_words (ws : list string) :
  Forall (fun w => all_lower w = true /\ 2 <= String.length w) ws ->
  _camel_case (Str.join "_" ws) = Str.join "" (map Str.title ws).
Proof.
  induction ws as [|w ws IH]; intros Hws; [reflexivity|].
  inversion Hws as [|? ? Hw Hws']; subst. specialize (IH Hws').
  assert (Hone : _camel_case w = Str.title w).
  { unfold _camel_case.
    now rewrite (@StrFacts.split_without "_" w
                   (all_lower_underscore _ (proj1 Hw))). }
  destruct ws as [|w' ws]; [exact Hone|].
  change (Str.join "_" (w :: w' :: ws))
    with (w ++ String "_" (Str.join "_" (w' :: ws)))%string.
  rewrite camel_case_split, IH, Hone.
  symmetry. apply (join_empty_cons (Str.title w) (map Str.title (w' :: ws))).
Qed.

(** X3. Round trip: a name made of words of two or more lower-case
    letters, joined by underscores, is the snake case of its own camel
    case. *)
Theorem snake_of_camel (words : list string) :
  Forall (fun w => all_lower w = true /\ 2 <= String.length w) words ->
  _snake_case (_camel_case (Str.join "_" words)) = Str.join "_" words.
Proof.
  intros Hws. unfold _snake_case.
  now rewrite (@camel_case_words words Hws), (@sub_hump_sub_word words Hws),
    lower_caps.
Qed.

Lemma snake_of_camel_witness :
  _snake_case (_camel_case "top_left_corner") = "top_left_corner".
Proof.
  apply (@snake_of_camel ["top"; "left"; "corner"]).
  repeat constructor.
Defined.

(** ** The includes of a type *)

Lemma in_add (x y : string) (includes : list string) :
  In y (Cpp.add x includes) <-> y = x \/ In y includes.
Proof.
  unfold Cpp.add. destruct (existsb (String.eqb x) includes) eqn:Hx.
  - apply existsb_exists in Hx as (z & Hz & Heq).
    apply String.eqb_eq in Heq as <-. split; [now right|].
    intros [->|H]; assumption.
  - rewrite in_app_iff. cbn. split.
    + intros [H|[<-|[]]]; [now right | now left].
    + intros [->|H]; [right; now left | now left].
Qed.

Lemma NoDup_add (x : string) (includes : list string) :
  NoDup includes -> NoDup (Cpp.add x includes).
Proof.
  intros Hd. unfold Cpp.add.
  destruct (existsb (String.eqb x) includes) eqn:Hx; [exact Hd|].
  apply NoDup_app; [exact Hd | repeat constructor; intros [] |].
  intros y Hy [<-|[]].
  assert (existsb (String.eqb x) includes = true); [|congruence].
  apply existsb_exists. exists x. split; [exact Hy | apply String.eqb_refl].
Qed.

Lemma includes_fields_cons (output_dir : string) (v : TypeDef)
  (values : list TypeDef) (includes : list string) :
  Cpp.includes_fields output_dir (v :: values) includes
  = match Cpp.definition_file output_dir
            match v with Optional under => under | _ => v end with
    | Cpp.Error e => Cpp.Error e
    | Cpp.Ok file =>
        Cpp.includes_fields output_dir values
          (Cpp.add file
             match v with
             | Optional _ => Cpp.add "optional" includes
             | _ => includes
             end)
    end.
Proof. destruct v; reflexivity. Qed.

Lemma includes_fields_spec (output_dir : string) (values : list TypeDef) :
  forall includes result,
    Cpp.includes_fields output_dir values includes = Cpp.Ok result ->
    NoDup includes ->
    NoDup result
    /\ forall x,
        In x result <->
        In x includes
        \/ exists v,
            In v values
            /\ match v with
               | Optional under =>
                   x = "optional"
                   \/ Cpp.definition_file output_dir under = Cpp.Ok x
               | _ => Cpp.definition_file output_dir v = Cpp.Ok x
               end.
Proof.
  induction values as [|v values IH]; intros includes result.
  - cbn. intros [= <-] Hd. split; [exact Hd|]. intros x. split.
    + now left.
    + intros [H|(v & [] & _)]. exact H.
  - rewrite includes_fields_cons.
    destruct (Cpp.definition_file _ _) as [file|e] eqn:Hfile; [|discriminate].
    intros Hrun Hd.
    assert (Hd' : NoDup (Cpp.add file
                           match v with
                           | Optional _ => Cpp.add "optional" includes
                           | _ => includes
                           end)).
    { apply NoDup_add. destruct v; try exact Hd. now apply NoDup_add. }
    destruct (IH _ _ Hrun Hd') as [Hres Hin]. split; [exact Hres|].
    intros x. rewrite Hin, in_add. split.
    + intros [[->|Hx]|(v' & Hv' & Hx)].
      * right. exists v. split; [now left|].
        destruct v; try exact Hfile. now right.
      * destruct v; try (now left). apply in_add in Hx as [->|Hx];
          [|now left]. right. eexists. split; [now left|]. now left.
      * right. exists v'. split; [now right | exact Hx].
    + intros [Hx|(v' & [<-|Hv'] & Hx)].
      * left. right. destruct v; try exact Hx. apply in_add. now right.
      * left. destruct v; try (left; congruence).
        destruct Hx as [->|Hx]; [|left; congruence].
        right. apply in_add. now left.
      * right. exists v'. split; assumption.
Qed.

(** X15. The includes that [Cpp.includes] gives for an [Object] are the
    headers of the types of its fields, that of the wrapped type for an
    optional field, and [optional] when a field is optional; for an
    [Array], [vector] and the header of the type of the items; for any
    other type, none. No include comes twice. *)
Theorem includes_spec (output_dir : string) (t : TypeDef)
  (result : list string) :
  Cpp.includes output_dir t = Cpp.Ok result ->
  NoDup result
  /\ forall x,
      In x result <->
      match t with
      | Object _ _ fields =>
          exists k v,
            In (k, v) fields
            /\ match v with
               | Optional under =>
                   x = "optional"
                   \/ Cpp.definition_file output_dir under = Cpp.Ok x
               | _ => Cpp.definition_file output_dir v = Cpp.Ok x
               end
      | Array _ _ item =>
          x = "vector" \/ Cpp.definition_file output_dir item = Cpp.Ok x
      | _ => False
      end.
Proof.
  destruct t as [n p|under|s|n p fields|n p item|n p values];
    cbn [Cpp.includes];
    try (intros [= <-]; split; [constructor | intros x; split; intros []]).
  - intros Hrun.
    destruct (@includes_fields_spec output_dir _ _ _ Hrun (NoDup_nil _))
      as [Hd Hin].
    split; [exact Hd|]. intros x. rewrite Hin. split.
    + intros [[]|(v & Hv & Hx)]. unfold Dict.values in Hv.
      apply in_map_iff in Hv as ([k v'] & <- & Hv). now exists k, v'.
    + intros (k & v & Hv & Hx). right. exists v. split; [|exact Hx].
      unfold Dict.values. apply in_map_iff. now exists (k, v).
  - destruct (Cpp.definition_file output_dir item) as [file|e];
      [|discriminate].
    intros [= <-]. split.
    + apply NoDup_add. apply NoDup_add. constructor.
    + intros x. rewrite !in_add. split.
      * intros [->|[->|[]]]; [now right | now left].
      * intros [->|[= ->]]; [right; now left | now left].
Qed.

Lemma includes_spec_witness :
  NoDup ["optional"; "string"; "generated/geo/q.hpp"].
Proof.
  apply (@includes_spec "generated"
           (Object "P" "geo"
              [("x", Optional (Primitive "int")); ("y", Primitive "str");
               ("z", Reference "Q" "geo")])
           ["optional"; "string"; "generated/geo/q.hpp"] eq_refl).
Defined.

(** ** Whether a node builds *)

Lemma for_items_status (items : list (string * node)) :
  Forall (fun kv =>
            exists r : option exn,
              forall name ns,
                match create_types name (snd kv) ns with
                | Return _ => r = None
                | Raise e => r = Some e
                end) items ->
  exists r : option exn,
    forall name fields ns,
      match for_items create_types name items fields ns with
      | Return _ => r = None
      | Raise e => r = Some e
      end.
Proof.
  induction items as [|[k v] items IH]; intros Hall.
  - exists None. intros name fields ns. reflexivity.
  - inversion Hall as [|? ? [r1 H1] Hitems]; subst. cbn [snd] in H1.
    destruct (IH Hitems) as [r2 H2]. cbn [for_items].
    destruct (Str.last_char k) as [c|];
      [|exists (Some IndexError); intros name fields ns; reflexivity].
    exists (match r1 with None => r2 | Some e => Some e end).
    intros name fields ns. destruct (Ascii.eqb c "?"); unfold bind.
    + specialize (H1 (name ++ _camel_case (Str.drop_last k))%string ns).
      destruct (create_types _ v ns) as [[u ns1]|e] eqn:Hrun.
      * subst r1.
        destruct (@create_types_owns _ _ _ _ _ Hrun) as (regs & Hw & _).
        rewrite (Optional_init_ok _ Hw). cbn [lift ret]. apply H2.
      * now subst r1.
    + specialize (H1 (name ++ _camel_case k)%string ns).
      destruct (create_types _ v ns) as [[u ns1]|e] eqn:Hrun.
      * subst r1. apply H2.
      * now subst r1.
Qed.

Lemma lines_94_114_status (struct : node) :
  match struct with
  | NList items =>
      Forall (fun x =>
                exists r : option exn,
                  forall name ns,
                    match create_types name x ns with
                    | Return _ => r = None
                    | Raise e => r = Some e
                    end) items
  | NMap entries =>
      Forall (fun kv =>
                exists r : option exn,
                  forall name ns,
                    match create_types name (snd kv) ns with
                    | Return _ => r = None
                    | Raise e => r = Some e
                    end) entries
  | _ => True
  end ->
  exists r : option exn,
    forall name ns,
      match lines_94_114 create_types name struct ns with
      | Return _ => r = None
      | Raise e => r = Some e
      end.
Proof.
  destruct struct as [s|a|items|entries]; intros Hsub; cbn [lines_94_114].
  - exists None. intros name ns.
    destruct (Dict.mem s Primitive_map); cbn [negb]; [reflexivity|].
    now destruct (_resolve_refpath ns s).
  - exists (Some UnboundLocalError). intros name ns. reflexivity.
  - destruct items as [|item [|item' items]];
      try (exists (Some AssertionError); intros name ns; reflexivity).
    inversion Hsub as [|? ? [r H] _]; subst. exists r. intros name ns.
    run_M. specialize (H (name ++ "Item")%string ns).
    now destruct (create_types _ item ns) as [[t ns1]|e].
  - destruct (for_items_status Hsub) as [r H]. exists r. intros name ns.
    run_M. specialize (H name [] ns).
    now destruct (for_items create_types name entries [] ns) as [[f ns1]|e].
Qed.

Lemma create_types_status (desc : node) :
  (exists r : option exn,
      forall name ns,
        match create_types name desc ns with
        | Return _ => r = None
        | Raise e => r = Some e
        end)
  /\ (exists r : option exn,
         forall name ns,
           match lines_94_114 create_types name desc ns with
           | Return _ => r = None
           | Raise e => r = Some e
           end).
Proof.
  induction desc as [s|a|items IH|entries IH] using node_rect'.
  - assert (Hrest := lines_94_114_status (NStr s) I).
    split; [|exact Hrest].
    destruct (Str.contains "enum" s) eqn:He;
      [exists (Some TypeError); intros name ns;
       now rewrite create_types_NStr, He|].
    destruct (Str.contains "structure" s) eqn:Hs;
      [exists (Some TypeError); intros name ns;
       now rewrite create_types_NStr, He, Hs|].
    destruct Hrest as [r H]. exists r. intros name ns.
    rewrite create_types_NStr, He, Hs. apply H.
  - split.
    + exists (Some TypeError). intros name ns. reflexivity.
    + exists (Some UnboundLocalError). intros name ns. reflexivity.
  - assert (Hrest : exists r : option exn,
               forall name ns,
                 match lines_94_114 create_types name (NList items) ns with
                 | Return _ => r = None
                 | Raise e => r = Some e
                 end).
    { apply lines_94_114_status. eapply Forall_impl; [|exact IH].
      intros x [Hx _]. exact Hx. }
    split; [|exact Hrest].
    destruct (existsb (is_str "enum") items) eqn:He;
      [exists (Some TypeError); intros name ns;
       now rewrite create_types_NList, He|].
    destruct (existsb (is_str "structure") items) eqn:Hs;
      [exists (Some TypeError); intros name ns;
       now rewrite create_types_NList, He, Hs|].
    destruct Hrest as [r H]. exists r. intros name ns.
    rewrite create_types_NList, He, Hs. apply H.
  - assert (Hrest : exists r : option exn,
               forall name ns,
                 match lines_94_114 create_types name (NMap entries) ns with
                 | Return _ => r = None
                 | Raise e => r = Some e
                 end).
    { apply lines_94_114_status. eapply Forall_impl; [|exact IH].
      intros x [Hx _]. exact Hx. }
    split; [|exact Hrest].
    destruct (Dict.get "enum" entries) as [values|] eqn:He.
    { exists None. intros name ns. now rewrite create_types_NMap, He. }
    destruct (Dict.get "structure" entries) as [inner|] eqn:Hs.
    + destruct (@get_Forall _
                  (fun v =>
                     (exists r : option exn,
                         forall name ns,
                           match create_types name v ns with
                           | Return _ => r = None
                           | Raise e => r = Some e
                           end)
                     /\ exists r : option exn,
                         forall name ns,
                           match lines_94_114 create_types name v ns with
                           | Return _ => r = None
                           | Raise e => r = Some e
                           end) _ _ _ IH Hs) as [_ [r H]].
      exists r. intros name ns. rewrite create_types_NMap, He, Hs. apply H.
    + destruct Hrest as [r H]. exists r. intros name ns.
      rewrite create_types_NMap, He, Hs. apply H.
Qed.

(** X16. For the nodes and the names of the embedding (mappings with
    string keys, built under a name that is a string, in a namespace whose
    name is a string): whether a node builds, and the exception when it does
    not, depend on the node only, not on the name it is built under, nor on
    the namespace, its name and its type table. *)
Theorem build_status_fixed (desc : node) (name name' : string)
  (ns ns' : Namespace.t) :
  match create_types name desc ns, create_types name' desc ns' with
  | Return _, Return _ => True
  | Raise e, Raise e' => e = e'
  | _, _ => False
  end.
Proof.
  destruct (create_types_status desc) as [[r H] _].
  pose proof (H name ns) as H1. pose proof (H name' ns') as H2.
  destruct (create_types name desc ns), (create_types name' desc ns');
    congruence || exact I.
Qed.

(** ** ASCII names *)

Lemma ascii_to_lower (c : ascii) :
  (nat_of_ascii (Str.to_lower c) <? 128)%nat = (nat_of_ascii c <? 128)%nat.
Proof. ascii_cases c. Qed.

Lemma ascii_to_upper (c : ascii) :
  (nat_of_ascii (Str.to_upper c) <? 128)%nat = (nat_of_ascii c <? 128)%nat.
Proof. ascii_cases c. Qed.

Lemma slash_to_lower (c : ascii) :
  negb (Ascii.eqb (Str.to_lower c) "/") = negb (Ascii.eqb c "/").
Proof. ascii_cases c. Qed.

Lemma every_app (p : ascii -> bool) (a b : string) :
  every p (a ++ b) = every p a && every p b.
Proof.
  induction a as [|c a IH]; [reflexivity|]. cbn. now rewrite IH, andb_assoc.
Qed.

Lemma every_lower (p : ascii -> bool) (s : string) :
  (forall c, p (Str.to_lower c) = p c) ->
  every p (Text.lower s) = every p s.
Proof.
  intros Hp. induction s as [|c s IH]; [reflexivity|]. cbn.
  now rewrite Hp, IH.
Qed.

(** The two substitutions add underscores, and nothing else. *)
Lemma every_sub_word (p : ascii -> bool) :
  p "_"%char = true ->
  forall n s in_run,
    String.length s <= n -> every p (sub_word in_run s) = every p s.
Proof.
  intros Hp. induction n as [|n IH]; intros s in_run Hn.
  - destruct s; [reflexivity | cbn in Hn; lia].
  - destruct s as [|c rest]; [reflexivity|]. cbn [String.length] in Hn.
    rewrite sub_word_eq. destruct (in_run && Str.is_lower c).
    + cbn [every]. rewrite IH by (cbn [String.length] in *; lia). reflexivity.
    + destruct rest as [|u [|l rest']].
      * reflexivity.
      * cbn [every]. rewrite IH by (cbn [String.length] in *; lia). reflexivity.
      * cbn [String.length] in Hn.
        destruct (negb (Ascii.eqb c Text.newline) && Str.is_upper u
                  && Str.is_lower l).
        -- cbn [every]. rewrite Hp, IH by (cbn [String.length] in *; lia). reflexivity.
        -- cbn [every]. rewrite IH by (cbn [String.length] in *; lia). reflexivity.
Qed.

Lemma every_sub_hump (p : ascii -> bool) :
  p "_"%char = true ->
  forall n s, String.length s <= n -> every p (sub_hump s) = every p s.
Proof.
  intros Hp. induction n as [|n IH]; intros s Hn.
  - destruct s; [reflexivity | cbn in Hn; lia].
  - destruct s as [|c rest]; [reflexivity|]. cbn [String.length] in Hn.
    rewrite sub_hump_eq. destruct rest as [|u rest']; [reflexivity|].
    cbn [String.length] in Hn.
    destruct ((Str.is_lower c || Text.is_digit c) && Str.is_upper u).
    + cbn [every]. rewrite Hp, IH by (cbn [String.length] in *; lia). reflexivity.
    + cbn [every]. rewrite IH by (cbn [String.length] in *; lia). reflexivity.
Qed.

Lemma every_snake_case (p : ascii -> bool) (name : string) :
  p "_"%char = true -> (forall c, p (Str.to_lower c) = p c) ->
  every p (_snake_case name) = every p name.
Proof.
  intros Hp Hl. unfold _snake_case. rewrite (every_lower _ _ Hl).
  rewrite (@every_sub_hump p Hp _ _ (le_n _)).
  apply (@every_sub_word p Hp _ _ _ (le_n _)).
Qed.

Lemma ascii_snake_case (name : string) :
  ascii_only (_snake_case name) = ascii_only name.
Proof.
  apply every_snake_case; [reflexivity | apply ascii_to_lower].
Qed.

(** X2. An ASCII name that has none of the letters [A] to [Z] is its own
    snake case. *)
Theorem snake_case_fixed (name : string) :
  ascii_only name = true ->
  no_upper name = true ->
  _snake_case name = name /\ ascii_only (_snake_case name) = true.
Proof.
  intros Ha H. split; [|now rewrite ascii_snake_case].
  unfold _snake_case.
  now rewrite (sub_word_fixed _ _ H), (sub_hump_fixed _ H), lower_fixed.
Qed.

Lemma snake_case_fixed_witness :
  _snake_case "path_item2" = "path_item2"
  /\ ascii_only (_snake_case "path_item2") = true.
Proof. apply snake_case_fixed; reflexivity. Defined.

(** X1. The snake case of an ASCII name is an ASCII name that has none of
    the letters [A] to [Z], and it is its own snake case: on ASCII names
    [_snake_case] is idempotent. *)
Theorem snake_case_idempotent (name : string) :
  ascii_only name = true ->
  ascii_only (_snake_case name) = true
  /\ no_upper (_snake_case name) = true
  /\ _snake_case (_snake_case name) = _snake_case name.
Proof.
  intros Ha.
  assert (H : no_upper (_snake_case name) = true) by apply lower_no_upper.
  split; [now rewrite ascii_snake_case|]. split; [exact H|].
  unfold _snake_case at 1.
  now rewrite (sub_word_fixed _ _ H), (sub_hump_fixed _ H), lower_fixed.
Qed.

Lemma snake_case_idempotent_witness :
  _snake_case "HTTPServerItem" = "http_server_item"
  /\ _snake_case (_snake_case "HTTPServerItem") = _snake_case "HTTPServerItem".
Proof.
  split; [reflexivity|].
  apply (@snake_case_idempotent "HTTPServerItem" eq_refl).
Defined.

(** ** The camel case of an ASCII string *)

Lemma every_title_from (p : ascii -> bool) (cased : bool) (s : string) :
  (forall c, p (Str.to_lower c) = p c) ->
  (forall c, p (Str.to_upper c) = p c) ->
  every p (Str.title_from cased s) = every p s.
Proof.
  intros Hl Hu. revert cased.
  induction s as [|c s IH]; intros cased; [reflexivity|].
  cbn [Str.title_from]. destruct (Str.is_lower c || Str.is_upper c).
  - cbn [every]. rewrite IH. now destruct cased; rewrite ?Hl, ?Hu.
  - cbn [every]. now rewrite IH.
Qed.

Lemma every_split (p : ascii -> bool) (sep : ascii) (s : string) :
  every p s = true ->
  Forall (fun piece => every p piece = true) (Str.split sep s).
Proof.
  induction s as [|c s IH]; intros H.
  - repeat constructor.
  - cbn [every] in H. apply andb_true_iff in H as [Hc Hs].
    specialize (IH Hs). cbn [Str.split].
    destruct (Ascii.eqb c sep); [now constructor|].
    destruct (Str.split sep s) as [|piece pieces]; [repeat constructor|].
    + cbn. now rewrite Hc.
    + inversion IH as [|? ? Hpiece Hpieces]; subst.
      constructor; [|exact Hpieces]. cbn. now rewrite Hc.
Qed.

Lemma every_join_empty (p : ascii -> bool) (pieces : list string) :
  Forall (fun piece => every p piece = true) pieces ->
  every p (Str.join "" pieces) = true.
Proof.
  induction 1 as [|piece pieces Hpiece _ IH]; [reflexivity|].
  change (piece :: pieces) with ([piece] ++ pieces)%list.
  rewrite join_empty_app, every_app. cbn [Str.join]. now rewrite Hpiece, IH.
Qed.

Lemma ascii_camel_case (s : string) :
  ascii_only s = true -> ascii_only (_camel_case s) = true.
Proof.
  intros H. unfold _camel_case. apply every_join_empty. apply Forall_map.
  eapply Forall_impl; [|apply (every_split _ "_" _ H)].
  intros piece Hpiece. unfold Str.title.
  now rewrite every_title_from by (apply ascii_to_lower || apply ascii_to_upper).
Qed.

(** X4. The camel case of an ASCII string is an ASCII string without
    underscore, and so is the enumerator name that [Cpp.enum_value] makes
    of it. *)
Theorem camel_case_no_underscore (s : string) :
  ascii_only s = true ->
  ascii_only (_camel_case s) = true
  /\ Str.contains "_" (_camel_case s) = false
  /\ ascii_only (Cpp.enum_value s) = true
  /\ Str.contains "_" (Cpp.enum_value s) = false.
Proof.
  intros Ha.
  assert (H : Str.contains "_" (_camel_case s) = false).
  { unfold _camel_case. apply join_empty_underscore. apply Forall_map.
    eapply Forall_impl; [|apply (StrFacts.split_pieces "_" s)].
    intros p Hp. unfold Str.title. now rewrite title_from_underscore. }
  pose proof (ascii_camel_case _ Ha) as Hc.
  split; [exact Hc|]. split; [exact H|]. unfold Cpp.enum_value.
  change ("k" ++ _camel_case s)%string with (String "k" (_camel_case s)).
  split.
  - unfold ascii_only in *. cbn [every]. now rewrite Hc.
  - now rewrite (StrFacts.contains_char_cons "_"), H.
Qed.

Lemma camel_case_no_underscore_witness :
  Str.contains "_" (_camel_case "top_left__corner_") = false
  /\ Cpp.enum_value "dark_red" = "kDarkRed".
Proof.
  split; [|reflexivity].
  apply (@camel_case_no_underscore "top_left__corner_" eq_refl).
Defined.

(** ** The files of the loaded types *)

Lemma contains_every (c0 : ascii) (s : string) :
  Str.contains (String c0 "") s = negb (every (fun c => negb (Ascii.eqb c c0)) s).
Proof.
  induction s as [|c s IH]; [reflexivity|].
  rewrite StrFacts.contains_char_cons, IH. cbn [every].
  now destruct (Ascii.eqb c c0), (every _ s).
Qed.

Lemma snake_case_slash (name : string) :
  Str.contains "/" (_snake_case name) = Str.contains "/" name.
Proof.
  rewrite !(contains_every "/"). f_equal.
  apply every_snake_case; [reflexivity | apply slash_to_lower].
Qed.

Lemma owned_place (nsname name : string) (t : TypeDef) :
  owned nsname name t = true -> registrable t = true ->
  match t with
  | Primitive _ => True
  | _ => exists n, Cpp.name_of t = Cpp.Ok n /\ Cpp.path_of t = Cpp.Ok nsname
  end.
Proof.
  destruct t as [n p|under|s|n p fields|n p item|n p values];
    cbn [owned registrable]; intros H Hr; try discriminate; try exact I.
  - apply andb_true_iff in H as [H _]. apply andb_true_iff in H as [_ Hp].
    apply String.eqb_eq in Hp as ->. now exists n.
  - apply andb_true_iff in H as [H _]. apply andb_true_iff in H as [H _].
    apply andb_true_iff in H as [_ Hp].
    apply String.eqb_eq in Hp as ->. now exists n.
  - apply andb_true_iff in H as [_ Hp].
    apply String.eqb_eq in Hp as ->. now exists n.
Qed.

(** X13. For the documents of the embedding (string keys, string
    namespace): the header of a [Primitive] that the loader gives is
    [string]; for any other type that it gives, an [Object], an [Array] or
    an [EnumClass] named [n], the paths that [definition_file],
    [enum_string_header_file] and [enum_string_source_file] make are the
    directory [Cpp.dir] of the namespace of one of the documents, a slash,
    the snake case of [n] and the suffix. The snake case of an ASCII name
    has a slash only if the name has one. *)
Theorem files_in_namespace_dir (output_dir : string)
  (documents : list document) (types : list TypeDef) (t : TypeDef) :
  load documents [] = Return types ->
  In t types ->
  match t with
  | Primitive _ => Cpp.definition_file output_dir t = Cpp.Ok "string"
  | _ =>
      exists got n,
        In got documents
        /\ Cpp.name_of t = Cpp.Ok n
        /\ Cpp.definition_file output_dir t
           = Cpp.Ok (Cpp.dir output_dir (doc_namespace got) ++ "/"
                     ++ _snake_case n ++ ".hpp")%string
        /\ Cpp.enum_string_header_file output_dir t
           = Cpp.Ok (Cpp.dir output_dir (doc_namespace got) ++ "/"
                     ++ _snake_case n ++ "_string_util.hpp")%string
        /\ Cpp.enum_string_source_file output_dir t
           = Cpp.Ok (Cpp.dir output_dir (doc_namespace got) ++ "/"
                     ++ _snake_case n ++ "_string_util.cpp")%string
        /\ (ascii_only n = true ->
            Str.contains "/" n = false ->
            ascii_only (_snake_case n) = true
            /\ Str.contains "/" (_snake_case n) = false)
  end.
Proof.
  intros Hload Hin.
  destruct (@load_in _ _ _ Hload Hin) as (got & ns & Hgot & Hrun & Ht).
  destruct (@document_owned _ _ _ Hrun Ht) as [Ho Hr].
  pose proof (@owned_place _ _ _ Ho Hr) as Hplace.
  destruct t as [n p|under|s|n p fields|n p item|n p values];
    try discriminate; try reflexivity;
    destruct Hplace as (n' & [= <-] & [= ->]);
    exists got, n; (split; [exact Hgot|]); (split; [reflexivity|]);
    (split; [reflexivity|]); (split; [reflexivity|]);
    (split; [reflexivity|]); intros Ha Hs;
    now rewrite ascii_snake_case, snake_case_slash.
Qed.

Lemma files_in_namespace_dir_witness :
  exists got n,
    In got [{| doc_namespace := "geo.shapes";
               doc_types := [("Color", NMap [("enum", NList [NStr "red"])])] |}]
    /\ Cpp.name_of (EnumClass "Color" "geo.shapes" (NList [NStr "red"]))
       = Cpp.Ok n
    /\ Cpp.definition_file "generated"
         (EnumClass "Color" "geo.shapes" (NList [NStr "red"]))
       = Cpp.Ok (Cpp.dir "generated" (doc_namespace got) ++ "/"
                 ++ _snake_case n ++ ".hpp")%string
    /\ Cpp.enum_string_header_file "generated"
         (EnumClass "Color" "geo.shapes" (NList [NStr "red"]))
       = Cpp.Ok (Cpp.dir "generated" (doc_namespace got) ++ "/"
                 ++ _snake_case n ++ "_string_util.hpp")%string
    /\ Cpp.enum_string_source_file "generated"
         (EnumClass "Color" "geo.shapes" (NList [NStr "red"]))
       = Cpp.Ok (Cpp.dir "generated" (doc_namespace got) ++ "/"
                 ++ _snake_case n ++ "_string_util.cpp")%string
    /\ (ascii_only n = true ->
        Str.contains "/" n = false ->
        ascii_only (_snake_case n) = true
        /\ Str.contains "/" (_snake_case n) = false).
Proof.
  apply (@files_in_namespace_dir "generated"
           [{| doc_namespace := "geo.shapes";
               doc_types := [("Color", NMap [("enum", NList [NStr "red"])])] |}]
           [EnumClass "Color" "geo.shapes" (NList [NStr "red"])]
           (EnumClass "Color" "geo.shapes" (NList [NStr "red"]))
           eq_refl (or_introl eq_refl)).
Defined.

(** * The builder over the store builds what the builder over trees builds *)

Module CopyFacts.

Import Heap.

#[local] Unset Implicit Arguments.

(** ** Assignments *)

Lemma length_write (l : loc) (o : object) (h : heap) :
  length (write l o h) = length h.
Proof.
  revert l. induction h as [|x h IH]; intros l; [now destruct l|].
  destruct l; cbn; [reflexivity | now rewrite IH].
Qed.

Lemma read_write_same (l : loc) (o : object) (h : heap) :
  l < length h -> read (write l o h) l = Some o.
Proof.
  unfold read. revert l. induction h as [|x h IH]; intros l Hl;
    [cbn in Hl; lia|].
  destruct l; cbn; [reflexivity|]. apply IH. cbn in Hl. lia.
Qed.

Lemma read_write_other (l l' : loc) (o : object) (h : heap) :
  l <> l' -> read (write l o h) l' = read h l'.
Proof.
  unfold read. revert l l'. induction h as [|x h IH]; intros l l' Hne;
    [now destruct l|].
  destruct l, l'; cbn; try reflexivity; try congruence.
  apply IH. congruence.
Qed.

Lemma read_Some_lt (h : heap) (l : loc) (o : object) :
  read h l = Some o -> l < length h.
Proof. intros H. apply nth_error_Some. unfold read in H. congruence. Qed.

Lemma read_alloc (o : object) (h : heap) :
  read (h ++ [o]) (length h) = Some o.
Proof.
  unfold read. rewrite nth_error_app2 by lia. now rewrite Nat.sub_diag.
Qed.

(** ** The memo grows *)

Lemma rename_grows (m m' : memo) (v : value) :
  (forall l y, memo_get l m = Some y -> memo_get l m' = Some y) ->
  covered m v = true ->
  rename m' v = rename m v /\ covered m' v = true.
Proof.
  intros Hm. destruct v as [s|a|l]; cbn; try (split; reflexivity).
  destruct (memo_get l m) as [y|] eqn:Hl; [|discriminate].
  intros _. now rewrite (Hm _ _ Hl).
Qed.

Lemma renames_grow (m m' : memo) (items : list value) :
  (forall l y, memo_get l m = Some y -> memo_get l m' = Some y) ->
  forallb (covered m) items = true ->
  map (rename m') items = map (rename m) items
  /\ forallb (covered m') items = true.
Proof.
  intros Hm. induction items as [|v items IH]; cbn; [split; reflexivity|].
  intros H. apply andb_true_iff in H as [Hv Hitems].
  destruct (rename_grows _ _ _ Hm Hv) as [-> ->].
  destruct (IH Hitems) as [-> ->]. split; reflexivity.
Qed.

Lemma entries_grow (m m' : memo) (entries : list (string * value)) :
  (forall l y, memo_get l m = Some y -> memo_get l m' = Some y) ->
  forallb (fun kv => covered m (snd kv)) entries = true ->
  map (fun kv => (fst kv, rename m' (snd kv))) entries
  = map (fun kv => (fst kv, rename m (snd kv))) entries
  /\ forallb (fun kv => covered m' (snd kv)) entries = true.
Proof.
  intros Hm. induction entries as [|[k v] entries IH]; cbn;
    [split; reflexivity|].
  intros H. apply andb_true_iff in H as [Hv Hentries].
  destruct (rename_grows _ _ _ Hm Hv) as [-> ->].
  destruct (IH Hentries) as [-> ->]. split; reflexivity.
Qed.

Lemma copied_grows (h0 : heap) (m m' : memo) (h h' : heap) (l y : loc) :
  (forall l y, memo_get l m = Some y -> memo_get l m' = Some y) ->
  read h' y = read h y ->
  copied h0 m h l y -> copied h0 m' h' l y.
Proof.
  intros Hm Hread (o & Ho & Hcov & Hy). exists o.
  split; [exact Ho|]. rewrite Hread, Hy.
  destruct o as [items|entries]; cbn [covered_object rename_object] in *.
  - destruct (renames_grow _ _ _ Hm Hcov) as [-> ->]. split; reflexivity.
  - destruct (entries_grow _ _ _ Hm Hcov) as [-> ->]. split; reflexivity.
Qed.

(** An assignment into a copy that is not finished. *)
Lemma copying_write (h0 : heap) (busy : list loc) (m : memo) (h : heap)
  (y : loc) (o : object) :
  length h0 <= y -> In y busy ->
  copying h0 busy m h -> copying h0 busy m (write y o h).
Proof.
  intros Hy Hbusy [Hext Hm]. split.
  - now apply HeapFacts.extends_write.
  - intros l y' Hl. destruct (Hm _ _ Hl) as [Hb Hc].
    rewrite length_write. split; [exact Hb|].
    intros Hn. apply (copied_grows h0 m m h); auto.
    apply read_write_other. intros ->. contradiction.
Qed.

Lemma copying_extends (h0 : heap) (busy : list loc) (m : memo)
  (h h' : heap) :
  extends h h' -> copying h0 busy m h -> copying h0 busy m h'.
Proof.
  intros Hhh' [Hext Hm]. split.
  - exact (HeapFacts.extends_trans Hext Hhh').
  - intros l y Hl. destruct (Hm _ _ Hl) as [Hb Hc].
    pose proof (HeapFacts.extends_length Hhh'). split; [lia|].
    intros Hn. apply (copied_grows h0 m m h); auto.
    destruct Hhh' as [extra ->]. unfold read.
    apply nth_error_app1. lia.
Qed.

Lemma copying_alloc (h0 : heap) (busy : list loc) (m : memo) (h : heap)
  (l : loc) (o : object) :
  copying h0 busy m h -> memo_get l m = None ->
  copying h0 (length h :: busy) ((l, length h) :: m) (h ++ [o]).
Proof.
  intros Hcp Hl.
  assert (Hgrow : forall l' y, memo_get l' m = Some y ->
                    memo_get l' ((l, length h) :: m) = Some y).
  { intros l' y H. cbn. destruct (Nat.eqb_spec l' l) as [->|_];
      [congruence | exact H]. }
  destruct Hcp as [Hext Hm]. split.
  - apply (HeapFacts.extends_trans Hext). now exists [o].
  - intros l' y. cbn [memo_get]. rewrite length_app. cbn [length].
    pose proof (HeapFacts.extends_length Hext) as Hlen.
    destruct (Nat.eqb_spec l' l) as [->|Hne].
    + intros [= <-]. split; [lia|]. intros Hn. contradiction Hn. now left.
    + intros H. destruct (Hm _ _ H) as [Hb Hc]. split; [lia|].
      intros Hn. apply (copied_grows h0 m _ h); auto.
      * unfold read. apply nth_error_app1. lia.
      * apply Hc. intros Hin. apply Hn. now right.
Qed.

Lemma copying_finish (h0 : heap) (busy : list loc) (m' : memo) (h' : heap)
  (l y : loc) (o : object) :
  copying h0 (y :: busy) m' h' ->
  (forall l2, memo_get l2 m' = Some y -> l2 = l) ->
  read h0 l = Some o -> covered_object m' o = true ->
  read h' y = Some (rename_object m' o) ->
  copying h0 busy m' h'.
Proof.
  intros [Hext Hm] Huniq Ho Hcov Hy. split; [exact Hext|].
  intros l2 y2 H. destruct (Hm _ _ H) as [Hb Hc]. split; [exact Hb|].
  intros Hn. destruct (Nat.eq_dec y2 y) as [->|Hne].
  - rewrite (Huniq _ H). now exists o.
  - apply Hc. intros [Heq|Hin]; [congruence | contradiction].
Qed.

Lemma set_absent {V} (k : string) (v : V) (d : Dict.t V) :
  ~ In k (Dict.keys d) -> Dict.set k v d = d ++ [(k, v)].
Proof.
  induction d as [|[k' v'] d IH]; cbn; [reflexivity|].
  intros Hn. destruct (String.eqb_spec k k') as [->|Hne].
  - contradiction Hn. now left.
  - rewrite IH; [reflexivity|]. intros Hin. apply Hn. now right.
Qed.

Lemma distinct_NoDup (keys : list string) :
  distinct keys = true -> NoDup keys.
Proof.
  induction keys as [|k keys IH]; cbn; [constructor|].
  intros H. apply andb_true_iff in H as [Hk Hrest].
  constructor; [|now apply IH]. intros Hin.
  apply negb_true_iff in Hk.
  assert (existsb (String.eqb k) keys = true); [|congruence].
  apply existsb_exists. exists k. split; [exact Hin | apply String.eqb_refl].
Qed.

Lemma reify_dict_keys (r : value -> option node)
  (entries : list (string * value)) (ns : list (string * node)) :
  reify_dict r entries = Some ns -> Dict.keys ns = Dict.keys entries.
Proof.
  revert ns. induction entries as [|[k v] entries IH]; intros ns; cbn.
  - now intros [= <-].
  - destruct (r v); [|discriminate].
    destruct (reify_dict r entries) as [ns'|]; [|discriminate].
    intros [= <-]. unfold Dict.keys in *. cbn [map fst]. f_equal.
    now apply IH.
Qed.

Section Loops.

Variable h0 : heap.
Variable deepcopy' : value -> memo -> heap -> option (value * memo) * heap.
Variable reify' : value -> option node.

Hypothesis deepcopy_ok :
  forall x n m h busy,
    reify' x = Some n -> well_keyed n = true -> copying h0 busy m h ->
    exists m' h',
      deepcopy' x m h = (Some (rename m' x, m'), h')
      /\ covered m' x = true
      /\ copying h0 busy m' h'
      /\ extends h h'
      /\ (forall l y, memo_get l m = Some y -> memo_get l m' = Some y)
      /\ (forall l y, memo_get l m' = Some y ->
                      memo_get l m = Some y \/ length h <= y).

Lemma copy_list_ok (y : loc) (busy : list loc) :
  length h0 <= y -> In y busy ->
  forall items ns done m h,
    reify_list reify' items = Some ns ->
    forallb well_keyed ns = true ->
    copying h0 busy m h ->
    read h y = Some (OList (map (rename m) done)) ->
    forallb (covered m) done = true ->
    exists m' h',
      copy_list deepcopy' items y m h = (Some m', h')
      /\ copying h0 busy m' h'
      /\ read h' y = Some (OList (map (rename m') (done ++ items)))
      /\ forallb (covered m') (done ++ items) = true
      /\ length h <= length h'
      /\ (forall l y, memo_get l m = Some y -> memo_get l m' = Some y)
      /\ (forall l y, memo_get l m' = Some y ->
                      memo_get l m = Some y \/ length h <= y).
Proof.
  intros Hy Hbusy. induction items as [|a items IH];
    intros ns done m h Hreify Hwk Hcp Hread Hcov.
  - exists m, h. cbn [copy_list].
    rewrite !app_nil_r.
    split; [reflexivity|]. split; [exact Hcp|]. split; [exact Hread|].
    split; [exact Hcov|]. split; [lia|]. split; [auto|].
    intros l y' H. now left.
  - cbn [reify_list] in Hreify.
    destruct (reify' a) as [na|] eqn:Ha; [|discriminate].
    destruct (reify_list reify' items) as [ns'|] eqn:Hitems; [|discriminate].
    injection Hreify as <-. cbn [forallb] in Hwk.
    apply andb_true_iff in Hwk as [Hwa Hwk].
    destruct (deepcopy_ok a na m h busy Ha Hwa Hcp)
      as (m1 & h1 & Hrun & Hca & Hcp1 & Hext & Hgrow & Hfresh).
    cbn [copy_list]. rewrite Hrun.
    pose proof (HeapFacts.extends_read _ Hext Hread) as Hread1.
    unfold list_append. rewrite Hread1.
    destruct (renames_grow _ _ _ Hgrow Hcov) as [Hmap Hcov1].
    destruct (IH ns' (done ++ [a]) m1
                (write y (OList (map (rename m) done ++ [rename m1 a])) h1))
      as (m' & h' & Hrun' & Hcp' & Hread' & Hcov' & Hlen & Hgrow' & Hfresh').
    + reflexivity.
    + exact Hwk.
    + now apply copying_write.
    + rewrite read_write_same by exact (read_Some_lt _ _ _ Hread1).
      now rewrite map_app, Hmap.
    + rewrite forallb_app, Hcov1. cbn. now rewrite Hca.
    + exists m', h'. rewrite <- app_assoc in Hread', Hcov'.
      split; [exact Hrun'|]. split; [exact Hcp'|].
      split; [exact Hread'|]. split; [exact Hcov'|].
      pose proof (HeapFacts.extends_length Hext).
      rewrite length_write in Hlen, Hfresh'.
      split; [lia|]. split; [auto|].
      intros l y' Hget. destruct (Hfresh' _ _ Hget) as [H1|H1];
        [|right; lia].
      destruct (Hfresh _ _ H1); [now left | now right].
Qed.

Lemma copy_dict_ok (y : loc) (busy : list loc) :
  length h0 <= y -> In y busy ->
  forall entries ns done m h,
    reify_dict reify' entries = Some ns ->
    forallb (fun kv => well_keyed (snd kv)) ns = true ->
    NoDup (Dict.keys (done ++ entries)) ->
    copying h0 busy m h ->
    read h y
    = Some (ODict (map (fun kv => (fst kv, rename m (snd kv))) done)) ->
    forallb (fun kv => covered m (snd kv)) done = true ->
    exists m' h',
      copy_dict deepcopy' entries y m h = (Some m', h')
      /\ copying h0 busy m' h'
      /\ read h' y
         = Some (ODict (map (fun kv => (fst kv, rename m' (snd kv)))
                            (done ++ entries)))
      /\ forallb (fun kv => covered m' (snd kv)) (done ++ entries) = true
      /\ length h <= length h'
      /\ (forall l y, memo_get l m = Some y -> memo_get l m' = Some y)
      /\ (forall l y, memo_get l m' = Some y ->
                      memo_get l m = Some y \/ length h <= y).
Proof.
  intros Hy Hbusy. induction entries as [|[k a] entries IH];
    intros ns done m h Hreify Hwk Hnd Hcp Hread Hcov.
  - exists m, h. cbn [copy_dict].
    rewrite !app_nil_r.
    split; [reflexivity|]. split; [exact Hcp|]. split; [exact Hread|].
    split; [exact Hcov|]. split; [lia|]. split; [auto|].
    intros l y' H. now left.
  - cbn [reify_dict] in Hreify.
    destruct (reify' a) as [na|] eqn:Ha; [|discriminate].
    destruct (reify_dict reify' entries) as [ns'|] eqn:Hentries;
      [|discriminate].
    injection Hreify as <-. cbn [forallb snd] in Hwk.
    apply andb_true_iff in Hwk as [Hwa Hwk].
    destruct (deepcopy_ok a na m h busy Ha Hwa Hcp)
      as (m1 & h1 & Hrun & Hca & Hcp1 & Hext & Hgrow & Hfresh).
    cbn [copy_dict]. rewrite Hrun.
    pose proof (HeapFacts.extends_read _ Hext Hread) as Hread1.
    unfold dict_setitem. rewrite Hread1.
    destruct (entries_grow _ _ _ Hgrow Hcov) as [Hmap Hcov1].
    assert (Hk : ~ In k (Dict.keys
                          (map (fun kv => (fst kv, rename m (snd kv))) done))).
    { unfold Dict.keys in *. rewrite map_map. cbn [fst].
      rewrite map_app in Hnd. cbn [map fst] in Hnd.
      apply NoDup_remove_2 in Hnd. intros Hin. apply Hnd.
      apply in_or_app. now left. }
    rewrite (set_absent _ _ _ Hk).
    destruct (IH ns' (done ++ [(k, a)]) m1
                (write y
                   (ODict (map (fun kv => (fst kv, rename m (snd kv))) done
                           ++ [(k, rename m1 a)])) h1))
      as (m' & h' & Hrun' & Hcp' & Hread' & Hcov' & Hlen & Hgrow' & Hfresh').
    + reflexivity.
    + exact Hwk.
    + now rewrite <- app_assoc.
    + now apply copying_write.
    + rewrite read_write_same by exact (read_Some_lt _ _ _ Hread1).
      now rewrite map_app, Hmap.
    + rewrite forallb_app, Hcov1. cbn. now rewrite Hca.
    + exists m', h'. rewrite <- app_assoc in Hread', Hcov'.
      split; [exact Hrun'|]. split; [exact Hcp'|].
      split; [exact Hread'|]. split; [exact Hcov'|].
      pose proof (HeapFacts.extends_length Hext).
      rewrite length_write in Hlen, Hfresh'.
      split; [lia|]. split; [auto|].
      intros l y' Hget. destruct (Hfresh' _ _ Hget) as [H1|H1];
        [|right; lia].
      destruct (Hfresh _ _ H1); [now left | now right].
Qed.

End Loops.

Lemma deepcopy_S (fuel : nat) (x : value) (m : memo) (h : heap) :
  deepcopy (S fuel) x m h
  = match x with
    | VStr _ | VAtom _ => (Some (x, m), h)
    | VRef l =>
        match memo_get l m with
        | Some y => (Some (VRef y, m), h)
        | None =>
            match read h l with
            | None => (None, h)
            | Some (OList items) =>
                match copy_list (deepcopy fuel) items (length h)
                        ((l, length h) :: m) (h ++ [OList []])
                with
                | (Some m', h') => (Some (VRef (length h), m'), h')
                | (None, h') => (None, h')
                end
            | Some (ODict entries) =>
                match copy_dict (deepcopy fuel) entries (length h)
                        ((l, length h) :: m) (h ++ [ODict []])
                with
                | (Some m', h') => (Some (VRef (length h), m'), h')
                | (None, h') => (None, h')
                end
            end
        end
    end.
Proof. reflexivity. Qed.

(** [copy.deepcopy] of a value that stands for a tree, with enough fuel:
    it returns, and every object that it has copied has its copy. *)
Lemma deepcopy_ok (h0 : heap) (fuel : nat) :
  forall d, d <= fuel ->
  forall x n m h busy,
    reify d h0 x = Some n -> well_keyed n = true -> copying h0 busy m h ->
    exists m' h',
      deepcopy fuel x m h = (Some (rename m' x, m'), h')
      /\ covered m' x = true
      /\ copying h0 busy m' h'
      /\ extends h h'
      /\ (forall l y, memo_get l m = Some y -> memo_get l m' = Some y)
      /\ (forall l y, memo_get l m' = Some y ->
                      memo_get l m = Some y \/ length h <= y).
Proof.
  induction fuel as [|fuel IH]; intros d Hd x n m h busy Hreify Hwk Hcp.
  - assert (d = 0) as -> by lia. discriminate.
  - destruct d as [|d]; [discriminate|]. cbn [reify] in Hreify.
    rewrite deepcopy_S.
    destruct x as [s|a|l].
    + exists m, h. split; [reflexivity|]. split; [reflexivity|].
      split; [exact Hcp|]. split; [apply HeapFacts.extends_refl|].
      split; [auto|]. intros l y Hget. now left.
    + exists m, h. split; [reflexivity|]. split; [reflexivity|].
      split; [exact Hcp|]. split; [apply HeapFacts.extends_refl|].
      split; [auto|]. intros l y Hget. now left.
    + destruct (memo_get l m) as [y|] eqn:Hl.
      * exists m, h. cbn [rename covered]. rewrite Hl.
        split; [reflexivity|]. split; [reflexivity|].
        split; [exact Hcp|]. split; [apply HeapFacts.extends_refl|].
        split; [auto|]. intros l2 y2 Hget. now left.
      * destruct (read h0 l) as [o|] eqn:Ho; [|discriminate].
        pose proof (HeapFacts.extends_read _ (proj1 Hcp) Ho) as Hread.
        rewrite Hread.
        pose proof (HeapFacts.extends_length (proj1 Hcp)) as Hlen0.
        destruct o as [items|entries].
        -- destruct (reify_list (reify d h0) items) as [ns|] eqn:Hitems;
             [|discriminate].
           injection Hreify as <-. cbn [well_keyed] in Hwk.
           destruct (copy_list_ok h0 (deepcopy fuel) (reify d h0)
                       (IH d ltac:(lia)) (length h) (length h :: busy)
                       Hlen0 (or_introl eq_refl) items ns []
                       ((l, length h) :: m) (h ++ [OList []])
                       Hitems Hwk (copying_alloc _ _ _ _ _ _ Hcp Hl)
                       (read_alloc _ _) eq_refl)
             as (m' & h' & Hrun & Hcp' & Hread' & Hcov' & Hlen & Hgrow
                 & Hfresh).
           rewrite Hrun. exists m', h'.
           assert (Hly : memo_get l m' = Some (length h)).
           { apply Hgrow. cbn. now rewrite Nat.eqb_refl. }
           cbn [rename covered]. rewrite Hly. cbn [app] in Hread', Hcov'.
           split; [reflexivity|]. split; [reflexivity|].
           rewrite length_app in Hlen, Hfresh. cbn [length] in Hlen, Hfresh.
           split; [|split; [|split]].
           ++ apply (copying_finish h0 busy m' h' l (length h) (OList items));
                auto.
              intros l2 H2. destruct (Hfresh _ _ H2) as [H3|H3]; [|lia].
              cbn in H3. destruct (Nat.eqb_spec l2 l) as [->|Hne];
                [reflexivity|].
              destruct (proj2 Hcp _ _ H3) as [Hb _]. lia.
           ++ pose proof (HeapFacts.deepcopy_extends (S fuel) (VRef l) m h)
                as He.
              rewrite deepcopy_S, Hl, Hread, Hrun in He. exact He.
           ++ intros l2 y2 H2. apply Hgrow. cbn.
              destruct (Nat.eqb_spec l2 l) as [->|Hne];
                [congruence | exact H2].
           ++ intros l2 y2 H2. destruct (Hfresh _ _ H2) as [H3|H3];
                [|right; lia].
              cbn in H3. destruct (Nat.eqb_spec l2 l) as [->|Hne].
              ** injection H3 as <-. right. lia.
              ** now left.
        -- destruct (reify_dict (reify d h0) entries) as [ns|] eqn:Hentries;
             [|discriminate].
           injection Hreify as <-. cbn [well_keyed] in Hwk.
           apply andb_true_iff in Hwk as [Hdist Hwk].
           apply distinct_NoDup in Hdist.
           rewrite (reify_dict_keys _ _ _ Hentries) in Hdist.
           destruct (copy_dict_ok h0 (deepcopy fuel) (reify d h0)
                       (IH d ltac:(lia)) (length h) (length h :: busy)
                       Hlen0 (or_introl eq_refl) entries ns []
                       ((l, length h) :: m) (h ++ [ODict []])
                       Hentries Hwk Hdist (copying_alloc _ _ _ _ _ _ Hcp Hl)
                       (read_alloc _ _) eq_refl)
             as (m' & h' & Hrun & Hcp' & Hread' & Hcov' & Hlen & Hgrow
                 & Hfresh).
           rewrite Hrun. exists m', h'.
           assert (Hly : memo_get l m' = Some (length h)).
           { apply Hgrow. cbn. now rewrite Nat.eqb_refl. }
           cbn [rename covered]. rewrite Hly. cbn [app] in Hread', Hcov'.
           split; [reflexivity|]. split; [reflexivity|].
           rewrite length_app in Hlen, Hfresh. cbn [length] in Hlen, Hfresh.
           split; [|split; [|split]].
           ++ apply (copying_finish h0 busy m' h' l (length h)
                       (ODict entries)); auto.
              intros l2 H2. destruct (Hfresh _ _ H2) as [H3|H3]; [|lia].
              cbn in H3. destruct (Nat.eqb_spec l2 l) as [->|Hne];
                [reflexivity|].
              destruct (proj2 Hcp _ _ H3) as [Hb _]. lia.
           ++ pose proof (HeapFacts.deepcopy_extends (S fuel) (VRef l) m h)
                as He.
              rewrite deepcopy_S, Hl, Hread, Hrun in He. exact He.
           ++ intros l2 y2 H2. apply Hgrow. cbn.
              destruct (Nat.eqb_spec l2 l) as [->|Hne];
                [congruence | exact H2].
           ++ intros l2 y2 H2. destruct (Hfresh _ _ H2) as [H3|H3];
                [|right; lia].
              cbn in H3. destruct (Nat.eqb_spec l2 l) as [->|Hne].
              ** injection H3 as <-. right. lia.
              ** now left.
Qed.

(** ** What the copy stands for *)

Lemma reify_copy (h0 : heap) (m : memo) (h : heap) :
  copying h0 [] m h ->
  forall d v n,
    reify d h0 v = Some n -> covered m v = true ->
    reify d h (rename m v) = Some n.
Proof.
  intros [Hext Hm]. induction d as [|d IH]; intros v n; [discriminate|].
  destruct v as [s|a|l]; cbn [rename covered];
    try (intros H _; exact H).
  destruct (memo_get l m) as [y|] eqn:Hl; [|discriminate].
  intros Hreify _.
  destruct (Hm _ _ Hl) as [_ Hc].
  destruct (Hc (fun H => H)) as (o & Ho & Hcov & Hy).
  cbn [reify] in *. rewrite Hy. rewrite Ho in Hreify.
  destruct o as [items|entries]; cbn [rename_object covered_object] in *.
  - destruct (reify_list (reify d h0) items) as [ns|] eqn:Hitems;
      [|discriminate].
    assert (H : reify_list (reify d h) (map (rename m) items) = Some ns);
      [|now rewrite H].
    clear Hreify Ho Hy. revert ns Hitems Hcov.
    induction items as [|v items IHitems]; intros ns; cbn; [trivial|].
    destruct (reify d h0 v) as [nv|] eqn:Hv; [|discriminate].
    destruct (reify_list (reify d h0) items) as [ns'|]; [|discriminate].
    intros [= <-] Hcov. apply andb_true_iff in Hcov as [Hcv Hcov].
    now rewrite (IH _ _ Hv Hcv), (IHitems _ eq_refl Hcov).
  - destruct (reify_dict (reify d h0) entries) as [ns|] eqn:Hentries;
      [|discriminate].
    assert (H : reify_dict (reify d h)
                  (map (fun kv => (fst kv, rename m (snd kv))) entries)
                = Some ns); [|now rewrite H].
    clear Hreify Ho Hy. revert ns Hentries Hcov.
    induction entries as [|[k v] entries IHentries]; intros ns; cbn;
      [trivial|].
    destruct (reify d h0 v) as [nv|] eqn:Hv; [|discriminate].
    destruct (reify_dict (reify d h0) entries) as [ns'|]; [|discriminate].
    intros [= <-] Hcov. apply andb_true_iff in Hcov as [Hcv Hcov].
    now rewrite (IH _ _ Hv Hcv), (IHentries _ eq_refl Hcov).
Qed.

(** [copy.deepcopy(desc)] returns when [desc] stands for a tree and the
    fuel is that of the depth of the tree, and the copy stands for the same
    tree. *)
Lemma deepcopy_reify (fuel d : nat) (h : heap) (x : value) (n : node) :
  reify d h x = Some n -> well_keyed n = true -> d <= fuel ->
  exists x' m' h',
    deepcopy fuel x [] h = (Some (x', m'), h')
    /\ extends h h'
    /\ reify d h' x' = Some n.
Proof.
  intros Hreify Hwk Hd.
  assert (Hcp : copying h [] [] h).
  { split; [apply HeapFacts.extends_refl|]. intros l y. discriminate. }
  destruct (deepcopy_ok h fuel d Hd x n [] h [] Hreify Hwk Hcp)
    as (m' & h' & Hrun & Hcov & Hcp' & Hext & _).
  exists (rename m' x), m', h'. split; [exact Hrun|]. split; [exact Hext|].
  now apply (reify_copy h m' h' Hcp').
Qed.

(** ** Trees and types of the store *)

Lemma reify_deeper (d d' : nat) (h : heap) (v : value) (n : node) :
  d <= d' -> reify d h v = Some n -> reify d' h v = Some n.
Proof.
  revert d' v n. induction d as [|d IH]; intros d' v n Hd; [discriminate|].
  destruct d' as [|d']; [lia|]. cbn [reify].
  destruct v as [s|a|l]; try (intros H; exact H).
  assert (Hmono : forall v n, reify d h v = Some n -> reify d' h v = Some n).
  { intros v' n'. apply IH. lia. }
  destruct (read h l) as [[items|entries]|]; [| |discriminate].
  - destruct (reify_list (reify d h) items) as [ns|] eqn:Hl; [|discriminate].
    now rewrite (@HeapFacts.reify_list_mono _ _ Hmono _ _ Hl).
  - destruct (reify_dict (reify d h) entries) as [ns|] eqn:Hl;
      [|discriminate].
    now rewrite (@HeapFacts.reify_dict_mono _ _ Hmono _ _ Hl).
Qed.

Lemma reify_NStr (d : nat) (h : heap) (v : value) (s : string) :
  reify d h v = Some (NStr s) -> v = VStr s.
Proof.
  destruct d; [discriminate|]. cbn [reify]. destruct v as [s'|a|l].
  - now intros [= ->].
  - discriminate.
  - destruct (read h l) as [[items|entries]|]; [| |discriminate].
    + destruct (reify_list _ items); discriminate.
    + destruct (reify_dict _ entries); discriminate.
Qed.

Lemma reify_NAtom (d : nat) (h : heap) (v : value) (a : atom) :
  reify d h v = Some (NAtom a) -> v = VAtom a.
Proof.
  destruct d; [discriminate|]. cbn [reify]. destruct v as [s'|a'|l].
  - discriminate.
  - now intros [= ->].
  - destruct (read h l) as [[items|entries]|]; [| |discriminate].
    + destruct (reify_list _ items); discriminate.
    + destruct (reify_dict _ entries); discriminate.
Qed.

Lemma reify_NList (d : nat) (h : heap) (v : value) (ns : list node) :
  reify d h v = Some (NList ns) ->
  exists d' l items,
    d = S d' /\ v = VRef l /\ read h l = Some (OList items)
    /\ reify_list (reify d' h) items = Some ns.
Proof.
  destruct d as [|d']; [discriminate|]. cbn [reify].
  destruct v as [s'|a'|l]; try discriminate.
  destruct (read h l) as [[items|entries]|] eqn:Hread; [| |discriminate].
  - destruct (reify_list _ items) as [ns'|] eqn:H; [|discriminate].
    cbn. intros [= <-]. now exists d', l, items.
  - destruct (reify_dict _ entries); discriminate.
Qed.

Lemma reify_NMap (d : nat) (h : heap) (v : value)
  (ns : list (string * node)) :
  reify d h v = Some (NMap ns) ->
  exists d' l entries,
    d = S d' /\ v = VRef l /\ read h l = Some (ODict entries)
    /\ reify_dict (reify d' h) entries = Some ns.
Proof.
  destruct d as [|d']; [discriminate|]. cbn [reify].
  destruct v as [s'|a'|l]; try discriminate.
  destruct (read h l) as [[items|entries]|] eqn:Hread; [| |discriminate].
  - destruct (reify_list _ items); discriminate.
  - destruct (reify_dict _ entries) as [ns'|] eqn:H; [|discriminate].
    cbn. intros [= <-]. now exists d', l, entries.
Qed.

End CopyFacts.

Module StoreFacts.

#[local] Unset Implicit Arguments.

Lemma reify_fields_mono (r r' : Heap.TypeDef -> option TypeDef)
  (fields : list (string * Heap.TypeDef)) (fs : list (string * TypeDef)) :
  Forall (fun kv => forall t, r (snd kv) = Some t -> r' (snd kv) = Some t)
         fields ->
  reify_fields r fields = Some fs -> reify_fields r' fields = Some fs.
Proof.
  intros Hall. revert fs.
  induction Hall as [|[k t] fields Ht _ IH]; intros fs; [trivial|].
  cbn [reify_fields snd] in *. destruct (r t) as [t'|]; [|discriminate].
  rewrite (Ht _ eq_refl).
  destruct (reify_fields r fields) as [fs'|]; [|discriminate].
  now rewrite (IH _ eq_refl).
Qed.

Lemma reify_type_extends (D : nat) (h h' : Heap.heap) (t : Heap.TypeDef) :
  Heap.extends h h' ->
  forall t', reify_type D h t = Some t' -> reify_type D h' t = Some t'.
Proof.
  intros Hext.
  induction t as [n p|under IH|s|n p fields IH|n p item IH|n p values]
    using HeapTypeDef_rect'; intros t'; cbn [reify_type]; trivial.
  - destruct (reify_type D h under) as [u|]; [|discriminate].
    now rewrite (IH _ eq_refl).
  - destruct (reify_fields (reify_type D h) fields) as [fs|] eqn:Hf;
      [|discriminate].
    now rewrite (reify_fields_mono _ _ _ _ IH Hf).
  - destruct (reify_type D h item) as [u|]; [|discriminate].
    now rewrite (IH _ eq_refl).
  - destruct (Heap.reify D h values) as [nv|] eqn:Hv; [|discriminate].
    now rewrite (@HeapFacts.reify_extends _ _ _ _ _ Hext Hv).
Qed.

Lemma reify_table_extends (D : nat) (h h' : Heap.heap)
  (types : Dict.t Heap.TypeDef) (T : Dict.t TypeDef) :
  Heap.extends h h' ->
  reify_table D h types = Some T -> reify_table D h' types = Some T.
Proof.
  intros Hext. unfold reify_table. apply reify_fields_mono.
  apply Forall_forall. intros kv _ t. now apply reify_type_extends.
Qed.

Lemma reify_fields_set (r : Heap.TypeDef -> option TypeDef) (k : string)
  (t : Heap.TypeDef) (t' : TypeDef)
  (fields : list (string * Heap.TypeDef)) (fs : list (string * TypeDef)) :
  r t = Some t' -> reify_fields r fields = Some fs ->
  reify_fields r (Dict.set k t fields) = Some (Dict.set k t' fs).
Proof.
  intros Ht. revert fs.
  induction fields as [|[k0 t0] fields IH]; intros fs; cbn.
  - intros [= <-]. cbn. now rewrite Ht.
  - destruct (r t0) as [t0'|] eqn:H0; [|discriminate].
    destruct (reify_fields r fields) as [fs'|] eqn:Hf; [|discriminate].
    intros [= <-]. cbn. destruct (String.eqb k k0); cbn.
    + now rewrite Ht, Hf.
    + now rewrite H0, (IH _ eq_refl).
Qed.

Lemma reify_fields_keys (r : Heap.TypeDef -> option TypeDef)
  (fields : list (string * Heap.TypeDef)) (fs : list (string * TypeDef)) :
  reify_fields r fields = Some fs -> Dict.keys fs = Dict.keys fields.
Proof.
  revert fs. induction fields as [|[k t] fields IH]; intros fs; cbn.
  - now intros [= <-].
  - destruct (r t); [|discriminate].
    destruct (reify_fields r fields) as [fs'|]; [|discriminate].
    intros [= <-]. unfold Dict.keys in *. cbn [map fst]. f_equal.
    now apply IH.
Qed.

(** ** The two builders *)

Lemma is_str_reify (d : nat) (h : Heap.heap) (s : string) (v : Heap.value)
  (n : node) :
  Heap.reify d h v = Some n -> Heap.is_str s v = is_str s n.
Proof.
  destruct d; [discriminate|]. cbn [Heap.reify].
  destruct v as [s'|a|l].
  - now intros [= <-].
  - now intros [= <-].
  - destruct (Heap.read h l) as [[items|entries]|]; [| |discriminate].
    + destruct (Heap.reify_list _ items); [|discriminate]. now intros [= <-].
    + destruct (Heap.reify_dict _ entries); [|discriminate]. now intros [= <-].
Qed.

Lemma existsb_is_str (d : nat) (h : Heap.heap) (s : string)
  (items : list Heap.value) (ns : list node) :
  Heap.reify_list (Heap.reify d h) items = Some ns ->
  existsb (Heap.is_str s) items = existsb (is_str s) ns.
Proof.
  revert ns. induction items as [|v items IH]; intros ns; cbn.
  - now intros [= <-].
  - destruct (Heap.reify d h v) as [n|] eqn:Hv; [|discriminate].
    destruct (Heap.reify_list _ items) as [ns'|]; [|discriminate].
    intros [= <-]. cbn. now rewrite (is_str_reify _ _ _ _ _ Hv), (IH _ eq_refl).
Qed.

Lemma get_reify (r : Heap.value -> option node) (k : string)
  (entries : list (string * Heap.value)) (ns : list (string * node)) :
  Heap.reify_dict r entries = Some ns ->
  match Dict.get k entries, Dict.get k ns with
  | Some v, Some n => r v = Some n
  | None, None => True
  | _, _ => False
  end.
Proof.
  revert ns. induction entries as [|[k0 v0] entries IH]; intros ns; cbn.
  - now intros [= <-].
  - destruct (r v0) as [n0|] eqn:H0; [|discriminate].
    destruct (Heap.reify_dict r entries) as [ns'|]; [|discriminate].
    intros [= <-]. cbn. destruct (String.eqb k k0); [exact H0|].
    now apply IH.
Qed.

Lemma well_keyed_get (k : string) (ns : list (string * node)) (n : node) :
  forallb (fun kv => well_keyed (snd kv)) ns = true ->
  Dict.get k ns = Some n -> well_keyed n = true.
Proof.
  intros Hall Hget. apply DictFacts.get_in in Hget.
  rewrite forallb_forall in Hall. exact (Hall _ Hget).
Qed.

Lemma Optional_init_reify (D : nat) (h : Heap.heap) (t' : Heap.TypeDef)
  (t : TypeDef) :
  reify_type D h t' = Some t ->
  match Heap.Optional_init t', Optional_init t with
  | Return u', Return u => reify_type D h u' = Some u
  | Raise e', Raise e => e' = e
  | _, _ => False
  end.
Proof.
  destruct t'; cbn [reify_type].
  - intros [= <-]. reflexivity.
  - destruct (reify_type D h t') as [u|]; [|discriminate].
    intros [= <-]. reflexivity.
  - intros [= <-]. reflexivity.
  - destruct (reify_fields _ fields) as [fs|] eqn:Hf; [|discriminate].
    intros [= <-]. cbn. now rewrite Hf.
  - destruct (reify_type D h t') as [u|] eqn:Hu; [|discriminate].
    intros [= <-]. cbn. now rewrite Hu.
  - destruct (Heap.reify D h values) as [nv|] eqn:Hv; [|discriminate].
    intros [= <-]. cbn. now rewrite Hv.
Qed.

Section Simulation.

Variable D : nat.
Variable nsname : string.

Lemma agree_register (t' : Heap.TypeDef) (t : TypeDef) (st : Heap.state)
  (T : Dict.t TypeDef) :
  reify_type D (Heap.heap_of st) t' = Some t ->
  reify_table D (Heap.heap_of st) (Heap.types_of st) = Some T ->
  match t' with Heap.Optional _ => False | _ => True end ->
  agree D nsname (fun h u' u => reify_type D h u' = Some u)
        (Heap.register_and_return t' st)
        ((_ <- register t ;; ret t) (Namespace.make nsname T)).
Proof.
  intros Ht HT Hopt.
  assert (Hname : exists key,
             Heap.res_name t' = Return key /\ res_name t = Return key).
  { destruct t'; cbn [reify_type] in Ht; try contradiction.
    - injection Ht as <-. now eexists.
    - injection Ht as <-. now eexists.
    - destruct (reify_fields _ fields); [|discriminate].
      injection Ht as <-. now eexists.
    - destruct (reify_type D _ t'); [|discriminate].
      injection Ht as <-. now eexists.
    - destruct (Heap.reify D _ values); [|discriminate].
      injection Ht as <-. now eexists. }
  destruct Hname as (key & Hk' & Hk).
  unfold Heap.register_and_return, Heap.bind, Heap.register, Heap.ret,
    bind, register, ret.
  rewrite Hk', Hk. cbn.
  split; [exact Ht|]. split; [reflexivity|].
  now apply reify_fields_set.
Qed.

Section Body.

Variable hc : string -> Heap.value -> Heap.M Heap.TypeDef.
Variable fuel : nat.

Hypothesis hc_frames : forall name v, Heap.frames (hc name v).

Hypothesis hc_agrees :
  forall d, d < fuel -> d <= D ->
  forall name v n st T,
    Heap.reify d (Heap.heap_of st) v = Some n ->
    well_keyed n = true ->
    reify_table D (Heap.heap_of st) (Heap.types_of st) = Some T ->
    agree D nsname (fun h u' u => reify_type D h u' = Some u)
          (hc name v st)
          (create_types name n (Namespace.make nsname T)).

Lemma for_items_agree (d : nat) :
  d < fuel -> d <= D ->
  forall name entries ns fields fs st T,
    Heap.reify_dict (Heap.reify d (Heap.heap_of st)) entries = Some ns ->
    forallb (fun kv => well_keyed (snd kv)) ns = true ->
    reify_fields (reify_type D (Heap.heap_of st)) fields = Some fs ->
    reify_table D (Heap.heap_of st) (Heap.types_of st) = Some T ->
    agree D nsname
          (fun h f' f => reify_fields (reify_type D h) f' = Some f)
          (Heap.for_items hc name entries fields st)
          (for_items create_types name ns fs (Namespace.make nsname T)).
Proof.
  intros Hd HD name. induction entries as [|[k v] entries IH];
    intros ns fields fs st T Hreify Hwk Hfields HT.
  - injection Hreify as <-. cbn. auto.
  - cbn [Heap.reify_dict] in Hreify.
    destruct (Heap.reify d (Heap.heap_of st) v) as [nv|] eqn:Hv;
      [|discriminate].
    destruct (Heap.reify_dict _ entries) as [ns'|] eqn:Hentries;
      [|discriminate].
    injection Hreify as <-. cbn [forallb snd] in Hwk.
    apply andb_true_iff in Hwk as [Hwv Hwk].
    cbn [Heap.for_items for_items].
    destruct (Str.last_char k) as [c|]; [|reflexivity].
    assert (Hstep : forall key wrap name',
               (forall h u' u,
                   reify_type D h u' = Some u ->
                   match wrap u', (if Ascii.eqb c "?" then Optional_init u
                                   else Return u) with
                   | Return w', Return w => reify_type D h w' = Some w
                   | Raise e', Raise e => e' = e
                   | _, _ => False
                   end) ->
               agree D nsname
                 (fun h f' f => reify_fields (reify_type D h) f' = Some f)
                 (Heap.bind (hc name' v)
                    (fun under =>
                       Heap.bind (Heap.lift (wrap under))
                         (fun w => Heap.for_items hc name entries
                                     (Dict.set key w fields))) st)
                 (bind (create_types name' nv)
                    (fun under =>
                       bind (lift (if Ascii.eqb c "?" then Optional_init under
                                   else Return under))
                         (fun w => for_items create_types name ns'
                                     (Dict.set key w fs)))
                    (Namespace.make nsname T))).
    { intros key wrap name' Hwrap. unfold Heap.bind, bind.
      pose proof (hc_agrees d Hd HD name' v nv st T Hv Hwv HT) as Hsim.
      pose proof (hc_frames name' v st) as Hext.
      destruct (hc name' v st) as [[u'|e'|] st1];
        destruct (create_types name' nv (Namespace.make nsname T))
        as [[u [nsname1 T1]]|e]; cbn [agree] in Hsim; try contradiction;
        [|exact Hsim].
      cbn [snd Namespace.name Namespace.types] in *.
      destruct Hsim as (Hu & -> & HT1).
      specialize (Hwrap _ _ _ Hu).
      destruct (wrap u') as [w'|e'];
        destruct (if Ascii.eqb c "?" then Optional_init u else Return u)
        as [w|e]; try contradiction; [|exact Hwrap].
      cbn [Heap.lift Heap.ret lift ret].
      apply IH.
      - exact (@HeapFacts.reify_dict_mono _ _
                 (fun x n => @HeapFacts.reify_extends d _ _ x n Hext)
                 _ _ Hentries).
      - exact Hwk.
      - apply reify_fields_set; [exact Hwrap|].
        revert Hfields. apply reify_table_extends. exact Hext.
      - exact HT1. }
    destruct (Ascii.eqb c "?") eqn:Hc.
    + apply (Hstep (Str.drop_last k) Heap.Optional_init
               (name ++ _camel_case (Str.drop_last k))%string).
      intros h u' u Hu. now apply Optional_init_reify.
    + pose proof (Hstep k (fun u => Return u) (name ++ _camel_case k)%string)
        as H.
      unfold Heap.bind, bind in *. cbn [Heap.lift lift] in H.
      unfold Heap.ret, ret in H. apply H.
      intros h u' u Hu. exact Hu.
Qed.


Lemma lines_94_114_agree (d : nat) :
  d <= fuel -> d <= D ->
  forall name v n st T,
    Heap.reify d (Heap.heap_of st) v = Some n ->
    well_keyed n = true ->
    reify_table D (Heap.heap_of st) (Heap.types_of st) = Some T ->
    agree D nsname (fun h u' u => reify_type D h u' = Some u)
          (Heap.lines_94_114 hc nsname name v st)
          (lines_94_114 create_types name n (Namespace.make nsname T)).
Proof.
  intros Hd HD name v n st T Hv Hwk HT.
  destruct n as [s|a|ns|ns].
  - rewrite (CopyFacts.reify_NStr _ _ _ _ Hv).
    cbn [Heap.lines_94_114 lines_94_114].
    destruct (Dict.mem s Primitive_map); cbn [negb].
    + now apply agree_register.
    + unfold _resolve_refpath. cbn [Namespace.name].
      destruct (Str.contains "." s); cbn; auto.
  - rewrite (CopyFacts.reify_NAtom _ _ _ _ Hv). reflexivity.
  - destruct (CopyFacts.reify_NList _ _ _ _ Hv)
      as (d' & l & items & -> & -> & Hread & Hitems).
    cbn [Heap.lines_94_114]. unfold Heap.bind, Heap.deref. rewrite Hread.
    destruct items as [|item [|item2 items]]; cbn [Heap.reify_list] in Hitems.
    + injection Hitems as <-. reflexivity.
    + destruct (Heap.reify d' (Heap.heap_of st) item) as [nitem|] eqn:Hitem;
        [|discriminate].
      injection Hitems as <-. cbn [well_keyed forallb] in Hwk.
      apply andb_true_iff in Hwk as [Hwk _].
      cbn [lines_94_114]. unfold bind, namespace_name.
      cbn [Namespace.name].
      pose proof (hc_agrees d' ltac:(lia) ltac:(lia) (name ++ "Item")%string
                    item nitem st T Hitem Hwk HT) as Hsim.
      destruct (hc (name ++ "Item")%string item st) as [[u'|e'|] st1];
        destruct (create_types (name ++ "Item") nitem
                    (Namespace.make nsname T))
        as [[u [nsname1 T1]]|e]; cbn [agree] in Hsim; try contradiction;
        [|exact Hsim].
      cbn [Namespace.name Namespace.types] in Hsim.
      destruct Hsim as (Hu & -> & HT1).
      refine (agree_register (Heap.Array name nsname u')
                (Array name nsname u) st1 T1 _ HT1 I).
      cbn [reify_type]. now rewrite Hu.
    + destruct (Heap.reify d' _ item); [|discriminate].
      destruct (Heap.reify d' _ item2); [|discriminate].
      destruct (Heap.reify_list _ items); [|discriminate].
      injection Hitems as <-. reflexivity.
  - destruct (CopyFacts.reify_NMap _ _ _ _ Hv)
      as (d' & l & entries & -> & -> & Hread & Hentries).
    cbn [Heap.lines_94_114]. unfold Heap.bind at 1. unfold Heap.deref.
    rewrite Hread. cbn [well_keyed] in Hwk.
    apply andb_true_iff in Hwk as [_ Hwk].
    cbn [lines_94_114]. unfold Heap.bind, bind.
    pose proof (for_items_agree d' ltac:(lia) ltac:(lia) name entries ns
                  [] [] st T Hentries Hwk eq_refl HT) as Hsim.
    destruct (Heap.for_items hc name entries [] st) as [[f'|e'|] st1];
      destruct (for_items create_types name ns [] (Namespace.make nsname T))
      as [[f [nsname1 T1]]|e]; cbn [agree] in Hsim; try contradiction;
      [|exact Hsim].
    cbn [Namespace.name Namespace.types] in Hsim.
    destruct Hsim as (Hf & -> & HT1).
    unfold namespace_name. cbn [Namespace.name].
    refine (agree_register (Heap.Object name nsname f')
              (Object name nsname f) st1 T1 _ HT1 I).
    cbn [reify_type]. now rewrite Hf.
Qed.

Lemma body_agree (d : nat) :
  d <= fuel -> d <= D ->
  forall name v n st T,
    Heap.reify d (Heap.heap_of st) v = Some n ->
    well_keyed n = true ->
    reify_table D (Heap.heap_of st) (Heap.types_of st) = Some T ->
    agree D nsname (fun h u' u => reify_type D h u' = Some u)
          (Heap.body hc nsname fuel name v st)
          (create_types name n (Namespace.make nsname T)).
Proof.
  intros Hd HD name v n st T Hv Hwk HT.
  destruct (CopyFacts.deepcopy_reify fuel d _ v n Hv Hwk Hd)
    as (x' & m' & h' & Hrun & Hext & Hx').
  unfold Heap.body. unfold Heap.bind at 1. unfold Heap.copy_deepcopy.
  rewrite Hrun.
  pose proof (reify_table_extends _ _ _ _ _ Hext HT) as HT1.
  set (st1 := {| Heap.heap_of := h'; Heap.types_of := Heap.types_of st |}).
  change h' with (Heap.heap_of st1) in Hx', HT1.
  change (Heap.types_of st) with (Heap.types_of st1) in HT1.
  clearbody st1. clear Hrun Hext HT Hv.
  destruct n as [s|a|ns|ns].
  - pose proof (CopyFacts.reify_NStr _ _ _ _ Hx') as ->.
    rewrite create_types_NStr.
    destruct (Str.contains "enum" s); [reflexivity|].
    destruct (Str.contains "structure" s); [reflexivity|].
    now apply (lines_94_114_agree d).
  - rewrite (CopyFacts.reify_NAtom _ _ _ _ Hx'). reflexivity.
  - destruct (CopyFacts.reify_NList _ _ _ _ Hx')
      as (d' & l & items & -> & -> & Hread & Hitems).
    unfold Heap.bind, Heap.deref. rewrite Hread.
    rewrite create_types_NList.
    rewrite !(existsb_is_str _ _ _ _ _ Hitems).
    destruct (existsb (is_str "enum") ns); [reflexivity|].
    destruct (existsb (is_str "structure") ns); [reflexivity|].
    pose proof (lines_94_114_agree (S d') Hd HD name (Heap.VRef l)
                  (NList ns) st1 T Hx' Hwk HT1) as H.
    exact H.
  - destruct (CopyFacts.reify_NMap _ _ _ _ Hx')
      as (d' & l & entries & -> & -> & Hread & Hentries).
    unfold Heap.bind, Heap.deref. rewrite Hread.
    rewrite create_types_NMap.
    pose proof (get_reify _ "enum" _ _ Hentries) as Henum.
    pose proof (get_reify _ "structure" _ _ Hentries) as Hstruct.
    pose proof Hwk as Hwk0. cbn [well_keyed] in Hwk.
    apply andb_true_iff in Hwk as [_ Hwk].
    destruct (Dict.get "enum" entries) as [values|];
      destruct (Dict.get "enum" ns) as [nvalues|]; try contradiction.
    + refine (agree_register (Heap.EnumClass name nsname values)
                (EnumClass name nsname nvalues) st1 T _ HT1 I).
      cbn [reify_type].
      now rewrite (CopyFacts.reify_deeper d' D _ _ _ ltac:(lia) Henum).
    + destruct (Dict.get "structure" entries) as [inner|];
        destruct (Dict.get "structure" ns) as [ninner|] eqn:Hget;
        try contradiction.
      * apply (lines_94_114_agree d'); try lia; auto.
        exact (well_keyed_get _ _ _ Hwk Hget).
      * exact (lines_94_114_agree (S d') Hd HD name (Heap.VRef l)
                 (NMap ns) st1 T Hx' Hwk0 HT1).
Qed.

End Body.

(** The builder over the store, given the fuel of the depth of the tree,
    does what the builder over trees does. *)
Lemma create_types_agree (fuel : nat) :
  forall d, d < fuel -> d <= D ->
  forall name v n st T,
    Heap.reify d (Heap.heap_of st) v = Some n ->
    well_keyed n = true ->
    reify_table D (Heap.heap_of st) (Heap.types_of st) = Some T ->
    agree D nsname (fun h u' u => reify_type D h u' = Some u)
          (Heap.create_types fuel nsname name v st)
          (create_types name n (Namespace.make nsname T)).
Proof.
  induction fuel as [|fuel IH]; intros d Hd HD name v n st T Hv Hwk HT;
    [lia|].
  cbn [Heap.create_types].
  apply (body_agree (Heap.create_types fuel nsname) fuel
           (HeapFacts.frames_create_types fuel nsname) IH d); auto. lia.
Qed.

Lemma for_types_agree (fuel d : nat) :
  d < fuel -> d <= D ->
  forall entries ns st T,
    Heap.reify_dict (Heap.reify d (Heap.heap_of st)) entries = Some ns ->
    forallb (fun kv => well_keyed (snd kv)) ns = true ->
    reify_table D (Heap.heap_of st) (Heap.types_of st) = Some T ->
    agree D nsname (fun _ _ _ => True)
          (Heap.for_types fuel nsname entries st)
          (for_types ns (Namespace.make nsname T)).
Proof.
  intros Hd HD. induction entries as [|[k v] entries IH];
    intros ns st T Hreify Hwk HT.
  - injection Hreify as <-. cbn. auto.
  - cbn [Heap.reify_dict] in Hreify.
    destruct (Heap.reify d (Heap.heap_of st) v) as [nv|] eqn:Hv;
      [|discriminate].
    destruct (Heap.reify_dict _ entries) as [ns'|] eqn:Hentries;
      [|discriminate].
    injection Hreify as <-. cbn [forallb snd] in Hwk.
    apply andb_true_iff in Hwk as [Hwv Hwk].
    cbn [Heap.for_types for_types]. unfold Heap.bind, bind.
    pose proof (create_types_agree fuel d Hd HD k v nv st T Hv Hwv HT)
      as Hsim.
    pose proof (HeapFacts.frames_create_types fuel nsname k v st) as Hext.
    destruct (Heap.create_types fuel nsname k v st) as [[u'|e'|] st1];
      destruct (create_types k nv (Namespace.make nsname T))
      as [[u [nsname1 T1]]|e]; cbn [agree] in Hsim; try contradiction;
      [|exact Hsim].
    cbn [snd Namespace.name Namespace.types] in *.
    destruct Hsim as (_ & -> & HT1).
    apply IH; [|exact Hwk|exact HT1].
    exact (@HeapFacts.reify_dict_mono _ _
             (fun x n => @HeapFacts.reify_extends d _ _ x n Hext)
             _ _ Hentries).
Qed.

End Simulation.

(** A document: the builder over the store, started with the types of the
    document at [types], builds the type table that the builder over trees
    builds from the tree of the types, or raises the same exception. *)
Lemma create_types_None_agree (fuel depth : nat) (nsname : string)
  (types : Heap.loc) (h : Heap.heap) (entries : list (string * node)) :
  Heap.reify depth h (Heap.VRef types) = Some (NMap entries) ->
  well_keyed (NMap entries) = true ->
  depth <= fuel ->
  match Heap.create_types_None fuel nsname types h,
        create_types_None {| doc_namespace := nsname; doc_types := entries |}
  with
  | (Heap.Done T', h'), Return ns =>
      Heap.extends h h'
      /\ Namespace.name ns = nsname
      /\ reify_table depth h' T' = Some (Namespace.types ns)
  | (Heap.Raised e', _), Raise e => e' = e
  | _, _ => False
  end.
Proof.
  intros Hreify Hwk Hfuel.
  destruct (CopyFacts.reify_NMap _ _ _ _ Hreify)
    as (d & l & hentries & -> & [= <-] & Hread & Hentries).
  cbn [well_keyed] in Hwk. apply andb_true_iff in Hwk as [_ Hwk].
  unfold Heap.create_types_None, create_types_None. rewrite Hread.
  cbn [doc_namespace doc_types].
  pose proof (for_types_agree (S d) nsname fuel d ltac:(lia) ltac:(lia)
                hentries entries
                {| Heap.heap_of := h; Heap.types_of := [] |} []
                Hentries Hwk eq_refl) as Hsim.
  pose proof (HeapFacts.frames_for_types fuel nsname hentries
                {| Heap.heap_of := h; Heap.types_of := [] |}) as Hext.
  destruct (Heap.for_types fuel nsname hentries _) as [[u'|e'|] st1];
    destruct (for_types entries (Namespace.make nsname []))
    as [[u [nsname1 T1]]|e]; cbn [agree] in Hsim; try contradiction;
    [|exact Hsim].
  cbn [snd Namespace.name Namespace.types Heap.heap_of] in *.
  destruct Hsim as (_ & -> & HT1). auto.
Qed.

End StoreFacts.

(** ** Determinism *)


